(** * presubmitai-salesforce: batching, run state and comment
    reconciliation

    A shallow embedding of the review pipeline of [src/pull_request.ts] and
    [src/comments.ts] (with the constants of [src/messages.ts] and the
    defaults of [src/config.ts]), and the properties of it that the
    specification states.

    Conventions of the embedding.
    - A JavaScript string is a [string]: a sequence of code units, here the
      code units below 256.  [length] is [String.length].
    - A JavaScript number that holds a line number, an index or a size is a
      [Z]; an optional or nullable field is an [option].
    - A host call that can throw returns a [Result]; the host itself is an
      explicit list of issue comments together with oracles that say which
      calls fail. *)

From Stdlib Require Import ZArith Ascii String.
From stdpp Require Import base tactics option list gmap strings pretty.

Local Open Scope Z_scope.

(* ===================================================================== *)
(** ** JavaScript string and array primitives used by the sources         *)
(* ===================================================================== *)

Module JS.

(** Code unit of a character. *)
Definition code (c : ascii) : Z := Z.of_N (N_of_ascii c).

Definition newline : ascii := ascii_of_nat 10.

(** [s.startsWith(p)] *)
Fixpoint startsWith (s p : string) : bool :=
  match p, s with
  | EmptyString, _ => true
  | String _ _, EmptyString => false
  | String a p', String b s' => if decide (a = b) then startsWith s' p' else false
  end.

(** [s.includes(sub)] *)
Fixpoint includes (s sub : string) : bool :=
  startsWith s sub ||
  match s with
  | EmptyString => false
  | String _ s' => includes s' sub
  end.

(** [s.endsWith(p)] *)
Fixpoint endsWith (s p : string) : bool :=
  String.eqb s p ||
  match s with
  | EmptyString => false
  | String _ s' => endsWith s' p
  end.

(** Suffix of [s] from position [n] on. *)
Fixpoint dropStr (n : nat) (s : string) : string :=
  match n, s with
  | O, _ => s
  | S _, EmptyString => EmptyString
  | S n', String _ s' => dropStr n' s'
  end.

(** Prefix of [s] of length [n]. *)
Fixpoint takeStr (n : nat) (s : string) : string :=
  match n, s with
  | O, _ => EmptyString
  | S _, EmptyString => EmptyString
  | S n', String c s' => String c (takeStr n' s')
  end.

(** First position [k >= pos] at which [sub] occurs in a string whose
    suffix from [pos] on is [s]. *)
Fixpoint indexOfGo (s sub : string) (pos : Z) : Z :=
  if startsWith s sub then pos
  else match s with
       | EmptyString => -1
       | String _ s' => indexOfGo s' sub (pos + 1)
       end.

Definition strlen (s : string) : Z := Z.of_nat (String.length s).

(** [s.indexOf(sub, from)]; [from] is clamped to [0 .. length]. *)
Definition indexOfFrom (s sub : string) (from : Z) : Z :=
  let k := Z.min (Z.max from 0) (strlen s) in
  indexOfGo (dropStr (Z.to_nat k) s) sub k.

Definition indexOf (s sub : string) : Z := indexOfFrom s sub 0.

(** Relative index of [slice]: negative counts from the end. *)
Definition relIndex (len k : Z) : Z :=
  if k <? 0 then Z.max (len + k) 0 else Z.min k len.

(** [s.slice(a, b)] *)
Definition slice (s : string) (a b : Z) : string :=
  let from := relIndex (strlen s) a in
  let to := relIndex (strlen s) b in
  takeStr (Z.to_nat (to - from)) (dropStr (Z.to_nat from) s).

(** [arr.slice(a, b)] and [arr.slice(a)] on arrays. *)
Definition sliceArr {A} (l : list A) (a b : Z) : list A :=
  let len := Z.of_nat (length l) in
  let from := relIndex len a in
  let to := relIndex len b in
  take (Z.to_nat (to - from)) (drop (Z.to_nat from) l).

Definition sliceFrom {A} (l : list A) (a : Z) : list A :=
  drop (Z.to_nat (relIndex (Z.of_nat (length l)) a)) l.

(** [s.split("\n")]: never empty. *)
Fixpoint splitLines (s : string) : list string :=
  match s with
  | EmptyString => [EmptyString]
  | String c s' =>
      if decide (c = newline) then EmptyString :: splitLines s'
      else match splitLines s' with
           | l :: ls => String c l :: ls
           | [] => [String c EmptyString]
           end
  end.

(** [lines.join("\n")] *)
Fixpoint joinLines (l : list string) : string :=
  match l with
  | [] => EmptyString
  | [x] => x
  | x :: rest => x +:+ String newline (joinLines rest)
  end.

(** White space removed by [trim], among the code units below 256. *)
Definition isWhite (c : ascii) : bool :=
  let n := code c in
  ((9 <=? n) && (n <=? 13)) || (n =? 32) || (n =? 160).

Fixpoint trimStart (s : string) : string :=
  match s with
  | EmptyString => EmptyString
  | String c s' => if isWhite c then trimStart s' else s
  end.

Fixpoint trimEnd (s : string) : string :=
  match s with
  | EmptyString => EmptyString
  | String c s' =>
      match trimEnd s' with
      | EmptyString => if isWhite c then EmptyString else String c EmptyString
      | t => String c t
      end
  end.

(** [s.trim()] *)
Definition trim (s : string) : string := trimEnd (trimStart s).

(** [toLowerCase] on one code unit below 256: A-Z, and the upper-case
    letters of the Latin-1 block (all of 192..222 but the sign 215). *)
Definition lowerChar (c : ascii) : ascii :=
  let n := code c in
  if ((65 <=? n) && (n <=? 90)) || ((192 <=? n) && (n <=? 222) && negb (n =? 215))
  then ascii_of_N (Z.to_N (n + 32)) else c.

Fixpoint toLowerCase (s : string) : string :=
  match s with
  | EmptyString => EmptyString
  | String c s' => String (lowerChar c) (toLowerCase s')
  end.

(** The character [c] does not occur in [s]. *)
Fixpoint lacksChar (c : ascii) (s : string) : bool :=
  match s with
  | EmptyString => true
  | String a s' => if decide (a = c) then false else lacksChar c s'
  end.

(** A string is falsy exactly when it is empty. *)
Definition truthyStr (s : string) : bool := negb (String.eqb s EmptyString).

(** An optional number is falsy when absent or zero. *)
Definition truthyNum (n : option Z) : bool :=
  match n with Some k => negb (k =? 0) | None => false end.

End JS.

(* ===================================================================== *)
(** ** src/messages.ts: the markers                                        *)
(* ===================================================================== *)

Module Messages.

Definition nl : string := String JS.newline EmptyString.

Definition OVERVIEW_MESSAGE_SIGNATURE : string :=
  nl +:+ "<!-- presubmit.ai: overview message -->".
Definition COMMENT_SIGNATURE : string :=
  nl +:+ "<!-- presubmit.ai: comment -->".
Definition DOCUMENTATION_SIGNATURE : string :=
  nl +:+ "<!-- presubmit.ai: documentation -->".
Definition PAYLOAD_TAG_OPEN : string :=
  nl +:+ "<!-- presubmit.ai: payload --".
Definition PAYLOAD_TAG_CLOSE : string :=
  nl +:+ "-- presubmit.ai: payload -->".

End Messages.

(* ===================================================================== *)
(** ** src/config.ts: the fields the pipeline reads                        *)
(* ===================================================================== *)

Record Config := mkConfig {
  reviewScopes : option (list string);
  maxComments : option Z;
  maxCodeblockLines : option Z;
  maxReviewChars : option Z;
}.

(** [a ?? b] *)
Definition nullish {A} (a : option A) (b : A) : A :=
  match a with Some x => x | None => b end.

(* ===================================================================== *)
(** ** src/comments.ts                                                     *)
(* ===================================================================== *)

Module Comments.

Record ReviewComment := mkReviewComment {
  path : string;
  body : string;
  line : option Z;
  in_reply_to_id : option Z;
  id : Z;
  start_line : option Z;
  user_login : string;
}.

Record ReviewCommentThread := mkThread {
  file : string;
  comments : list ReviewComment;
}.

Definition isOwnComment (comment : string) : bool :=
  JS.includes comment Messages.COMMENT_SIGNATURE.

Definition isThreadRelevant (thread : ReviewCommentThread) : bool :=
  existsb
    (fun c =>
       JS.includes (body c) Messages.COMMENT_SIGNATURE
       || JS.includes (body c) "@presubmitai"
       || JS.includes (body c) "@presubmit")
    (comments thread).

(** State of the loop of [truncateCodeBlocks]; [out] is kept reversed. *)
Record TruncState := mkTrunc {
  inFence : bool;
  codeLines : Z;
  out : list string;
}.

Definition TRUNCATED_MARK : string := "... (truncated; more lines omitted) ...".

Definition truncStep (maxLines : Z) (st : TruncState) (ln : string) : TruncState :=
  let fenceStart := JS.startsWith ln "```" in
  if fenceStart then
    if negb (inFence st) then mkTrunc true 0 (ln :: out st)
    else mkTrunc false (codeLines st) (ln :: out st)
  else if inFence st then
    let n := codeLines st + 1 in
    if n <=? maxLines then mkTrunc true n (ln :: out st)
    else if n =? maxLines + 1 then mkTrunc true n (TRUNCATED_MARK :: out st)
    else mkTrunc true n (out st)
  else mkTrunc false (codeLines st) (ln :: out st).

Definition truncateCodeBlocks (text : string) (maxLines : Z) : string :=
  let st := fold_left (truncStep maxLines) (JS.splitLines text) (mkTrunc false 0 []) in
  JS.joinLines (rev (out st)).

Definition buildComment (cfg : Config) (comment : string) : string :=
  let maxLines := nullish (maxCodeblockLines cfg) 60 in
  let processed := truncateCodeBlocks comment maxLines in
  processed +:+ Messages.nl +:+ Messages.nl +:+ Messages.COMMENT_SIGNATURE.

End Comments.

(* ===================================================================== *)
(** ** src/diff.ts: the data a parsed diff holds                           *)
(* ===================================================================== *)

(** [src/diff.ts] is not among the sources: only its test and its callers
    are.  The records below are its [File], [Hunk] and [FileDiff], with the
    field names the callers in [src/pull_request.ts] and the test use; the
    parser itself is not modelled, and a parsed diff is an input of the
    pipeline. *)

Module Diff.

Inductive Status := added | modified | removed | renamed.

#[global] Instance Status_eq_dec : EqDecision Status.
Proof. solve_decision. Defined.

Record File := mkFile {
  file_filename : string;
  file_previous_filename : option string;
  file_status : Status;
  patch : option string;
}.

Record Hunk := mkHunk {
  startLine : Z;
  endLine : Z;
  diff : string;
  commentThreads : list Comments.ReviewCommentThread;
}.

Record FileDiff := mkFileDiff {
  filename : string;
  previous_filename : option string;
  status : Status;
  hunks : list Hunk;
}.

End Diff.

(* ===================================================================== *)
(** ** src/prompts.ts: a finding of the analysis backend                   *)
(* ===================================================================== *)

(** The fields of [AIComment], as the comment schema of
    [src/prompts.salesforce.ts] lists them and [src/pull_request.ts] reads
    them; the line numbers are optional, as the code tests them. *)

Module Prompts.

Record AIComment := mkAIComment {
  file : string;
  start_line : option Z;
  end_line : option Z;
  highlighted_code : string;
  header : string;
  content : string;
  label : string;
  critical : bool;
}.

End Prompts.

(* ===================================================================== *)
(** ** Results of calls that can throw, and JSON values                    *)
(* ===================================================================== *)

Inductive Result (A : Type) : Type :=
| Ok (a : A)
| Throw (err : string).
Arguments Ok {A} a.
Arguments Throw {A} err.

Definition rbind {A B} (m : Result A) (k : A -> Result B) : Result B :=
  match m with
  | Ok a => k a
  | Throw e => Throw e
  end.

(** [try { m } catch { h }] *)
Definition tryCatch {A} (m : Result A) (h : string -> A) : A :=
  match m with
  | Ok a => a
  | Throw e => h e
  end.

#[warnings="-register-all"]
Inductive JValue :=
| JNull
| JBool (b : bool)
| JNum (n : Z)
| JStr (s : string)
| JArr (elems : list JValue)
| JObj (fields : list (string * JValue)).

(** What the pipeline needs of the JavaScript runtime: [JSON.parse]
    ([None] when it throws a [SyntaxError]) and the loose equality [==] of
    a value that is not a string with a string. *)
Record Runtime := mkRuntime {
  JSON_parse : string -> option JValue;
  looseEqString : JValue -> string -> bool;
}.

(* ===================================================================== *)
(** ** src/pull_request.ts                                                 *)
(* ===================================================================== *)

Module PullRequest.

Import Diff.

(** *** Batching by size: [batchFilesByChars] *)

(** [estimate], the size of a file (lines 274-278). *)
Definition estimate (f : FileDiff) : Z :=
  let hunksSize := fold_left (fun acc h => acc + JS.strlen (diff h)) (hunks f) 0 in
  hunksSize + JS.strlen (filename f) + 200.

(** The variables of the loop of [batchFilesByChars]. *)
Record BatchState := mkBatchState {
  batches : list (list FileDiff);
  current : list FileDiff;
  size : Z;
}.

Definition nonEmpty {A} (l : list A) : bool :=
  match l with [] => false | _ :: _ => true end.

(** One turn of the loop over the files (lines 279-288). *)
Definition batchStep (maxChars : Z) (st : BatchState) (f : FileDiff) : BatchState :=
  let s := estimate f in
  let st' :=
    if nonEmpty (current st) && (size st + s >? maxChars)
    then mkBatchState (batches st ++ [current st]) [] 0
    else st in
  mkBatchState (batches st') (current st' ++ [f]) (size st' + s).

(** [batchFilesByChars(files, maxChars)] (lines 270-291). *)
Definition batchFilesByChars (files : list FileDiff) (maxChars : Z)
    : list (list FileDiff) :=
  let st := fold_left (batchStep maxChars) files (mkBatchState [] [] 0) in
  if nonEmpty (current st) then batches st ++ [current st] else batches st.

(** Estimated size of a batch. *)
Definition batchSize (b : list FileDiff) : Z :=
  fold_right (fun f acc => estimate f + acc) 0 b.

(** The greedy packing the specification describes, by recursion on the
    files: "accumulate into current batch until adding the next file would
    exceed [maxChars], then start a new batch".  [cur] is the current batch
    and [sz] its size. *)
Fixpoint greedyPack (maxChars : Z) (cur : list FileDiff) (sz : Z)
    (files : list FileDiff) : list (list FileDiff) :=
  match files with
  | [] => if nonEmpty cur then [cur] else []
  | f :: rest =>
      if nonEmpty cur && (sz + estimate f >? maxChars)
      then cur :: greedyPack maxChars [f] (estimate f) rest
      else greedyPack maxChars (cur ++ [f]) (sz + estimate f) rest
  end.

(** No file is added to a non-empty batch beyond the budget. *)
Definition withinBudget (maxChars : Z) (b : list FileDiff) : Prop :=
  forall pre f post, b = pre ++ f :: post -> pre <> [] ->
    batchSize pre + estimate f <= maxChars.

(** *** Scopes: [filterFilesByScope] *)

(** The two patterns of [filterFilesByScope], on a lower-case name
    (lines 1198-1201). *)
Definition isFlow (n : string) : bool :=
  JS.includes n "/flows/" && JS.endsWith n ".flow-meta.xml".

Definition isDataModel (n : string) : bool :=
  (JS.includes n "/objects/"
   && (JS.endsWith n ".object-meta.xml" || JS.includes n "/fields/"))
  || JS.includes n "/globalvaluesets/".

(** The test of the filter of [filterFilesByScope] (lines 1195-1207). *)
Definition inScope (scope : string) (f : FileDiff) : bool :=
  let s := JS.toLowerCase scope in
  let n := JS.toLowerCase (filename f) in
  if String.eqb s "flows" then isFlow n
  else if String.eqb s "data-model" then isDataModel n
  else if String.eqb s "apex" then negb (isFlow n) && negb (isDataModel n)
  else true.

Definition filterFilesByScope (files : list FileDiff) (scope : string)
    : list FileDiff :=
  filter (fun f => inScope scope f = true) files.

(** The scopes of a run whose configuration names none (line 296). *)
Definition DEFAULT_SCOPES : list string := ["data-model"; "flows"; "apex"].

(** The default scopes that select a file. *)
Definition scopesOf (f : FileDiff) : list string :=
  filter (fun s => inScope s f = true) DEFAULT_SCOPES.

(** A file name that matches both the flow and the data-model pattern. *)
Definition overlaps (f : FileDiff) : bool :=
  isFlow (JS.toLowerCase (filename f)) && isDataModel (JS.toLowerCase (filename f)).

(** *** Run state: the payload of the overview comment *)

Definition EMPTY_OBJECT : string := "{}".

(** [payloadJson], the text handed to [JSON.parse] (lines 101-109). *)
Definition extractPayloadJson (body : string) : string :=
  let hasOpen := JS.includes body Messages.PAYLOAD_TAG_OPEN in
  let hasClose := JS.includes body Messages.PAYLOAD_TAG_CLOSE in
  if hasOpen && hasClose then
    let start := JS.indexOf body Messages.PAYLOAD_TAG_OPEN
                 + JS.strlen Messages.PAYLOAD_TAG_OPEN in
    let end_ := JS.indexOfFrom body Messages.PAYLOAD_TAG_CLOSE start in
    if end_ >? start then JS.slice body start end_ else EMPTY_OBJECT
  else EMPTY_OBJECT.

(** The markers do not delimit a payload: one is missing, or no closing
    marker follows the opening one, or nothing lies between them. *)
Definition markersUnusable (body : string) : bool :=
  let start := JS.indexOf body Messages.PAYLOAD_TAG_OPEN
               + JS.strlen Messages.PAYLOAD_TAG_OPEN in
  negb (JS.includes body Messages.PAYLOAD_TAG_OPEN)
  || negb (JS.includes body Messages.PAYLOAD_TAG_CLOSE)
  || negb (JS.indexOfFrom body Messages.PAYLOAD_TAG_CLOSE start >? start).

(** The array under the key [commits] of a parsed payload, if it has one. *)
Definition commitsArray (payload : JValue) : option (list JValue) :=
  match payload with
  | JObj fields =>
      match List.find (fun kv => String.eqb (fst kv) "commits") fields with
      | Some (_, JArr cs) => Some cs
      | _ => None
      end
  | _ => None
  end.

(** [payload.commits]: reading a property of [null] throws. *)
Definition getCommitsProp (payload : JValue) : Result (option JValue) :=
  match payload with
  | JNull => Throw "TypeError: Cannot read properties of null"
  | JObj fields => Ok (snd <$> List.find (fun kv => String.eqb (fst kv) "commits") fields)
  | _ => Ok None
  end.

(** The body of the [try] block: parse and read the commit list
    (lines 110-111). *)
Definition readPayload (rt : Runtime) (body : string) : Result (list JValue) :=
  rbind (match JSON_parse rt (extractPayloadJson body) with
         | Some v => Ok v
         | None => Throw "SyntaxError"
         end) (fun payload =>
  rbind (getCommitsProp payload) (fun commits =>
  Ok (match commits with
      | Some (JArr cs) => cs
      | _ => []
      end))).

(** [commitsReviewed] after the [try]/[catch] (lines 100-114): it keeps
    its initial value, the empty list, when the block throws. *)
Definition commitsReviewedOf (rt : Runtime) (body : string) : list JValue :=
  tryCatch (readPayload rt body) (fun _ => []).

Record Commit := mkCommit {
  sha : string;
  message : string;
}.

Definition truthy (v : JValue) : bool :=
  match v with
  | JNull => false
  | JBool b => b
  | JNum n => negb (n =? 0)
  | JStr s => JS.truthyStr s
  | JArr _ | JObj _ => true
  end.

(** [v != s] for a string [s]. *)
Definition looseNeq (rt : Runtime) (v : JValue) (s : string) : bool :=
  match v with
  | JStr t => negb (String.eqb t s)
  | _ => negb (looseEqString rt v s)
  end.

(** [commitsReviewed.includes(sha)] *)
Definition includesSha (cs : list JValue) (s : string) : bool :=
  existsb (fun v => match v with JStr t => String.eqb t s | _ => false end) cs.

(** What the scope resolver settles; [compared] tells whether the host was
    asked to compare the last reviewed commit with the head. *)
Record Scope := mkScope {
  filesToReview : list FileDiff;
  commitsToReview : list Commit;
  lastCommitReviewed : option JValue;
  compared : bool;
}.

Definition last_opt {A} (l : list A) : option A := last l.

(** The scope of a run, from [handlePullRequest] (lines 96-141): the files
    and commits still to review.  [compareCommits base head] is the host call; it
    answers with the optional list of the file names that changed, or
    throws, and then so does the handler.  [overview] is the body of the
    overview comment of an incremental run. *)
Definition resolveScope (rt : Runtime)
    (compareCommits : JValue -> string -> Result (option (list string)))
    (overview : option string) (headSha : string)
    (commits : list Commit) (files : list FileDiff) : Result Scope :=
  let commitsReviewed :=
    match overview with
    | Some body => commitsReviewedOf rt body
    | None => []
    end in
  let lastCommit :=
    match overview with
    | Some _ => last_opt commitsReviewed
    | None => None
    end in
  let commitsTo :=
    if nonEmpty commitsReviewed
    then filter (fun c => includesSha commitsReviewed (sha c) = false) commits
    else commits in
  match overview, lastCommit with
  | Some _, Some l =>
      if truthy l && looseNeq rt l headSha then
        rbind (compareCommits l headSha) (fun incrementalFiles =>
        Ok (mkScope
              (match incrementalFiles with
               | Some names =>
                   filter (fun f => existsb (String.eqb (filename f)) names = true) files
               | None => files
               end) commitsTo lastCommit true))
      else Ok (mkScope files commitsTo lastCommit false)
  | _, _ => Ok (mkScope files commitsTo lastCommit false)
  end.

(** *** Findings kept for inline posting *)

Import Prompts.

(** The filter of [handlePullRequest] before the review is submitted
    (lines 324-326). *)
Definition postable (files : list File) (c : AIComment) : bool :=
  negb (String.eqb (JS.trim (content c)) EmptyString)
  && existsb (fun f => String.eqb (file_filename f) (file c)) files.

(** [HIGH_VALUE_LABELS] (lines 677-682). *)
Definition HIGH_VALUE_LABELS : list string :=
  ["security"; "possible bug"; "bug"; "performance"].

(** The alternatives of the keyword pattern (line 698). *)
Definition KEYWORDS : list string :=
  ["sql"; "xss"; "csrf"; "injection"; "overflow"; "sqli"; "dos"; "race"; "leak"].

(** [\w] *)
Definition isWordChar (c : ascii) : bool :=
  let n := JS.code c in
  ((48 <=? n) && (n <=? 57)) || ((65 <=? n) && (n <=? 90))
  || ((97 <=? n) && (n <=? 122)) || (n =? 95).

(** Lower case of the letters A-Z only, as the flag [i] compares them. *)
Definition foldCase (c : ascii) : ascii :=
  let n := JS.code c in
  if (65 <=? n) && (n <=? 90) then ascii_of_N (Z.to_N (n + 32)) else c.

(** [kw] matches at the head of [s], whatever the case, and a word
    boundary follows it. *)
Fixpoint matchWord (s kw : string) : bool :=
  match kw, s with
  | EmptyString, EmptyString => true
  | EmptyString, String c _ => negb (isWordChar c)
  | String _ _, EmptyString => false
  | String k kw', String c s' =>
      if decide (foldCase c = k) then matchWord s' kw' else false
  end.

(** [prevWord] tells whether the character before [s] is a word character. *)
Fixpoint hasKeywordsGo (prevWord : bool) (s : string) : bool :=
  (negb prevWord && existsb (matchWord s) KEYWORDS)
  || match s with
     | EmptyString => false
     | String c s' => hasKeywordsGo (isWordChar c) s'
     end.

(** [/\b(sql|xss|csrf|injection|overflow|sqli|dos|race|leak)\b/i.test(s)] *)
Definition hasKeywords (s : string) : bool := hasKeywordsGo false s.

(** The tests of the loop body of [submitReview] (lines 691-700). *)
Definition isHighValue (c : AIComment) : bool :=
  critical c || existsb (String.eqb (JS.toLowerCase (label c))) HIGH_VALUE_LABELS.

Definition isTypos (c : AIComment) : bool :=
  String.eqb (JS.toLowerCase (label c)) "typo".

Definition contentLen (c : AIComment) : Z := JS.strlen (JS.trim (content c)).

Definition isSubstantive (c : AIComment) : bool :=
  let text := JS.trim (content c) in
  let hasCode := JS.includes text "```" in
  let longEnough := contentLen c >=? 30 in
  longEnough || hasCode || hasKeywords text || (critical c && (contentLen c >=? 10)).

(** The decision of the loop body for a finding with a line
    (lines 702-711). *)
Definition worthPosting (c : AIComment) : bool :=
  if isHighValue c || isTypos c then
    let minLen := if isTypos c then 10 else 0 in
    isSubstantive c || (contentLen c >=? minLen)
  else false.

(** One turn of the loop over the findings (lines 684-712): the pair is
    [(lineComments, skippedComments)]. *)
Definition triageStep (st : list AIComment * list AIComment) (c : AIComment)
    : list AIComment * list AIComment :=
  let '(lineComments, skipped) := st in
  if negb (JS.truthyNum (end_line c)) then (lineComments, skipped ++ [c])
  else if worthPosting c then (lineComments ++ [c], skipped)
  else (lineComments, skipped ++ [c]).

Definition triage (comments : list AIComment) : list AIComment * list AIComment :=
  fold_left triageStep comments ([], []).

(** A finding the loop keeps for inline posting. *)
Definition keptInline (c : AIComment) : bool :=
  JS.truthyNum (end_line c) && worthPosting c.

Definition MAX_TOTAL_COMMENTS (cfg : Config) : Z := nullish (maxComments cfg) 40.

(** The hard cap on the inline comments of a run (lines 715-720). *)
Definition applyCap (cap : Z) (st : list AIComment * list AIComment)
    : list AIComment * list AIComment :=
  let '(lineComments, skipped) := st in
  if Z.of_nat (length lineComments) >? cap
  then (JS.sliceArr lineComments 0 cap, skipped ++ JS.sliceFrom lineComments cap)
  else (lineComments, skipped).

Definition selectComments (cfg : Config) (comments : list AIComment)
    : list AIComment * list AIComment :=
  applyCap (MAX_TOTAL_COMMENTS cfg) (triage comments).

(** *** Thread continuity and rename-aware paths *)

Import Comments.

(** An optional number in a template string: nothing when absent. *)
Definition showNum (n : option Z) : string :=
  match n with Some k => pretty k | None => EmptyString end.

(** [makeKey] (lines 454-455). *)
Definition makeKey (path : string) (endLine startLine : option Z) : string :=
  path +:+ "#" +:+ showNum endLine +:+ "#" +:+ showNum startLine.

(** One turn of the loop that fills [threadsIndex] (lines 457-463). *)
Definition indexStep (idx : gmap string ReviewCommentThread)
    (t : ReviewCommentThread) : gmap string ReviewCommentThread :=
  match comments t with
  | [] => idx
  | top :: _ => <[makeKey (Comments.file t) (line top) (Comments.start_line top) := t]> idx
  end.

(** The key under which a thread is indexed: that of its root comment. *)
Definition threadKey (t : ReviewCommentThread) : option string :=
  match comments t with
  | [] => None
  | top :: _ => Some (makeKey (Comments.file t) (line top) (Comments.start_line top))
  end.

(** [prThreads], the relevant threads (line 447), and the index built
    from them. *)
Definition relevantThreads (prThreadsAll : list ReviewCommentThread)
    : list ReviewCommentThread :=
  filter (fun t => isThreadRelevant t = true) prThreadsAll.

Definition threadsIndex (prThreads : list ReviewCommentThread)
    : gmap string ReviewCommentThread :=
  fold_left indexStep prThreads ∅.

(** [resolveReviewPath] (lines 465-468). *)
Definition resolveReviewPath (files : list FileDiff) (p : string) : string :=
  match List.find (fun fd => bool_decide (previous_filename fd = Some p)) files with
  | Some f => filename f
  | None => p
  end.

(** [findExistingThread] (lines 470-477). *)
Definition findExistingThread (idx : gmap string ReviewCommentThread)
    (path : string) (endLine startLine : option Z) : option ReviewCommentThread :=
  match endLine with
  | None => None
  | Some _ => idx !! makeKey path endLine startLine
  end.

(** The thread a finding continues, if any. *)
Definition existingThreadOf (files : list FileDiff)
    (idx : gmap string ReviewCommentThread) (c : AIComment)
    : option ReviewCommentThread :=
  findExistingThread idx (resolveReviewPath files (Prompts.file c))
                     (end_line c) (Prompts.start_line c).

(** The split of the line comments into new anchors and replies
    (lines 726-731). *)
Definition anchorComments (files : list FileDiff)
    (idx : gmap string ReviewCommentThread) (lineComments : list AIComment)
    : list AIComment :=
  filter (fun c => existingThreadOf files idx c = None) lineComments.

Definition replyCandidates (files : list FileDiff)
    (idx : gmap string ReviewCommentThread) (lineComments : list AIComment)
    : list AIComment :=
  filter (fun c => is_Some (existingThreadOf files idx c)) lineComments.

(** A comment of a review, as handed to the host. *)
Record ReviewCommentData := mkData {
  rc_path : string;
  rc_body : string;
  rc_line : option Z;
  rc_start_line : option Z;
}.

(** An element of [commentsData] (lines 733-740). *)
Definition commentData (cfg : Config) (files : list FileDiff) (c : AIComment)
    : ReviewCommentData :=
  mkData (resolveReviewPath files (Prompts.file c))
         (buildComment cfg (content c))
         (end_line c)
         (match Prompts.start_line c, end_line c with
          | Some s, Some e => if negb (s =? 0) && (s <? e) then Some s else None
          | _, _ => None
          end).

(** The loop of [chunk]; [fuel] bounds the number of its turns. *)
Fixpoint chunkGo {A} (fuel : nat) (arr : list A) (size : nat) : list (list A) :=
  match fuel, arr with
  | O, _ => []
  | _, [] => []
  | S fuel', _ => take size arr :: chunkGo fuel' (drop size arr) size
  end.

(** [chunk] (lines 742-747). *)
Definition chunk {A} (arr : list A) (size : Z) : list (list A) :=
  if size <=? 0 then [arr] else chunkGo (length arr) arr (Z.to_nat size).

Definition MAX_COMMENTS_PER_REVIEW : Z := 50.

(** The batches of new anchored comments of a run. *)
Definition reviewBatches (cfg : Config) (files : list FileDiff)
    (idx : gmap string ReviewCommentThread) (lineComments : list AIComment)
    : list (list ReviewCommentData) :=
  chunk (map (commentData cfg files) (anchorComments files idx lineComments))
        MAX_COMMENTS_PER_REVIEW.

(** The comment a reply candidate answers: the root comment of its thread
    (lines 751-762). *)
Definition replyTarget (files : list FileDiff)
    (idx : gmap string ReviewCommentThread) (c : AIComment) : option Z :=
  match existingThreadOf files idx c with
  | Some t => match comments t with top :: _ => Some (id top) | [] => None end
  | None => None
  end.

(** *** Upsert signatures *)

(** [ToInt32] *)
Definition toInt32 (z : Z) : Z := (z + 2 ^ 31) mod 2 ^ 32 - 2 ^ 31.

Definition hexDigit (d : Z) : ascii :=
  if d <? 10 then ascii_of_N (Z.to_N (48 + d)) else ascii_of_N (Z.to_N (87 + d)).

Fixpoint toHexGo (fuel : nat) (n : Z) (acc : string) : string :=
  match fuel with
  | O => acc
  | S fuel' =>
      let acc' := String (hexDigit (n mod 16)) acc in
      if n / 16 =? 0 then acc' else toHexGo fuel' (n / 16) acc'
  end.

(** [(h >>> 0).toString(16)] *)
Definition toHex32 (h : Z) : string := toHexGo 8 (h mod 2 ^ 32) EmptyString.

(** The loop of [hashString]: [h = (h * 33) ^ input.charCodeAt(i)]. *)
Fixpoint hashGo (input : string) (h : Z) : Z :=
  match input with
  | EmptyString => h
  | String c rest => hashGo rest (Z.lxor (toInt32 (h * 33)) (JS.code c))
  end.

(** [hashString] (lines 558-564). *)
Definition hashString (input : string) : string := toHex32 (hashGo input 5381).

(** [firstLine] of [makeStableKey] (line 572). *)
Definition firstLineOf (content : string) : string :=
  JS.toLowerCase (JS.trim (match JS.splitLines content with l :: _ => l | [] => EmptyString end)).

(** [makeStableKey] (lines 565-574). *)
Definition makeStableKey (kind file : string) (line : option Z)
    (header content : string) : string :=
  let firstLine := firstLineOf content in
  kind +:+ "|" +:+ file +:+ "|" +:+ pretty (nullish line 0) +:+ "|"
  +:+ JS.slice (if JS.truthyStr header then header else firstLine) 0 80.

(** [makeUpsertSignature] (lines 575-585). *)
Definition makeUpsertSignature (kind file : string) (line : option Z)
    (header content : string) : string :=
  let key := makeStableKey kind file line header content in
  let hash := hashString key in
  "<!-- presubmit.ai: upsert:" +:+ hash +:+ ":" +:+ key +:+ " -->".

(** *** The host: issue comments, and the calls that fail *)

Record IssueComment := mkIssueComment {
  ic_id : Z;
  ic_body : string;
}.

(** A write the host accepted. *)
Inductive Event :=
| CreatedIssueComment (body : string)
| UpdatedIssueComment (comment_id : Z) (body : string).

Definition eventBody (e : Event) : string :=
  match e with
  | CreatedIssueComment body => body
  | UpdatedIssueComment _ body => body
  end.

Record Host := mkHost {
  issueComments : list IssueComment;
  nextId : Z;
  trace : list Event;
}.

(** A comment posted alone: a reply under a root comment, or a new comment
    on a line. *)
Inductive InlineRequest :=
| ReplyTo (comment_id : Z) (body : string)
| ReviewCommentAt (path body : string) (line : option Z).

(** The calls the host rejects.  Whether a call throws depends on the call
    and on the attempt it belongs to (the first attempt is attempt 0). *)
Record Faults := mkFaults {
  listFails : nat -> Z -> bool;
  issueWriteFails : nat -> string -> bool;
  reviewFails : list ReviewCommentData -> bool;
  inlineFails : nat -> InlineRequest -> bool;
}.

Definition PER_PAGE : nat := 100.

(** [issuesApi.listComments({per_page, page})] *)
Definition listComments (ft : Faults) (attempt : nat) (h : Host) (page : Z)
    : Result (list IssueComment) :=
  if listFails ft attempt page then Throw "listComments failed"
  else Ok (take PER_PAGE (drop (PER_PAGE * Z.to_nat (page - 1)) (issueComments h))).

(** The paging loop of [upsertIssueCommentBySignature]; [fuel] bounds the
    number of pages read. *)
Fixpoint findSigned (ft : Faults) (attempt : nat) (h : Host) (sig : string)
    (fuel : nat) (page : Z) : Result (option IssueComment) :=
  match fuel with
  | O => Ok None
  | S fuel' =>
      rbind (listComments ft attempt h page) (fun data =>
      match List.find (fun c => JS.includes (ic_body c) sig) data with
      | Some m => Ok (Some m)
      | None =>
          if (length data <? PER_PAGE)%nat then Ok None
          else findSigned ft attempt h sig fuel' (page + 1)
      end)
  end.

(** [issuesApi.updateComment({comment_id, body})] *)
Definition updateComment (ft : Faults) (attempt : nat) (h : Host) (cid : Z)
    (body : string) : Result Host :=
  if issueWriteFails ft attempt body then Throw "updateComment failed"
  else Ok (mkHost
             (map (fun c => if ic_id c =? cid then mkIssueComment cid body else c)
                  (issueComments h))
             (nextId h)
             (trace h ++ [UpdatedIssueComment cid body])).

(** [issuesApi.createComment({body})] *)
Definition createComment (ft : Faults) (attempt : nat) (h : Host)
    (body : string) : Result Host :=
  if issueWriteFails ft attempt body then Throw "createComment failed"
  else Ok (mkHost (issueComments h ++ [mkIssueComment (nextId h) body])
                  (nextId h + 1)
                  (trace h ++ [CreatedIssueComment body])).

(** [upsertIssueCommentBySignature(sig, body)] (lines 586-618).  A host
    with [n] comments has fewer than [n + 1] pages. *)
Definition upsertIssueCommentBySignature (ft : Faults) (attempt : nat)
    (h : Host) (sig body : string) : Result Host :=
  rbind (findSigned ft attempt h sig (S (length (issueComments h))) 1) (fun existing =>
  match existing with
  | Some c => updateComment ft attempt h (ic_id c) body
  | None => createComment ft attempt h body
  end).

(** [withRetries(fn, attempts)] (lines 520-532); the pauses between
    attempts are left out.  [fn i] is the [i]-th call of [fn]. *)
Fixpoint withRetriesGo {A} (fn : nat -> Result A) (i remaining : nat)
    (lastErr : string) : Result A :=
  match remaining with
  | O => Throw lastErr
  | S r =>
      match fn i with
      | Ok a => Ok a
      | Throw e => withRetriesGo fn (S i) r e
      end
  end.

Definition withRetries {A} (fn : nat -> Result A) (attempts : nat) : Result A :=
  withRetriesGo fn O attempts "undefined".

(** *** File-level findings *)

(** [s.trim().length], as a test. *)
Definition nonBlank (s : string) : bool := 0 <? JS.strlen (JS.trim s).

Definition fence : string := "```".

(** [sig] of a file-level finding (lines 660-661). *)
Definition fileNoteSignature (files : list FileDiff) (c : AIComment) : string :=
  makeUpsertSignature "file-note" (resolveReviewPath files (Prompts.file c))
                      None (header c) (content c).

(** [bodyWithSig] of a file-level finding (lines 656-663). *)
Definition fileNoteBody (files : list FileDiff) (c : AIComment) : string :=
  let headerPart :=
    if JS.truthyStr (header c) && nonBlank (header c)
    then header c +:+ Messages.nl +:+ Messages.nl else EmptyString in
  let codeBlock :=
    if JS.truthyStr (highlighted_code c) && nonBlank (highlighted_code c)
    then Messages.nl +:+ Messages.nl +:+ fence +:+ Messages.nl
         +:+ highlighted_code c +:+ Messages.nl +:+ fence
    else EmptyString in
  let targetFile := resolveReviewPath files (Prompts.file c) in
  let rawBody := headerPart +:+ content c +:+ Messages.nl +:+ Messages.nl
                 +:+ "File: " +:+ targetFile +:+ codeBlock in
  fileNoteSignature files c +:+ Messages.nl +:+ rawBody.

(** One turn of the loop over the file-level findings (lines 654-668): the
    upsert, retried up to three times; a failure is logged and the loop goes on.  An upsert
    that throws has written nothing, so each attempt starts from [h]. *)
Definition postFileNote (cfg : Config) (ft : Faults) (files : list FileDiff)
    (h : Host) (c : AIComment) : Host :=
  tryCatch
    (withRetries
       (fun i => upsertIssueCommentBySignature ft i h (fileNoteSignature files c)
                   (buildComment cfg (fileNoteBody files c)))
       3)
    (fun _ => h).

(** The host accepts every call on its issue comments. *)
Definition issuesReliable (ft : Faults) : Prop :=
  (forall i page, listFails ft i page = false)
  /\ (forall i body, issueWriteFails ft i body = false).

(** [fileComments] (line 652). *)
Definition fileComments (comments : list AIComment) : list AIComment :=
  filter (fun c => JS.truthyNum (end_line c) = false) comments.

Definition postFileNotes (cfg : Config) (ft : Faults) (files : list FileDiff)
    (h : Host) (comments : list AIComment) : Host :=
  fold_left (postFileNote cfg ft files) (fileComments comments) h.

(** *** Fallback of a rejected batch *)

(** [submitInlineComment(file, line, content, startLine)] (lines 621-649):
    the request it sends.  Reading the root of a thread without comments would throw. *)
Definition submitInlineComment (cfg : Config) (files : list FileDiff)
    (idx : gmap string ReviewCommentThread)
    (file : string) (line : option Z) (content : string) (startLine : option Z)
    : Result InlineRequest :=
  let targetPath := resolveReviewPath files file in
  let t :=
    match line with
    | Some l => if l >? 0 then findExistingThread idx targetPath line startLine else None
    | None => None
    end in
  match t with
  | Some th =>
      match comments th with
      | top :: _ => Ok (ReplyTo (id top) (buildComment cfg content))
      | [] => Throw "TypeError: Cannot read properties of undefined"
      end
  | None => Ok (ReviewCommentAt targetPath (buildComment cfg content) line)
  end.

(** The worker of the fallback (lines 833-834): one comment of the batch,
    posted alone, up to three attempts. *)
Definition postAlone (cfg : Config) (ft : Faults) (files : list FileDiff)
    (idx : gmap string ReviewCommentThread) (cm : ReviewCommentData)
    : Result unit :=
  withRetries
    (fun i =>
       rbind (submitInlineComment cfg files idx (rc_path cm) (rc_line cm)
                                  (rc_body cm) (rc_start_line cm))
             (fun req => if inlineFails ft i req then Throw "rejected by the host"
                         else Ok tt))
    3.

(** [processWithConcurrency] (lines 533-555): the pool.  A worker is about
    to take the next index, waits for the worker function on an item, or
    has left its loop.  What the worker function returns for an item does
    not depend on the order of the steps: the answers of the host are those
    of [Faults]. *)
Inductive Worker := Idle | Busy (i : nat) | Finished.

#[global] Instance Worker_eq_dec : EqDecision Worker.
Proof. solve_decision. Defined.

Record Pool (R : Type) := mkPool {
  nextIdx : nat;
  workers : list Worker;
  results : list (option R);
}.
Arguments mkPool {R} _ _ _.
Arguments nextIdx {R} _.
Arguments workers {R} _.
Arguments results {R} _.

(** The pool when the workers start: [Math.min(concurrency, items.length)]
    of them, and no result. *)
Definition initPool {T R} (items : list T) (concurrency : nat) : Pool R :=
  mkPool O (replicate (Nat.min concurrency (length items)) Idle)
         (replicate (length items) None).

(** One step of one worker [w]: [i = idx++] followed by the test that ends
    the loop, or the end of an [await] that settles [results[i]]. *)
Inductive poolStep {T R} (items : list T) (worker : T -> R)
    : Pool R -> Pool R -> Prop :=
| step_take p w i :
    workers p !! w = Some Idle ->
    nextIdx p = i ->
    (i < length items)%nat ->
    poolStep items worker p
      (mkPool (S i) (<[w := Busy i]> (workers p)) (results p))
| step_leave p w :
    workers p !! w = Some Idle ->
    (length items <= nextIdx p)%nat ->
    poolStep items worker p
      (mkPool (S (nextIdx p)) (<[w := Finished]> (workers p)) (results p))
| step_settle p w i x :
    workers p !! w = Some (Busy i) ->
    items !! i = Some x ->
    poolStep items worker p
      (mkPool (nextIdx p) (<[w := Idle]> (workers p))
              (<[i := Some (worker x)]> (results p))).

(** The states a pool reaches from a state. *)
Inductive poolRun {T R} (items : list T) (worker : T -> R)
    : Pool R -> Pool R -> Prop :=
| run_refl p : poolRun items worker p p
| run_step p q r :
    poolRun items worker p q -> poolStep items worker q r ->
    poolRun items worker p r.

(** [Promise.all(workers)] has resolved. *)
Definition allFinished {R} (p : Pool R) : Prop :=
  Forall (fun w => w = Finished) (workers p).

(** The result array of the pool, as a function. *)
Definition processWithConcurrency {T R} (items : list T) (worker : T -> R)
    : list R :=
  map worker items.

(** Work left in a pool: two units for an item not yet taken, two for a
    worker that waits on an item, one for a worker still in its loop. *)
Definition workerWeight (w : Worker) : nat :=
  match w with Idle => 1 | Busy _ => 2 | Finished => 0 end.

Definition poolWork {T R} (items : list T) (p : Pool R) : nat :=
  2 * (length items - nextIdx p) + sum_list (workerWeight <$> workers p).

(** What holds of every state of a run of the pool: the result array has
    the length of the items; an item whose index was taken has its result
    or a worker waiting on it; a worker has left only after the indices ran
    out; and the number of workers is the one the pool started with. *)
Definition poolInvariant {T R} (items : list T) (worker : T -> R)
    (concurrency : nat) (p : Pool R) : Prop :=
  length (results p) = length items
  /\ (forall i x, items !! i = Some x -> (i < nextIdx p)%nat ->
        results p !! i = Some (Some (worker x))
        \/ exists w, workers p !! w = Some (Busy i))
  /\ (forall w, workers p !! w = Some Finished -> (length items <= nextIdx p)%nat)
  /\ (forall w i, workers p !! w = Some (Busy i) -> (i < length items)%nat)
  /\ length (workers p) = Nat.min concurrency (length items).

(** [${cm.line}] *)
Definition showLine (n : option Z) : string :=
  match n with Some k => pretty k | None => "undefined" end.

Definition showOptStr (s : option string) : string :=
  match s with Some t => t | None => "undefined" end.

(** A row of the excerpt: its new-file line number, if it has one. *)
Definition Row : Type := option Z * string.

(** The loop that numbers the rows of a hunk (lines 493-507). *)
Definition numberRows (startAt : Z) (rows : list string) : list Row :=
  snd (fold_left
         (fun (st : Z * list Row) r =>
            let '(newLine, numbered) := st in
            if negb (JS.truthyStr r) then st
            else if JS.startsWith r "@@" then (newLine, numbered ++ [(None, r)])
            else if JS.startsWith r "-" then (newLine, numbered ++ [(None, r)])
            else (newLine + 1, numbered ++ [(Some newLine, r)]))
         rows (startAt, [])).

Fixpoint findIndexGo {A} (f : A -> bool) (l : list A) (k : Z) : Z :=
  match l with
  | [] => -1
  | x :: rest => if f x then k else findIndexGo f rest (k + 1)
  end.

Definition showRow (x : Row) : string :=
  match fst x with
  | Some n => pretty n +:+ " " +:+ snd x
  | None => snd x
  end.

(** [getUnifiedExcerpt] (lines 480-516). *)
Definition getUnifiedExcerpt (files : list FileDiff) (path : string)
    (line : option Z) (contextLines : Z) : option string :=
  let fd :=
    match List.find (fun f => String.eqb (filename f) path) files with
    | Some f => Some f
    | None => List.find (fun f => bool_decide (previous_filename f = Some path)) files
    end in
  match fd, line with
  | Some f, Some ln =>
      match List.find (fun h => (ln >=? startLine h) && (ln <=? endLine h)) (hunks f) with
      | None => None
      | Some hunk =>
          let numbered := numberRows (startLine hunk) (JS.splitLines (diff hunk)) in
          let i := findIndexGo (fun x => bool_decide (fst x = Some ln)) numbered 0 in
          if i =? -1 then None
          else
            let start := Z.max 0 (i - contextLines) in
            let stop := Z.min (Z.of_nat (length numbered) - 1) (i + contextLines) in
            Some (JS.joinLines (map showRow (JS.sliceArr numbered start (stop + 1))))
      end
  | _, _ => None
  end.

(** The arrow of the rename note, written with its bytes. *)
Definition ARROW : string := " → ".

(** [orig], the finding a comment of the batch came from, as the fallback
    looks it up (lines 843-845). *)
Definition originOf (lineComments : list AIComment) (cm : ReviewCommentData)
    : option AIComment :=
  List.find (fun c => String.eqb (Prompts.file c) (rc_path cm)
                      && bool_decide (end_line c = rc_line cm)) lineComments.

(** [codeBlock] of the fallback (lines 854-862). *)
Definition fallbackCodeBlock (files : list FileDiff)
    (lineComments : list AIComment) (cm : ReviewCommentData) : string :=
  let target := resolveReviewPath files (rc_path cm) in
  match originOf lineComments cm with
  | Some o =>
      if JS.truthyStr (highlighted_code o) && nonBlank (highlighted_code o)
      then Messages.nl +:+ Messages.nl +:+ fence +:+ Messages.nl
           +:+ highlighted_code o +:+ Messages.nl +:+ fence
      else match getUnifiedExcerpt files target (rc_line cm) 2 with
           | Some ex =>
               if JS.truthyStr ex
               then Messages.nl +:+ Messages.nl +:+ fence +:+ "diff" +:+ Messages.nl
                    +:+ ex +:+ Messages.nl +:+ fence
               else EmptyString
           | None => EmptyString
           end
  | None =>
      match getUnifiedExcerpt files target (rc_line cm) 2 with
      | Some ex =>
          if JS.truthyStr ex
          then Messages.nl +:+ Messages.nl +:+ fence +:+ "diff" +:+ Messages.nl
               +:+ ex +:+ Messages.nl +:+ fence
          else EmptyString
      | None => EmptyString
      end
  end.

(** The fallback has code to show: the highlighted code of the finding, or
    an excerpt of the hunk around the line. *)
Definition hasExcerpt (files : list FileDiff) (lineComments : list AIComment)
    (cm : ReviewCommentData) : bool :=
  match originOf lineComments cm with
  | Some o => JS.truthyStr (highlighted_code o) && nonBlank (highlighted_code o)
  | None => false
  end
  || match getUnifiedExcerpt files (resolveReviewPath files (rc_path cm)) (rc_line cm) 2 with
     | Some ex => JS.truthyStr ex
     | None => false
     end.

(** The context string of [fallbackBody] (line 864). *)
Definition contextString (files : list FileDiff) (cm : ReviewCommentData) : string :=
  "Context: " +:+ resolveReviewPath files (rc_path cm) +:+ ":" +:+ showLine (rc_line cm).

Definition fallbackHeader (lineComments : list AIComment) (cm : ReviewCommentData)
    : string :=
  match originOf lineComments cm with
  | Some o => header o
  | None => EmptyString
  end.

(** [fallbackBody] (lines 846-866). *)
Definition fallbackBody (files : list FileDiff) (lineComments : list AIComment)
    (cm : ReviewCommentData) : string :=
  let target := resolveReviewPath files (rc_path cm) in
  let fd := List.find (fun f => String.eqb (filename f) target
                                || bool_decide (previous_filename f = Some target)) files in
  let renameNote :=
    match fd with
    | Some f =>
        if bool_decide (status f = renamed)
        then Messages.nl +:+ Messages.nl +:+ "Renamed: "
             +:+ showOptStr (previous_filename f) +:+ ARROW +:+ filename f
        else EmptyString
    | None => EmptyString
    end in
  let hd := fallbackHeader lineComments cm in
  rc_body cm +:+ Messages.nl +:+ Messages.nl +:+ contextString files cm +:+ renameNote
  +:+ (if JS.truthyStr hd then Messages.nl +:+ Messages.nl +:+ hd else EmptyString)
  +:+ fallbackCodeBlock files lineComments cm.

(** [sig] of the fallback (line 867). *)
Definition fallbackSignature (files : list FileDiff) (lineComments : list AIComment)
    (cm : ReviewCommentData) : string :=
  makeUpsertSignature "fallback" (resolveReviewPath files (rc_path cm)) (rc_line cm)
                      (fallbackHeader lineComments cm) (rc_body cm).

(** [bodyWithSig] of the fallback (line 868): the text of the top-level
    comment that replaces a comment of the batch, before [buildComment]. *)
Definition fallbackText (files : list FileDiff) (lineComments : list AIComment)
    (cm : ReviewCommentData) : string :=
  fallbackSignature files lineComments cm +:+ Messages.nl
  +:+ fallbackBody files lineComments cm.

Definition isRejected {A} (r : Result A) : bool :=
  match r with Ok _ => false | Throw _ => true end.

(** One turn of the loop over the settled results (lines 838-874): a
    rejected comment is upserted once as a top-level comment; a failure of
    that is logged. *)
Definition fallbackStep (cfg : Config) (ft : Faults) (files : list FileDiff)
    (lineComments : list AIComment) (h : Host)
    (jr : ReviewCommentData * Result unit) : Host :=
  let '(cm, res) := jr in
  if isRejected res then
    tryCatch
      (upsertIssueCommentBySignature ft O h
         (fallbackSignature files lineComments cm)
         (buildComment cfg (fallbackText files lineComments cm)))
      (fun _ => h)
  else h.

(** The [catch] block of a batch whose review the host rejected
    (lines 827-874), up to the summary of the first batch. *)
Definition fallbackOfBatch (cfg : Config) (ft : Faults) (files : list FileDiff)
    (idx : gmap string ReviewCommentThread) (lineComments : list AIComment)
    (h : Host) (batch : list ReviewCommentData) : Host :=
  let results := processWithConcurrency batch (postAlone cfg ft files idx) in
  fold_left (fallbackStep cfg ft files lineComments) (zip batch results) h.

(** One batch of new anchored comments (lines 801-903): the review, which
    leaves the issue comments as they are, or its fallback when creating or
    submitting the review throws. *)
Definition submitBatch (cfg : Config) (ft : Faults) (files : list FileDiff)
    (idx : gmap string ReviewCommentThread) (lineComments : list AIComment)
    (h : Host) (batch : list ReviewCommentData) : Host :=
  if reviewFails ft batch
  then fallbackOfBatch cfg ft files idx lineComments h batch
  else h.

End PullRequest.

(* ===================================================================== *)
(** ** Concrete inputs                                                     *)
(* ===================================================================== *)

Module Samples.

Import Diff Prompts Comments PullRequest.

Definition defaultConfig : Config := mkConfig None None None None.

Definition plainFile (name : string) : FileDiff := mkFileDiff name None modified [].

(** The patch of [src/__tests__/diff.test.ts]. *)
Definition testPatch : string :=
  "@@ -1,5 +1,6 @@" +:+ Messages.nl
  +:+ " import { something } from 'somewhere';" +:+ Messages.nl
  +:+ " " +:+ Messages.nl
  +:+ "-function oldFunction() {" +:+ Messages.nl
  +:+ "+function newFunction() {" +:+ Messages.nl
  +:+ "+  // Added comment" +:+ Messages.nl
  +:+ "   return true;" +:+ Messages.nl
  +:+ " }" +:+ Messages.nl.

Definition mockFile : File := mkFile "src/test.ts" None modified (Some testPatch).

(** The text [{ commits: [ c1 ] }] as [JSON.stringify] writes it, with its
    quotation marks. *)
Definition quote : string := String (ascii_of_nat 34) EmptyString.
Definition storedPayload : string :=
  "{" +:+ quote +:+ "commits" +:+ quote +:+ ":[" +:+ quote +:+ "c1" +:+ quote +:+ "]}".

(** A runtime that parses the three texts the examples need. *)
Definition sampleRuntime : Runtime :=
  mkRuntime
    (fun s => if String.eqb s "{}" then Some (JObj [])
              else if String.eqb s "null" then Some JNull
              else if String.eqb s storedPayload
                   then Some (JObj [("commits", JArr [JStr "c1"])])
              else None)
    (fun _ _ => false).

(** An overview comment that records the commit [c1]. *)
Definition storedBody : string :=
  "Overview" +:+ Messages.OVERVIEW_MESSAGE_SIGNATURE +:+ Messages.PAYLOAD_TAG_OPEN
  +:+ storedPayload +:+ Messages.PAYLOAD_TAG_CLOSE.

(** An overview comment whose closing marker comes first. *)
Definition misorderedBody : string :=
  "Overview" +:+ Messages.PAYLOAD_TAG_CLOSE +:+ Messages.PAYLOAD_TAG_OPEN.

(** An overview comment whose payload is the text [null]. *)
Definition nullBody : string :=
  "Overview" +:+ Messages.PAYLOAD_TAG_OPEN +:+ "null" +:+ Messages.PAYLOAD_TAG_CLOSE.

(** An overview comment whose payload is cut short. *)
Definition brokenBody : string :=
  "Overview" +:+ Messages.PAYLOAD_TAG_OPEN +:+ "{commits:[c1" +:+ Messages.PAYLOAD_TAG_CLOSE.

(** A file renamed from [old.ts] to [new.ts]. *)
Definition renamedFile : FileDiff := mkFileDiff "new.ts" (Some "old.ts") renamed [].

(** The same file, as the host lists it. *)
Definition renamedRawFile : File := mkFile "new.ts" (Some "old.ts") renamed None.

Definition rootComment (path : string) : ReviewComment :=
  mkReviewComment path (buildComment defaultConfig "Earlier remark.")
                  (Some 12) None 7 (Some 10) "presubmit".

(** A thread of the bot rooted on the old name, at the lines 10 to 12, and
    one rooted on the new name. *)
Definition oldThread : ReviewCommentThread := mkThread "old.ts" [rootComment "old.ts"].
Definition newThread : ReviewCommentThread := mkThread "new.ts" [rootComment "new.ts"].

Definition findingOn (path : string) : AIComment :=
  mkAIComment path (Some 10) (Some 12) EmptyString "Bug" "Off by one." "bug" false.

Definition noFaults : Faults :=
  mkFaults (fun _ _ => false) (fun _ _ => false) (fun _ => false) (fun _ _ => false).

Definition emptyHost : Host := mkHost [] 1 [].

(** Two file-level findings on one file under one header, with different
    contents. *)
Definition noteOne : AIComment :=
  mkAIComment "a.ts" None None EmptyString "H" "C" "style" false.
Definition noteTwo : AIComment :=
  mkAIComment "a.ts" None None EmptyString "H" "Something else." "style" false.

Definition noteFiles : list FileDiff := [mkFileDiff "a.ts" None modified []].

(** The file of the test patch, parsed, as the test of
    [src/__tests__/diff.test.ts] expects it: one hunk that holds the patch,
    with [startLine] 1 and [endLine] 8. *)
Definition parsedFiles : list FileDiff :=
  [mkFileDiff "src/test.ts" None modified [mkHunk 1 8 testPatch []]].

(** A finding on a line outside the hunk, without highlighted code, and one
    on a line of the hunk. *)
Definition strayFinding : AIComment :=
  mkAIComment "src/test.ts" None (Some 50) EmptyString "Bug" "Off by one." "bug" false.
Definition hunkFinding : AIComment :=
  mkAIComment "src/test.ts" None (Some 4) EmptyString "Bug" "Off by one." "bug" false.

(** A host that rejects every review and every comment posted alone. *)
Definition inlineRejected : Faults :=
  mkFaults (fun _ _ => false) (fun _ _ => false) (fun _ => true) (fun _ _ => true).

Definition noThreads : gmap string ReviewCommentThread := threadsIndex [].

Definition strayBatch : list ReviewCommentData :=
  [commentData defaultConfig parsedFiles strayFinding].
Definition hunkBatch : list ReviewCommentData :=
  [commentData defaultConfig parsedFiles hunkFinding].

Definition twoCommits : list Commit := [mkCommit "c1" "first"; mkCommit "c2" "second"].

(** A flow stored below a global value set directory. *)
Definition overlapFile : FileDiff :=
  plainFile "force-app/main/default/globalValueSets/flows/Picker.flow-meta.xml".

Definition apexFile : FileDiff := plainFile "force-app/main/default/classes/MyClass.cls".

(** A long remark on style: not critical, no high-value label. *)
Definition styleRemark : AIComment :=
  mkAIComment "src/a.ts" (Some 3) (Some 4) EmptyString "Naming"
    "Consider renaming this variable so that it says what it holds."
    "style" false.

(** A critical one-word typo. *)
Definition criticalTypo : AIComment :=
  mkAIComment "src/a.ts" (Some 3) (Some 4) EmptyString "Typo" "teh" "typo" true.

Definition bugFinding (n : Z) : AIComment :=
  mkAIComment "src/a.ts" (Some n) (Some n) EmptyString "Bug" "Off by one." "bug" false.

(** 55 findings that qualify, on the lines 1 to 55. *)
Definition manyFindings : list AIComment :=
  map (fun k => bugFinding (Z.of_nat k)) (seq 1 55).

End Samples.

(* ===================================================================== *)
(** ** Further parts of the sources                                        *)
(* ===================================================================== *)

(** *** Fenced code blocks of a comment *)

Module Blocks.

Import Comments.

(** The lengths of the fenced code blocks of a list of lines, in order: the
    lines between an opening fence line and the next fence line, or the end
    of the text.  [open] is the number of lines of the block being read. *)
Fixpoint blockLengths (open : option Z) (lines : list string) : list Z :=
  match lines with
  | [] => match open with Some n => [n] | None => [] end
  | ln :: rest =>
      if JS.startsWith ln "```" then
        match open with
        | Some n => n :: blockLengths None rest
        | None => blockLengths (Some 0) rest
        end
      else
        match open with
        | Some n => blockLengths (Some (n + 1)) rest
        | None => blockLengths None rest
        end
  end.

(** The lengths of the fenced code blocks of a text. *)
Definition codeBlocks (text : string) : list Z :=
  blockLengths None (JS.splitLines text).

(** The lines one turn of the loop appends to the output. *)
Definition emitted (m : Z) (st : TruncState) (ln : string) : list string :=
  if JS.startsWith ln "```" then [ln]
  else if inFence st then
    if codeLines st + 1 <=? m then [ln]
    else if codeLines st + 1 =? m + 1 then [TRUNCATED_MARK] else []
  else [ln].

(** The output of the loop over [lines], from a state on. *)
Fixpoint emittedAll (m : Z) (st : TruncState) (lines : list string) : list string :=
  match lines with
  | [] => []
  | ln :: rest => emitted m st ln ++ emittedAll m (truncStep m st ln) rest
  end.

(** The second pass over the output of a first pass: it is in a fence when
    the first pass is, and it has counted the lines the first pass wrote. *)
Definition follows (m : Z) (st1 st2 : TruncState) : Prop :=
  inFence st2 = inFence st1
  /\ (inFence st1 = true ->
      0 <= codeLines st1 /\ codeLines st2 = Z.min (codeLines st1) (Z.max (m + 1) 0)).

(** The block the second reading is in, against the state of the loop. *)
Definition reads (m : Z) (st : TruncState) (open : option Z) : Prop :=
  match open with
  | Some n => inFence st = true /\ 0 <= codeLines st
              /\ n = Z.min (codeLines st) (Z.max (m + 1) 0)
  | None => inFence st = false
  end.

End Blocks.

(** *** src/comments.ts: the threads of a listing *)

Module Threads.

Import Comments.

(** [c.in_reply_to_id] is set (and not 0): the comment is a reply. *)
Definition isReply (c : ReviewComment) : bool := JS.truthyNum (in_reply_to_id c).

(** [hasAnchor] (line 101): [line] or [start_line] is a number. *)
Definition hasAnchor (c : ReviewComment) : bool :=
  bool_decide (is_Some (line c)) || bool_decide (is_Some (start_line c)).

(** A comment that opens a thread (lines 95-104): not a reply, with a body
    and an anchor. *)
Definition isTopLevel (c : ReviewComment) : bool :=
  negb (isReply c) && (0 <? JS.strlen (body c)) && hasAnchor c.

(** One turn of the loop of [generateCommentThreads] (lines 94-105): the
    pair is [(repliesByParent, topLevelComments)]. *)
Definition threadStep (st : gmap Z (list ReviewComment) * list ReviewComment)
    (c : ReviewComment) : gmap Z (list ReviewComment) * list ReviewComment :=
  let '(repliesByParent, topLevelComments) := st in
  if isReply c then
    let parent := default 0 (in_reply_to_id c) in
    let sofar := default [] (repliesByParent !! parent) in
    (<[parent := sofar ++ [c]]> repliesByParent, topLevelComments)
  else if (0 <? JS.strlen (body c)) && hasAnchor c
  then (repliesByParent, topLevelComments ++ [c])
  else st.

(** [generateCommentThreads] (lines 87-111). *)
Definition generateCommentThreads (reviewComments : list ReviewComment)
    : list ReviewCommentThread :=
  let '(repliesByParent, topLevelComments) :=
    fold_left threadStep reviewComments (∅, []) in
  map (fun top => mkThread (path top)
                    (top :: default [] (repliesByParent !! id top)))
      topLevelComments.

(** The replies to the comment [parent], in the order of the listing. *)
Definition repliesTo (parent : Z) (cs : list ReviewComment) : list ReviewComment :=
  filter (fun c => isReply c && bool_decide (in_reply_to_id c = Some parent) = true) cs.

(** [is_own], the field the listing adds to a comment (lines 51-54). *)
Definition is_own (c : ReviewComment) : bool := isOwnComment (body c).

(** [getCommentThread] (lines 59-76), on the threads of the listing. *)
Definition getCommentThread (threads : list ReviewCommentThread) (comment_id : Z)
    : option ReviewCommentThread :=
  List.find (fun t => existsb (fun c => id c =? comment_id) (comments t)) threads.

End Threads.

(** *** Listings read page by page *)

Module Paging.

Import Diff PullRequest.

(** The loop that reads a listing page by page, as [fetchAllPullRequestFiles]
    (lines 909-929 of [src/pull_request.ts]) has it, and with it the loops
    over the commits (lines 47-60), over the issue comments (lines 64-77)
    and over the review comments (lines 41-49 of [src/comments.ts]): the
    page is appended to [all], and a page shorter than [per_page] ends the
    loop.  [listPage page] is the answer of the host; [fuel] bounds the number
    of requests, and the loop answers with the items and the number of the
    last page it asked for. *)
Fixpoint fetchPagesGo {A} (listPage : Z -> list A) (fuel : nat) (page : Z)
    (all : list A) : option (list A * Z) :=
  match fuel with
  | O => None
  | S fuel' =>
      let data := listPage page in
      let all' := all ++ data in
      if (length data <? PER_PAGE)%nat then Some (all', page)
      else fetchPagesGo listPage fuel' (page + 1) all'
  end.

(** [fetchAllPullRequestFiles] (lines 909-929). *)
Definition fetchAllPullRequestFiles (listFiles : Z -> list File) (fuel : nat)
    : option (list File * Z) :=
  fetchPagesGo listFiles fuel 1 [].

(** A host that serves the pages of a listing that does not change while
    it is read: page [k] holds the items [100 (k - 1)] to [100 k - 1]. *)
Definition servePage {A} (items : list A) (page : Z) : list A :=
  take PER_PAGE (drop (PER_PAGE * Z.to_nat (page - 1)) items).

End Paging.

(** *** Replies to the threads of earlier runs *)

Module Replies.

Import Diff Prompts Comments PullRequest.

(** The request for one reply candidate (lines 752-765): a reply under the
    root of the thread it continues, or, were there no such thread, the
    request of [submitInlineComment]. *)
Definition replyRequest (cfg : Config) (files : list FileDiff)
    (idx : gmap string ReviewCommentThread) (c : AIComment) : Result InlineRequest :=
  let targetPath := resolveReviewPath files (Prompts.file c) in
  match findExistingThread idx targetPath (end_line c) (Prompts.start_line c) with
  | Some t =>
      match comments t with
      | top :: _ => Ok (ReplyTo (id top) (buildComment cfg (content c)))
      | [] => Throw "TypeError: Cannot read properties of undefined"
      end
  | None =>
      submitInlineComment cfg files idx targetPath (end_line c) (content c)
                          (Prompts.start_line c)
  end.

(** One reply, with its three attempts (lines 755-764); it answers with the
    request the host accepted. *)
Definition postReply (cfg : Config) (ft : Faults) (files : list FileDiff)
    (idx : gmap string ReviewCommentThread) (c : AIComment) : Result InlineRequest :=
  withRetries
    (fun i =>
       rbind (replyRequest cfg files idx c)
             (fun req => if inlineFails ft i req then Throw "rejected by the host"
                         else Ok req))
    3.

(** The loop over the reply candidates (lines 750-769): the requests the
    host accepted, in order.  The loop lies inside one [try] block, so the
    first reply whose attempts all fail ends it. *)
Fixpoint postReplies (cfg : Config) (ft : Faults) (files : list FileDiff)
    (idx : gmap string ReviewCommentThread) (cs : list AIComment)
    : list InlineRequest :=
  match cs with
  | [] => []
  | c :: rest =>
      match postReply cfg ft files idx c with
      | Ok req => req :: postReplies cfg ft files idx rest
      | Throw _ => []
      end
  end.

(** The reply a candidate stands for: under the root of its thread, with
    the body [buildComment] gives its content. *)
Definition replyOf (cfg : Config) (files : list FileDiff)
    (idx : gmap string ReviewCommentThread) (c : AIComment) : option InlineRequest :=
  (fun root => ReplyTo root (buildComment cfg (content c))) <$> replyTarget files idx c.

(** The host accepts one of the three attempts of a request. *)
Definition accepted (ft : Faults) (req : InlineRequest) : bool :=
  negb (inlineFails ft 0 req) || negb (inlineFails ft 1 req)
  || negb (inlineFails ft 2 req).

End Replies.

(** *** The hash of a key, read on the integers *)

Module Hash.

Import PullRequest.

(** The hash of [hashString] computed on the integers, without the
    conversion to 32 bits that [^] applies in every turn of the loop. *)
Fixpoint hashUnbounded (input : string) (h : Z) : Z :=
  match input with
  | EmptyString => h
  | String c rest => hashUnbounded rest (Z.lxor (h * 33) (JS.code c))
  end.

(** The value of a hexadecimal digit, [0-9a-f]. *)
Definition hexValue (c : ascii) : Z :=
  if JS.code c <=? 57 then JS.code c - 48 else JS.code c - 87.

(** The number a string of hexadecimal digits writes, after [v]. *)
Fixpoint fromHexGo (s : string) (v : Z) : Z :=
  match s with
  | EmptyString => v
  | String c rest => fromHexGo rest (16 * v + hexValue c)
  end.

Definition fromHex (s : string) : Z := fromHexGo s 0.

(** The text of [makeStableKey] after the line: the first 80 characters of
    the header or, when it is empty, of the first line of the content
    (line 573). *)
Definition keyText (header content : string) : string :=
  JS.slice (if JS.truthyStr header then header else firstLineOf content) 0 80.

End Hash.

(** *** The hunk of an excerpt *)

Module Excerpt.

Import Diff PullRequest.

(** A row of a hunk that stands for a line of the new file: not empty, not
    a hunk header and not a removed line (lines 496-506). *)
Definition isNewFileRow (r : string) : bool :=
  JS.truthyStr r && negb (JS.startsWith r "@@") && negb (JS.startsWith r "-").

(** The hunk [getUnifiedExcerpt] takes the excerpt from (lines 486-491). *)
Definition excerptHunk (files : list FileDiff) (path : string) (ln : Z)
    : option Hunk :=
  match List.find (fun f => String.eqb (filename f) path) files with
  | Some f => List.find (fun h => (ln >=? startLine h) && (ln <=? endLine h)) (hunks f)
  | None =>
      match List.find (fun f => bool_decide (previous_filename f = Some path)) files with
      | Some f => List.find (fun h => (ln >=? startLine h) && (ln <=? endLine h)) (hunks f)
      | None => None
      end
  end.

End Excerpt.

(** *** Salesforce files: the prompt and the ignore phrases *)

Module Salesforce.

Import Diff PullRequest.

(** [isSalesforceFile] (lines 931-951 of [src/pull_request.ts]). *)
Definition isSalesforceFile (filename : string) : bool :=
  let lower := JS.toLowerCase filename in
  let extHits :=
    existsb (JS.endsWith lower)
      [".cls"; ".trigger"; ".apex"; ".tst"; ".page"; ".cmp"; ".component";
       ".resource"; "-meta.xml"] in
  let pathHits := JS.includes lower "/lwc/" || JS.includes lower "/aura/" in
  let lwcFiles :=
    existsb (JS.endsWith lower) [".js"; ".ts"; ".html"; ".css"; ".xml"] in
  extHits || (pathHits && lwcFiles).

(** [(mode || "auto").toLowerCase()] (line 954). *)
Definition modeOf (mode : option string) : string :=
  JS.toLowerCase (match mode with
                  | Some m => if JS.truthyStr m then m else "auto"
                  | None => "auto"
                  end).

(** [shouldUseSalesforce] (lines 953-958). *)
Definition shouldUseSalesforce (files : list FileDiff) (mode : option string) : bool :=
  let m := modeOf mode in
  if String.eqb m "on" then true
  else if String.eqb m "off" then false
  else existsb (fun f => isSalesforceFile (filename f)) files.

(** The phrases of [shouldIgnorePullRequest] (lines 962-971). *)
Definition ignorePhrases : list string :=
  ["@presubmit ignore"; "@presubmit: ignore"; "@presubmit skip"; "@presubmit: skip";
   "@presubmitai ignore"; "@presubmitai: ignore"; "@presubmitai skip";
   "@presubmitai: skip"].

(** [shouldIgnorePullRequest] (lines 961-982); [body] is the description of
    the pull request, if it has one. *)
Definition shouldIgnorePullRequest (body : option string) : bool :=
  let bodyLower := JS.toLowerCase (nullish body EmptyString) in
  existsb (fun phrase => JS.includes bodyLower (JS.toLowerCase phrase)) ignorePhrases.

(** A line terminator, which [.] does not match, among the code units
    below 256. *)
Definition isLineTerminator (c : ascii) : bool :=
  (JS.code c =? 10) || (JS.code c =? 13).

Fixpoint lacksLineTerminator (s : string) : bool :=
  match s with
  | EmptyString => true
  | String c rest => negb (isLineTerminator c) && lacksLineTerminator rest
  end.

(** [.*\.xml$] at the head of [rest]. *)
Definition restIsXml (rest : string) : bool :=
  JS.endsWith rest ".xml" && lacksLineTerminator rest.

(** [/(profile|permissionset).*\.xml$/.test(n)] (line 25 of
    [src/prompts.salesforce.ts]). *)
Fixpoint profileOrPermissionSetXml (n : string) : bool :=
  (JS.startsWith n "profile" && restIsXml (JS.dropStr 7 n))
  || (JS.startsWith n "permissionset" && restIsXml (JS.dropStr 13 n))
  || match n with
     | EmptyString => false
     | String _ rest => profileOrPermissionSetXml rest
     end.

(** [isMetadataFileName] (lines 17-28 of [src/prompts.salesforce.ts]). *)
Definition isMetadataFileName (name : string) : bool :=
  let n := JS.toLowerCase name in
  (JS.includes n "/objects/" && JS.endsWith n ".object-meta.xml")
  || (JS.includes n "/objects/" && JS.includes n "/fields/"
      && JS.endsWith n ".field-meta.xml")
  || (JS.includes n "/flows/" && JS.endsWith n ".flow-meta.xml")
  || (JS.includes n "/validationrules/" && JS.endsWith n ".validationrule-meta.xml")
  || (JS.includes n "/duplicaterules/" && JS.endsWith n ".duplicaterule-meta.xml")
  || profileOrPermissionSetXml n
  || (JS.includes n "/globalvaluesets/" && JS.endsWith n ".globalvalueset-meta.xml").

(** [isFlowFileName] (lines 30-34). *)
Definition isFlowFileName (name : option string) : bool :=
  match name with
  | None => false
  | Some s =>
      if negb (JS.truthyStr s) then false
      else
        let n := JS.toLowerCase s in
        JS.includes n "/flows/" && JS.endsWith n ".flow-meta.xml"
  end.

(** [isFieldOrObjectFileName] (lines 36-42). *)
Definition isFieldOrObjectFileName (name : option string) : bool :=
  match name with
  | None => false
  | Some s =>
      if negb (JS.truthyStr s) then false
      else
        let n := JS.toLowerCase s in
        (JS.includes n "/objects/"
         && (JS.endsWith n ".object-meta.xml" || JS.includes n "/fields/"))
        || (JS.includes n "/globalvaluesets/" && JS.endsWith n ".globalvalueset-meta.xml")
  end.

(** The three tests [runReviewPrompt] makes on the files of a batch
    (lines 51-53): they decide which rules the system prompt carries. *)
Definition hasMetadata (files : list FileDiff) : bool :=
  existsb (fun f => isMetadataFileName (filename f)) files.
Definition hasFlows (files : list FileDiff) : bool :=
  existsb (fun f => isFlowFileName (Some (filename f))) files.
Definition hasFieldsOrObjects (files : list FileDiff) : bool :=
  existsb (fun f => isFieldOrObjectFileName (Some (filename f))) files.

End Salesforce.

(** *** src/config.ts: the caps and the scopes, as the environment gives them *)

Module ConfigEnv.

Import PullRequest.

(** [s.split(sep)] for a separator of one character: never empty. *)
Fixpoint splitOn (sep : ascii) (s : string) : list string :=
  match s with
  | EmptyString => [EmptyString]
  | String c s' =>
      if decide (c = sep) then EmptyString :: splitOn sep s'
      else match splitOn sep s' with
           | l :: ls => String c l :: ls
           | [] => [String c EmptyString]
           end
  end.

(** The value of a character as a digit: [0-9], then [a-z] or [A-Z] from
    10 on. *)
Definition digitValue (c : ascii) : option Z :=
  let n := JS.code c in
  if (48 <=? n) && (n <=? 57) then Some (n - 48)
  else if (97 <=? n) && (n <=? 122) then Some (n - 87)
  else if (65 <=? n) && (n <=? 90) then Some (n - 55)
  else None.

(** The digits of radix [radix] at the head of [s]: their value after
    [acc], and how many were read. *)
Fixpoint parseDigits (radix : Z) (s : string) (acc : Z) (count : nat) : Z * nat :=
  match s with
  | EmptyString => (acc, count)
  | String c rest =>
      match digitValue c with
      | Some d => if d <? radix then parseDigits radix rest (radix * acc + d) (S count)
                  else (acc, count)
      | None => (acc, count)
      end
  end.

(** [parseInt(s, radix)]; [None] is [NaN].  The number is the exact value
    of the digits, as JavaScript has it below [2 ^ 53]. *)
Definition parseInt (s : string) (radix : Z) : option Z :=
  let s1 := JS.trimStart s in
  let '(sign, s2) :=
    match s1 with
    | String "-" r => (-1, r)
    | String "+" r => (1, r)
    | _ => (1, s1)
    end in
  if negb (radix =? 0) && ((radix <? 2) || (36 <? radix)) then None
  else
    let r := if radix =? 0 then 10 else radix in
    let strip := (radix =? 0) || (radix =? 16) in
    let hex := strip && (JS.startsWith s2 "0x" || JS.startsWith s2 "0X") in
    let s3 := if hex then JS.dropStr 2 s2 else s2 in
    match parseDigits (if hex then 16 else r) s3 0 O with
    | (_, O) => None
    | (v, S _) => Some (sign * v)
    end.

(** [process.env.X || getInput(name)]: the variable when it is set and not
    empty, the input of the action otherwise (an input that is not given
    is the empty string). *)
Definition envOr (env : option string) (input : string) : string :=
  match env with
  | Some s => if JS.truthyStr s then s else input
  | None => input
  end.

(** A cap of the reviewer (lines 72-82 of [src/config.ts]): the text is
    parsed in the radix the line names, and a result that is no number, or
    not above 0, gives the default. *)
Definition capOf (radix default : Z) (env : option string) (input : string) : Z :=
  let text := envOr env input in
  let parsed := if JS.truthyStr text then parseInt text radix else None in
  match parsed with
  | Some v => if 0 <? v then v else default
  | None => default
  end.

(** [maxComments] (lines 72-74), [maxCodeblockLines] (lines 76-78) and
    [maxReviewChars] (lines 80-82). *)
Definition maxCommentsOf : option string -> string -> Z := capOf 20 40.
Definition maxCodeblockLinesOf : option string -> string -> Z := capOf 10 60.
Definition maxReviewCharsOf : option string -> string -> Z := capOf 10 725000.

(** [reviewScopes] (lines 61-65). *)
Definition reviewScopesOf (env : option string) (input : string) : list string :=
  let given := envOr env input in
  let scopesRaw := if JS.truthyStr given then given else "data-model,flows,apex" in
  filter (fun s => JS.truthyStr s = true)
         (map (fun s => JS.toLowerCase (JS.trim s)) (splitOn "," scopesRaw)).

(** The scopes of a run (lines 294-296 of [src/pull_request.ts]): those of
    the configuration, or the three default ones when it names none. *)
Definition scopesUsed (cfg : Config) : list string :=
  match reviewScopes cfg with
  | Some (s :: rest) => s :: rest
  | _ => DEFAULT_SCOPES
  end.

(** The text of a list of decimal digits, and its value in a radix. *)
Definition digitChar (d : Z) : ascii := ascii_of_N (Z.to_N (48 + d)).

Fixpoint digitsText (ds : list Z) : string :=
  match ds with
  | [] => EmptyString
  | d :: rest => String (digitChar d) (digitsText rest)
  end.

Definition valueIn (radix : Z) (ds : list Z) : Z :=
  fold_left (fun acc d => radix * acc + d) ds 0.

End ConfigEnv.

(** *** Strings in normal form *)

Module Normal.

(** A string that does not start with white space. *)
Definition headNotWhite (s : string) : bool :=
  match s with
  | EmptyString => true
  | String c _ => negb (JS.isWhite c)
  end.

End Normal.

(** *** src/messages.ts: the loading message and the overview payload *)

Module Overview.

Import Diff PullRequest.

(** [context.repo] and the address of the server ([config.githubServerUrl]). *)
Record Repo := mkRepo {
  owner : string;
  repo : string;
  githubServerUrl : string;
}.

(** [getCommitUrl] (lines 16-25 of [src/messages.ts]). *)
Definition getCommitUrl (serverUrl owner repo sha : string) : string :=
  let baseUrl :=
    if JS.endsWith serverUrl "/" then JS.slice serverUrl 0 (-1) else serverUrl in
  baseUrl +:+ "/" +:+ owner +:+ "/" +:+ repo +:+ "/commit/" +:+ sha.

(** The arrays of commits of a run, by address: two variables of the
    handler can hold one array. *)
Definition Heap : Type := list (list Commit).

Definition alloc (h : Heap) (arr : list Commit) : Heap * nat :=
  (h ++ [arr], length h).

Definition deref (h : Heap) (r : nat) : list Commit := default [] (h !! r).

(** [arr.reverse()]: the array is reversed where it is. *)
Definition reverseInPlace (h : Heap) (r : nat) : Heap := <[r := rev (deref h r)]> h.

(** The sign of a file in the loading message (lines 65-68). *)
Definition statusPrefix (s : Status) : string :=
  match s with
  | added => "➕"
  | removed => "➖"
  | renamed => "📝"
  | modified => "🔄"
  end.

(** The line of a file in the loading message (lines 70-77). *)
Definition fileLine (d : FileDiff) : string :=
  let fileText := statusPrefix (status d) +:+ " " +:+ filename d in
  let fileText :=
    if bool_decide (status d = renamed)
    then fileText +:+ " (from " +:+ showOptStr (previous_filename d) +:+ ")"
    else fileText in
  fileText +:+ " _(" +:+ pretty (Z.of_nat (length (hunks d))) +:+ " "
  +:+ (if (length (hunks d) =? 1)%nat then "hunk" else "hunks") +:+ ")_"
  +:+ Messages.nl.

(** The line of a commit in the loading message (lines 53-58). *)
Definition commitLine (rp : Repo) (c : Commit) : string :=
  "- [" +:+ JS.slice (sha c) 0 7 +:+ "]("
  +:+ getCommitUrl (githubServerUrl rp) (owner rp) (repo rp) (sha c)
  +:+ "): " +:+ message c +:+ Messages.nl.

(** [buildLoadingMessage(baseCommit, commits, fileDiffs)] (lines 27-85 of
    [src/messages.ts]).  [commits] is the address of the array: the loop
    over [commits.reverse()] leaves it reversed.  Reading the last commit of
    an empty array throws. *)
Definition buildLoadingMessage (rp : Repo) (h : Heap) (baseCommit : string)
    (commits : nat) (fileDiffs : list FileDiff) : Result (Heap * string) :=
  match last (deref h commits) with
  | None => Throw "TypeError: Cannot read properties of undefined"
  | Some latest =>
      let message :=
        "⏳ **Analyzing changes in this PR...** ⏳" +:+ Messages.nl +:+ Messages.nl
        +:+ "_This might take a few minutes, please wait_"
        +:+ Messages.nl +:+ Messages.nl
        +:+ "<details>" +:+ Messages.nl +:+ "<summary>📥 Commits</summary>"
        +:+ Messages.nl +:+ Messages.nl
        +:+ "Analyzing changes from base (`" +:+ JS.slice baseCommit 0 7
        +:+ "`) to latest commit (`" +:+ JS.slice (sha latest) 0 7 +:+ "`):"
        +:+ Messages.nl in
      let h' := reverseInPlace h commits in
      let message :=
        fold_left (fun m c => m +:+ commitLine rp c) (deref h' commits) message in
      let message :=
        message +:+ Messages.nl +:+ Messages.nl +:+ "</details>"
        +:+ Messages.nl +:+ Messages.nl
        +:+ "<details>" +:+ Messages.nl +:+ "<summary>📁 Files being considered ("
        +:+ pretty (Z.of_nat (length fileDiffs)) +:+ ")</summary>"
        +:+ Messages.nl +:+ Messages.nl in
      let message := fold_left (fun m d => m +:+ fileLine d) fileDiffs message in
      let message :=
        message +:+ Messages.nl +:+ "</details>" +:+ Messages.nl +:+ Messages.nl in
      Ok (h', message +:+ Messages.OVERVIEW_MESSAGE_SIGNATURE)
  end.

(** [commitSubjects] (lines 217-219 of [src/pull_request.ts]): the first
    lines of the messages of the last 100 commits. *)
Definition commitSubjects (commits : list Commit) : list string :=
  JS.sliceFrom
    (map (fun c => match JS.splitLines (message c) with
                   | l :: _ => l
                   | [] => EmptyString
                   end) commits)
    (-100).

(** What a run makes known before the review starts. *)
Record Announced := mkAnnounced {
  loadingBody : string;
  recordedCommits : list string;
  subjects : list string;
  commitsHandedOn : list Commit;
}.

(** The way of the commits through [handlePullRequest] (lines 47-60,
    139-142, 180-219 and 250-254): [commits] holds the commits the host
    listed; [commitsToReview] is a new array of those not yet reviewed, or
    [commits] itself when no commit was reviewed before; a run without a
    commit to review ends here; otherwise the loading message is built from
    [commitsToReview], and then the subjects and the commits the overview
    records are read from [commits], and [commitsToReview] goes on to
    [submitReview]. *)
Definition announce (rp : Repo) (commitsReviewed : list JValue)
    (baseCommit : string) (listed : list Commit) (filesToReview : list FileDiff)
    : Result (option Announced) :=
  let '(h0, commits) := alloc [] listed in
  let '(h1, commitsToReview) :=
    if nonEmpty commitsReviewed
    then alloc h0 (filter (fun c => includesSha commitsReviewed (sha c) = false)
                          (deref h0 commits))
    else (h0, commits) in
  if (length (deref h1 commitsToReview) =? 0)%nat then Ok None
  else
    rbind (buildLoadingMessage rp h1 baseCommit commitsToReview filesToReview)
          (fun '(h2, body) =>
             Ok (Some (mkAnnounced body
                         (map sha (deref h2 commits))
                         (commitSubjects (deref h2 commits))
                         (deref h2 commitsToReview)))).

(** The quotation mark and the backslash. *)
Definition dquote : string := String (ascii_of_nat 34) EmptyString.
Definition backslash : string := String (ascii_of_nat 92) EmptyString.

(** A character inside a string of [JSON.stringify]. *)
Definition jsonEscape (c : ascii) : string :=
  let n := JS.code c in
  if n =? 34 then backslash +:+ dquote
  else if n =? 92 then backslash +:+ backslash
  else if n =? 8 then backslash +:+ "b"
  else if n =? 12 then backslash +:+ "f"
  else if n =? 10 then backslash +:+ "n"
  else if n =? 13 then backslash +:+ "r"
  else if n =? 9 then backslash +:+ "t"
  else if n <? 32
       then backslash +:+ "u00" +:+ String (hexDigit (n / 16)) (String (hexDigit (n mod 16)) EmptyString)
  else String c EmptyString.

Fixpoint jsonChars (s : string) : string :=
  match s with
  | EmptyString => EmptyString
  | String c rest => jsonEscape c +:+ jsonChars rest
  end.

(** [JSON.stringify(s)] for a string. *)
Definition jsonString (s : string) : string := dquote +:+ jsonChars s +:+ dquote.

(** [arr.join(",")] *)
Fixpoint joinComma (l : list string) : string :=
  match l with
  | [] => EmptyString
  | [x] => x
  | x :: rest => x +:+ "," +:+ joinComma rest
  end.

(** [JSON.stringify({ commits: commits })] for an array of strings
    (lines 205 and 209 of [src/messages.ts]). *)
Definition stringifyPayload (commits : list string) : string :=
  "{" +:+ dquote +:+ "commits" +:+ dquote +:+ ":[" +:+ joinComma (map jsonString commits)
  +:+ "]}".

(** The end of [buildOverviewMessage] (lines 205-212 of [src/messages.ts]):
    the signature and the payload appended to [message], the text that
    lines 94-203 build for the reader. *)
Definition overviewWithPayload (message : string) (commits : list string) : string :=
  message +:+ Messages.OVERVIEW_MESSAGE_SIGNATURE +:+ Messages.PAYLOAD_TAG_OPEN
  +:+ stringifyPayload commits +:+ Messages.PAYLOAD_TAG_CLOSE.

End Overview.

(** *** Further concrete inputs *)

Module Examples.

Import Diff Prompts Comments PullRequest Overview.

(** A comment with a fenced code block of one line. *)
Definition shortFenced : string :=
  "See:" +:+ Messages.nl +:+ "```" +:+ Messages.nl +:+ "x = 1" +:+ Messages.nl +:+ "```".

(** A listing of 100 files: it fills one page. *)
Definition hundredFiles : list File := replicate 100 Samples.mockFile.

Definition sampleRepo : Repo := mkRepo "acme" "shop" "https://github.com/".

(** Two commits, in the order the host lists them: the older one first. *)
Definition firstCommit : Commit := mkCommit "c1" "Add the shop".
Definition secondCommit : Commit := mkCommit "c2" "Fix the till".

(** What the first review of the two commits makes known. *)
Definition firstAnnounced : Announced :=
  match announce sampleRepo [] "base" [firstCommit; secondCommit] [] with
  | Ok (Some a) => a
  | _ => mkAnnounced EmptyString [] [] []
  end.

(** A runtime that parses the payload of that review. *)
Definition rerunRuntime : Runtime :=
  mkRuntime
    (fun s => if String.eqb s (stringifyPayload ["c2"; "c1"])
              then Some (JObj [("commits", JArr [JStr "c2"; JStr "c1"])])
              else None)
    (fun _ _ => false).

End Examples.

(** *** The fallback of a rejected comment: its code block and its text *)

Module FallbackText.

Import Diff Prompts Comments PullRequest Excerpt.

(** The rows of a hunk that stand for lines of the new file. *)
Definition newFileRows (h : Hunk) : list string :=
  filter (fun r => isNewFileRow r = true) (JS.splitLines (diff h)).

(** The line has a row in the hunk [getUnifiedExcerpt] reads: the first
    hunk that covers the line, in the file found under the path, has a row
    of the new file for it, counted from the start line of the hunk.  The
    range of a hunk may hold lines without a row. *)
Definition lineHasRow (files : list FileDiff) (path : string) (line : option Z)
    : bool :=
  match line with
  | Some ln =>
      match excerptHunk files path ln with
      | Some h => ln <? startLine h + Z.of_nat (length (newFileRows h))
      | None => false
      end
  | None => false
  end.

(** The finding a comment of the batch came from has highlighted code that
    is not blank (line 855). *)
Definition hasHighlightedCode (lineComments : list AIComment)
    (cm : ReviewCommentData) : bool :=
  match originOf lineComments cm with
  | Some o => JS.truthyStr (highlighted_code o) && nonBlank (highlighted_code o)
  | None => false
  end.

(** The fallback of a comment has a code block. *)
Definition codeShown (files : list FileDiff) (lineComments : list AIComment)
    (cm : ReviewCommentData) : bool :=
  hasHighlightedCode lineComments cm
  || lineHasRow files (resolveReviewPath files (rc_path cm)) (rc_line cm).

(** The text the fallback hands to the host for a comment (line 869). *)
Definition fallbackPosted (cfg : Config) (files : list FileDiff)
    (lineComments : list AIComment) (cm : ReviewCommentData) : string :=
  buildComment cfg (fallbackText files lineComments cm).

(** The text of the fallback above its context line: the signature and the
    body of the comment. *)
Definition aboveContext (files : list FileDiff) (lineComments : list AIComment)
    (cm : ReviewCommentData) : string :=
  fallbackSignature files lineComments cm +:+ Messages.nl +:+ rc_body cm.

(** A line that opens or closes a fenced code block, and a text whose
    blocks are all closed: it has an even number of such lines. *)
Definition isFenceLine (ln : string) : bool := JS.startsWith ln "```".

Definition fencesClosed (text : string) : bool :=
  Nat.even (length (filter (fun ln => isFenceLine ln = true) (JS.splitLines text))).

(** Whether the attempts of a comment posted alone all fail: its request
    cannot be built, or the host rejects it three times. *)
Definition stillFails (cfg : Config) (ft : Faults) (files : list FileDiff)
    (idx : gmap string ReviewCommentThread) (cm : ReviewCommentData) : bool :=
  match submitInlineComment cfg files idx (rc_path cm) (rc_line cm) (rc_body cm)
                            (rc_start_line cm) with
  | Ok req => inlineFails ft 0 req && inlineFails ft 1 req && inlineFails ft 2 req
  | Throw _ => true
  end.

End FallbackText.

(** *** Further comments of a rejected batch *)

Module FallbackSamples.

Import Diff Prompts Comments PullRequest.

(** [n] lines of code, each after a line break. *)
Fixpoint codeLinesOf (n : nat) : string :=
  match n with
  | O => EmptyString
  | S k => Messages.nl +:+ "x = 1;" +:+ codeLinesOf k
  end.

(** A finding on the line 4 of the test patch whose content opens a code
    block of 60 lines and does not close it. *)
Definition unclosedFinding : AIComment :=
  mkAIComment "src/test.ts" None (Some 4) EmptyString "Bug"
              (fence +:+ codeLinesOf 60) "bug" false.

Definition unclosedBatch : list ReviewCommentData :=
  [commentData Samples.defaultConfig Samples.parsedFiles unclosedFinding].

(** A finding on the line 7, which the hunk of the test patch covers
    (lines 1 to 8) without a row for it: the patch has six lines of the
    new file. *)
Definition rowlessFinding : AIComment :=
  mkAIComment "src/test.ts" None (Some 7) EmptyString "Bug" "Off by one." "bug" false.

Definition rowlessBatch : list ReviewCommentData :=
  [commentData Samples.defaultConfig Samples.parsedFiles rowlessFinding].

End FallbackSamples.

(* ===================================================================== *)
(** * Properties                                                           *)
(* ===================================================================== *)

(** ** Strings *)

Module JSFacts.

Import JS.

Lemma append_cons a s t : String a s +:+ t = String a (s +:+ t).
Proof. reflexivity. Qed.

Lemma append_empty_l s : EmptyString +:+ s = s.
Proof. reflexivity. Qed.

Lemma append_empty_r s : s +:+ EmptyString = s.
Proof. induction s as [|a s IH]; [done|]. by rewrite append_cons, IH. Qed.

Lemma append_assoc s t u : (s +:+ t) +:+ u = s +:+ (t +:+ u).
Proof. induction s as [|a s IH]; [done|]. by rewrite !append_cons, IH. Qed.

Lemma length_append s t :
  String.length (s +:+ t) = (String.length s + String.length t)%nat.
Proof. induction s as [|a s IH]; [done|]. rewrite append_cons. simpl. by rewrite IH. Qed.

Lemma startsWith_append p s : startsWith (p +:+ s) p = true.
Proof.
  induction p as [|a p IH]; [by destruct s|].
  rewrite append_cons. simpl. by rewrite decide_True.
Qed.

Lemma startsWith_spec s p : startsWith s p = true <-> exists r, s = p +:+ r.
Proof.
  split.
  - revert s. induction p as [|a p IH]; intros s H.
    + by exists s.
    + destruct s as [|b s]; [done|]. simpl in H.
      destruct (decide (a = b)) as [->|]; [|done].
      destruct (IH _ H) as [r ->]. by exists r.
  - intros [r ->]. apply startsWith_append.
Qed.

Lemma includes_startsWith s p : startsWith s p = true -> includes s p = true.
Proof. intros H. destruct s; simpl in *; by rewrite H. Qed.

Lemma includes_append_r a s sub : includes s sub = true -> includes (a +:+ s) sub = true.
Proof.
  intros H. induction a as [|c a IH]; [done|].
  rewrite append_cons. simpl. rewrite IH. apply orb_true_r.
Qed.

Lemma includes_middle a sub b : includes (a +:+ sub +:+ b) sub = true.
Proof. apply includes_append_r, includes_startsWith, startsWith_append. Qed.

Lemma includes_suffix a sub : includes (a +:+ sub) sub = true.
Proof. rewrite <- (append_empty_r sub) at 1. apply includes_middle. Qed.

Lemma includes_spec s sub :
  includes s sub = true <-> exists a b, s = a +:+ sub +:+ b.
Proof.
  split.
  - induction s as [|c s IH]; intros H; cbn [includes] in H;
      apply orb_true_iff in H as [H|H]; try done.
    + apply startsWith_spec in H as [r ->]. by exists EmptyString, r.
    + apply startsWith_spec in H as [r ->]. by exists EmptyString, r.
    + destruct (IH H) as (a & b & ->). by exists (String c a), b.
  - intros (a & b & ->). apply includes_middle.
Qed.

Lemma includes_append_l s t sub : includes s sub = true -> includes (s +:+ t) sub = true.
Proof.
  rewrite !includes_spec. intros (a & b & ->). exists a, (b +:+ t).
  by rewrite !append_assoc.
Qed.

Lemma append_inj_r s t u : s +:+ u = t +:+ u -> s = t.
Proof.
  revert t. induction s as [|a s IH]; intros [|b t] E; [done| | |].
  - apply (f_equal String.length) in E. rewrite !length_append in E.
    simpl in E. lia.
  - apply (f_equal String.length) in E. rewrite !length_append in E.
    simpl in E. lia.
  - rewrite !append_cons in E. injection E as -> E. f_equal. by apply IH.
Qed.

Lemma lacksChar_append c s t :
  lacksChar c (s +:+ t) = lacksChar c s && lacksChar c t.
Proof.
  induction s as [|a s IH]; [done|]. rewrite append_cons. simpl.
  by destruct (decide (a = c)).
Qed.

Lemma lacksChar_takeStr c n s : lacksChar c s = true -> lacksChar c (takeStr n s) = true.
Proof.
  revert s. induction n as [|n IH]; intros [|a s]; simpl; try done.
  destruct (decide (a = c)); [done|]. apply IH.
Qed.

Lemma lacksChar_dropStr c n s : lacksChar c s = true -> lacksChar c (dropStr n s) = true.
Proof.
  revert s. induction n as [|n IH]; intros [|a s]; simpl; try done.
  destruct (decide (a = c)); [done|]. apply IH.
Qed.

Lemma lacksChar_slice c s a b : lacksChar c s = true -> lacksChar c (slice s a b) = true.
Proof. intros H. unfold slice. by apply lacksChar_takeStr, lacksChar_dropStr. Qed.

(** Two strings cut at the first occurrence of a separator. *)
Lemma split_at_first c a b x y :
  lacksChar c a = true -> lacksChar c b = true ->
  a +:+ String c x = b +:+ String c y -> a = b /\ x = y.
Proof.
  revert b. induction a as [|k a IH]; intros [|l b] Ha Hb E; simpl in *.
  - by injection E as ->.
  - rewrite append_cons in E. injection E as <- _. by rewrite decide_True in Hb.
  - rewrite append_cons in E. injection E as -> _. by rewrite decide_True in Ha.
  - rewrite !append_cons in E. injection E as -> E.
    destruct (decide (l = c)); [done|].
    destruct (IH b Ha Hb E) as [-> ->]. done.
Qed.

Lemma splitLines_first_line s r :
  lacksChar newline s = true ->
  splitLines (s +:+ String newline r) = s :: splitLines r.
Proof.
  induction s as [|a s IH]; intros H.
  - rewrite append_empty_l. cbn [splitLines]. by rewrite decide_True.
  - cbn [lacksChar] in H. destruct (decide (a = newline)) as [|Hne]; [done|].
    rewrite append_cons. cbn [splitLines]. rewrite decide_False by done.
    by rewrite IH.
Qed.

Lemma splitLines_lines s : Forall (fun l => lacksChar newline l = true) (splitLines s).
Proof.
  induction s as [|a s IH]; simpl.
  - by constructor.
  - destruct (decide (a = newline)) as [|Hne]; [by constructor|].
    destruct (splitLines s) as [|l ls]; [by repeat constructor; simpl; rewrite decide_False|].
    apply Forall_cons in IH as [Hl Hls]. constructor; [|done].
    simpl. by rewrite decide_False.
Qed.

Lemma startsWith_joinLines s rest : startsWith (joinLines (s :: rest)) s = true.
Proof.
  destruct rest as [|x rest]; simpl.
  - rewrite <- (append_empty_r s) at 1. apply startsWith_append.
  - apply startsWith_append.
Qed.

Lemma lacksChar_trimStart c s : lacksChar c s = true -> lacksChar c (trimStart s) = true.
Proof.
  induction s as [|a s IH]; [done|]. intros H. simpl.
  destruct (isWhite a); [|done]. apply IH. simpl in H. by destruct (decide (a = c)).
Qed.

Lemma lacksChar_trimEnd c s : lacksChar c s = true -> lacksChar c (trimEnd s) = true.
Proof.
  induction s as [|a s IH]; [done|]. intros H. simpl in *.
  destruct (decide (a = c)) as [|Hne]; [done|]. specialize (IH H).
  destruct (trimEnd s) as [|b t].
  - destruct (isWhite a); simpl; [done|]. by rewrite decide_False.
  - cbn [lacksChar]. by rewrite decide_False.
Qed.

Lemma lowerChar_newline a : lowerChar a = newline -> a = newline.
Proof. destruct a as [[] [] [] [] [] [] [] []]; vm_compute; congruence. Qed.

Lemma lacksChar_toLowerCase s :
  lacksChar newline s = true -> lacksChar newline (toLowerCase s) = true.
Proof.
  induction s as [|a s IH]; [done|]. simpl.
  destruct (decide (a = newline)) as [|Hne]; [done|]. intros H.
  rewrite decide_False; [by apply IH|]. by intros ?%lowerChar_newline.
Qed.

End JSFacts.

(** ** The bot recognises its own comments *)

Section OwnComments.

Import Comments.

Lemma buildComment_signed cfg s :
  JS.includes (buildComment cfg s) Messages.COMMENT_SIGNATURE = true.
Proof.
  unfold buildComment.
  rewrite <- !JSFacts.append_assoc. apply JSFacts.includes_suffix.
Qed.

Lemma isThreadRelevant_signed th c :
  c ∈ comments th ->
  JS.includes (body c) Messages.COMMENT_SIGNATURE = true ->
  isThreadRelevant th = true.
Proof.
  intros Hin Hsig. unfold isThreadRelevant. apply existsb_exists.
  exists c. split; [by apply list_elem_of_In|]. by rewrite Hsig.
Qed.

(** C10. Whatever the text and the configured limit of code-block lines,
    the body [buildComment] returns contains [COMMENT_SIGNATURE]; so
    [isOwnComment] holds of it, and a thread that has a comment with such a
    body is relevant. *)
Theorem buildComment_is_own (cfg : Config) (s : string) :
  JS.includes (buildComment cfg s) Messages.COMMENT_SIGNATURE = true
  /\ isOwnComment (buildComment cfg s) = true
  /\ forall th c, c ∈ comments th -> body c = buildComment cfg s ->
                  isThreadRelevant th = true.
Proof.
  split; [apply buildComment_signed|].
  split; [apply buildComment_signed|].
  intros th c Hin Hbody. apply (isThreadRelevant_signed th c Hin).
  rewrite Hbody. apply buildComment_signed.
Qed.

End OwnComments.

(** ** Lists filtered by a boolean test *)

Section BoolFilter.

Context {A : Type} (p : A -> bool).

Lemma filter_cons_true x l :
  filter (fun y => p y = true) (x :: l)
  = if p x then x :: filter (fun y => p y = true) l
    else filter (fun y => p y = true) l.
Proof.
  rewrite filter_cons. case_decide as H; [by rewrite H|].
  apply not_true_is_false in H. by rewrite H.
Qed.

Lemma filter_cons_false x l :
  filter (fun y => p y = false) (x :: l)
  = if p x then filter (fun y => p y = false) l
    else x :: filter (fun y => p y = false) l.
Proof.
  rewrite filter_cons. case_decide as H; [by rewrite H|].
  apply not_false_is_true in H. by rewrite H.
Qed.

Lemma filter_split_perm (l : list A) :
  filter (fun x => p x = true) l ++ filter (fun x => p x = false) l ≡ₚ l.
Proof.
  induction l as [|x l IH]; [done|].
  rewrite filter_cons_true, filter_cons_false. destruct (p x); simpl.
  - by constructor.
  - rewrite <- Permutation_middle. by constructor.
Qed.

Lemma filter_all_true (l : list A) :
  Forall (fun x => p x = true) l ->
  filter (fun x => p x = true) l = l /\ filter (fun x => p x = false) l = [].
Proof.
  induction 1 as [|x l Hx _ [IH1 IH2]]; [done|].
  rewrite filter_cons_true, filter_cons_false, Hx. by rewrite IH1, IH2.
Qed.

End BoolFilter.

(** ** Batching *)

Section Batching.

Import Diff PullRequest.

Lemma hunksSize_nonneg hs acc :
  0 <= acc -> 0 <= fold_left (fun a h => a + JS.strlen (diff h)) hs acc.
Proof.
  revert acc. induction hs as [|h hs IH]; intros acc Hacc; simpl; [done|].
  apply IH. unfold JS.strlen. lia.
Qed.

Lemma estimate_overhead f : 200 <= estimate f.
Proof.
  unfold estimate. pose proof (hunksSize_nonneg (hunks f) 0 ltac:(done)).
  unfold JS.strlen in *. lia.
Qed.

Lemma batchSize_app b c : batchSize (b ++ c) = batchSize b + batchSize c.
Proof. induction b as [|f b IH]; simpl; [done|]. rewrite IH. lia. Qed.

Lemma batchSize_nonneg b : 0 <= batchSize b.
Proof.
  induction b as [|f b IH]; simpl; [done|].
  pose proof (estimate_overhead f). lia.
Qed.

Lemma nonEmpty_true {A} (l : list A) : nonEmpty l = true <-> l <> [].
Proof. by destruct l. Qed.

(** The loop of [batchFilesByChars] computes the greedy packing. *)
Lemma batch_loop_greedy maxChars files st :
  (let st' := fold_left (batchStep maxChars) files st in
   if nonEmpty (current st') then batches st' ++ [current st'] else batches st')
  = batches st ++ greedyPack maxChars (current st) (size st) files.
Proof.
  revert st. induction files as [|f files IH]; intros st; simpl.
  - destruct (nonEmpty (current st)); [done|]. by rewrite app_nil_r.
  - rewrite IH. unfold batchStep.
    destruct (nonEmpty (current st) && (size st + estimate f >? maxChars)); simpl.
    + rewrite Z.add_0_l. by rewrite <- app_assoc.
    + done.
Qed.

Lemma batchFilesByChars_greedy files maxChars :
  batchFilesByChars files maxChars = greedyPack maxChars [] 0 files.
Proof. unfold batchFilesByChars. by rewrite batch_loop_greedy. Qed.

Lemma greedyPack_concat m cur sz files :
  concat (greedyPack m cur sz files) = cur ++ files.
Proof.
  revert cur sz. induction files as [|f files IH]; intros cur sz; simpl.
  - destruct cur; simpl; by rewrite ?app_nil_r.
  - destruct (nonEmpty cur && (sz + estimate f >? m)); simpl; rewrite IH.
    + done.
    + by rewrite <- app_assoc.
Qed.

Lemma greedyPack_nonempty m cur sz files b :
  b ∈ greedyPack m cur sz files -> b <> [].
Proof.
  revert cur sz. induction files as [|f files IH]; intros cur sz; simpl.
  - destruct cur; simpl; [by intros ?%elem_of_nil|].
    by intros ->%list_elem_of_singleton.
  - destruct (nonEmpty cur && (sz + estimate f >? m)) eqn:E.
    + intros [->|H]%elem_of_cons; [|by eapply IH].
      apply andb_true_iff in E as [E _]. by apply nonEmpty_true.
    + apply IH.
Qed.

Lemma withinBudget_single m f : withinBudget m [f].
Proof.
  intros pre g post E Hpre. destruct pre as [|x pre]; [done|].
  destruct pre; simplify_eq/=.
Qed.

Lemma withinBudget_snoc m cur f :
  withinBudget m cur ->
  (cur <> [] -> batchSize cur + estimate f <= m) ->
  withinBudget m (cur ++ [f]).
Proof.
  intros Hcur Hf pre g post E Hpre.
  destruct post as [|x post _] using rev_ind.
  - apply (app_inj_tail cur pre f g) in E as [-> ->]. by apply Hf.
  - rewrite app_comm_cons, app_assoc in E.
    apply app_inj_tail in E as [-> _]. by eapply Hcur.
Qed.

Lemma greedyPack_within m cur sz files b :
  sz = batchSize cur -> withinBudget m cur ->
  b ∈ greedyPack m cur sz files -> withinBudget m b.
Proof.
  revert cur sz. induction files as [|f files IH]; intros cur sz Hsz Hcur; simpl.
  - destruct cur; simpl; [by intros ?%elem_of_nil|].
    by intros ->%list_elem_of_singleton.
  - destruct (nonEmpty cur && (sz + estimate f >? m)) eqn:E.
    + intros [->|H]%elem_of_cons; [done|].
      eapply IH; [| |exact H]; [simpl; lia|apply withinBudget_single].
    + apply IH.
      * rewrite batchSize_app. simpl. lia.
      * apply withinBudget_snoc; [done|]. intros Hne.
        apply nonEmpty_true in Hne. rewrite Hne in E. simpl in E. lia.
Qed.

(** The first batch of a packing extends the current batch. *)
Lemma greedyPack_head m cur sz files :
  cur <> [] ->
  exists more bs, greedyPack m cur sz files = (cur ++ more) :: bs.
Proof.
  revert cur sz. induction files as [|f files IH]; intros cur sz Hne; simpl.
  - destruct cur; [done|]. exists [], []. by rewrite app_nil_r.
  - destruct (nonEmpty cur && (sz + estimate f >? m)).
    + exists [], (greedyPack m [f] (estimate f) files). by rewrite app_nil_r.
    + destruct (IH (cur ++ [f]) (sz + estimate f)) as (more & bs & ->).
      { by destruct cur. }
      exists (f :: more), bs. by rewrite <- app_assoc.
Qed.

Lemma greedyPack_between m cur sz files l1 b b' l2 :
  sz = batchSize cur ->
  greedyPack m cur sz files = l1 ++ b :: b' :: l2 ->
  exists f rest, b' = f :: rest /\ batchSize b + estimate f > m.
Proof.
  revert cur sz l1. induction files as [|f files IH]; intros cur sz l1 Hsz; simpl.
  - destruct cur; simpl; intros E; destruct l1 as [|? [|? ?]]; simplify_eq/=.
  - destruct (nonEmpty cur && (sz + estimate f >? m)) eqn:E.
    + intros Hpack. destruct l1 as [|x l1]; simplify_eq/=.
      * destruct (greedyPack_head m [f] (estimate f) files) as (more & bs & Hh);
          [done|].
        rewrite Hh in H0. simplify_eq/=. exists f, more. split; [done|].
        apply andb_true_iff in E as [_ E]. lia.
      * eapply (IH [f] (estimate f) l1); [simpl; lia|done].
    + apply IH. rewrite batchSize_app. simpl. lia.
Qed.

Lemma concat_elem_unique {A} (bs : list (list A)) i j b b' x :
  NoDup (concat bs) -> bs !! i = Some b -> bs !! j = Some b' ->
  x ∈ b -> x ∈ b' -> i = j.
Proof.
  revert i j. induction bs as [|c bs IH]; intros i j Hnd Hi Hj Hb Hb'; [done|].
  simpl in Hnd. apply NoDup_app in Hnd as (Hc & Hdisj & Hrest).
  destruct i as [|i], j as [|j]; simplify_eq/=; [done| | |f_equal; eauto].
  - exfalso. apply (Hdisj x Hb). apply list_elem_of_In, in_concat.
    exists b'. split; [|by apply list_elem_of_In].
    apply list_elem_of_In. by eapply list_elem_of_lookup_2.
  - exfalso. apply (Hdisj x Hb'). apply list_elem_of_In, in_concat.
    exists b. split; [|by apply list_elem_of_In].
    apply list_elem_of_In. by eapply list_elem_of_lookup_2.
Qed.

(** C6. Whatever the files and the budget, the batches of
    [batchFilesByChars], put end to end, are the input list: a file is never
    split and lies in one batch (in exactly one when the files are pairwise
    distinct).  No batch is empty; inside a batch no file was added beyond
    the budget to files already there; a batch ends only where the next file
    would have exceeded the budget; and a file whose estimate alone exceeds
    the budget is a batch by itself. *)
Theorem batchFilesByChars_partition (files : list FileDiff) (maxChars : Z) :
  let bs := batchFilesByChars files maxChars in
  concat bs = files
  /\ (forall b, b ∈ bs -> b <> [] /\ withinBudget maxChars b)
  /\ (forall l1 b b' l2, bs = l1 ++ b :: b' :: l2 ->
        exists f rest, b' = f :: rest /\ batchSize b + estimate f > maxChars)
  /\ (forall f, f ∈ files -> estimate f > maxChars -> [f] ∈ bs)
  /\ (NoDup files -> forall i j b b' f,
        bs !! i = Some b -> bs !! j = Some b' -> f ∈ b -> f ∈ b' -> i = j).
Proof.
  intros bs. subst bs. rewrite batchFilesByChars_greedy.
  assert (Hcat : concat (greedyPack maxChars [] 0 files) = files)
    by apply greedyPack_concat.
  assert (Hin : forall b, b ∈ greedyPack maxChars [] 0 files ->
                          b <> [] /\ withinBudget maxChars b).
  { intros b Hb. split; [by eapply greedyPack_nonempty|].
    eapply greedyPack_within; [| |exact Hb]; [done|].
    intros pre f post E _. by destruct pre. }
  split; [done|]. split; [done|]. split; [|split].
  - intros l1 b b' l2 E.
    by apply (greedyPack_between maxChars [] 0 files l1 b b' l2).
  - intros f Hf Hbig. rewrite <- Hcat in Hf.
    apply list_elem_of_In, in_concat in Hf as (b & Hb & Hfb).
    apply list_elem_of_In in Hb. apply list_elem_of_In in Hfb.
    destruct (Hin b Hb) as [_ Hw].
    apply list_elem_of_split in Hfb as (pre & post & ->).
    destruct pre as [|x pre].
    + destruct post as [|g post]; [done|]. exfalso.
      pose proof (Hw [f] g post eq_refl ltac:(done)) as Hle. simpl in Hle.
      pose proof (estimate_overhead g). lia.
    + exfalso. pose proof (Hw (x :: pre) f post eq_refl ltac:(done)) as Hle.
      pose proof (batchSize_nonneg (x :: pre)). lia.
  - intros Hnd i j b b' f. apply concat_elem_unique. by rewrite Hcat.
Qed.

End Batching.

(** ** Scopes *)

Section Scopes.

Import Diff PullRequest.

Lemma inScope_flows f : inScope "flows" f = isFlow (JS.toLowerCase (filename f)).
Proof. reflexivity. Qed.

Lemma inScope_data_model f :
  inScope "data-model" f = isDataModel (JS.toLowerCase (filename f)).
Proof. reflexivity. Qed.

Lemma inScope_apex f :
  inScope "apex" f = negb (isFlow (JS.toLowerCase (filename f)))
                     && negb (isDataModel (JS.toLowerCase (filename f))).
Proof. reflexivity. Qed.

Lemma scopesOf_cases f :
  scopesOf f =
  (if isDataModel (JS.toLowerCase (filename f)) then ["data-model"] else [])
  ++ (if isFlow (JS.toLowerCase (filename f)) then ["flows"] else [])
  ++ (if negb (isFlow (JS.toLowerCase (filename f)))
         && negb (isDataModel (JS.toLowerCase (filename f)))
      then ["apex"] else []).
Proof.
  unfold scopesOf, DEFAULT_SCOPES.
  rewrite !(filter_cons_true (fun s => inScope s f)), filter_nil.
  rewrite inScope_flows, inScope_data_model, inScope_apex.
  destruct (isDataModel _), (isFlow _); reflexivity.
Qed.

Lemma scopes_partition files :
  Forall (fun f => overlaps f = false) files ->
  filterFilesByScope files "data-model" ++ filterFilesByScope files "flows"
    ++ filterFilesByScope files "apex" ≡ₚ files.
Proof.
  unfold filterFilesByScope.
  induction files as [|f files IH]; intros Hall; [done|].
  apply Forall_cons in Hall as [Hf Hall]. specialize (IH Hall).
  rewrite (filter_cons_true (inScope "data-model")),
    (filter_cons_true (inScope "flows")), (filter_cons_true (inScope "apex")).
  rewrite inScope_flows, inScope_data_model, inScope_apex.
  unfold overlaps in Hf.
  destruct (isFlow _), (isDataModel _); try discriminate; simpl.
  - rewrite <- Permutation_middle. by constructor.
  - by constructor.
  - rewrite <- !Permutation_middle. by constructor.
Qed.

(** C7, the claim as stated fails: a flow file below a [globalValueSets]
    directory is selected by the scope 'data-model' and by the scope
    'flows'. *)
Lemma scopes_not_exclusive :
  scopesOf Samples.overlapFile = ["data-model"; "flows"]
  /\ ~ (exists s, scopesOf Samples.overlapFile = [s]).
Proof.
  assert (E : scopesOf Samples.overlapFile = ["data-model"; "flows"])
    by (vm_compute; reflexivity).
  split; [exact E|]. rewrite E. by intros [s ?].
Qed.

(** C7, as the code has it.  Every file is selected by at least one of the
    scopes 'data-model', 'flows' and 'apex'; 'apex' selects exactly the
    files that match neither the flow nor the data-model pattern; a file
    that matches only one of the two patterns, or none, is selected by
    exactly one scope, and a file that matches both is selected by
    'data-model' and by 'flows'.  The three subsets of a list without such
    files partition it. *)
Theorem scopes_cover (f : FileDiff) :
  scopesOf f <> []
  /\ (inScope "apex" f = true <->
      inScope "flows" f = false /\ inScope "data-model" f = false)
  /\ (overlaps f = false -> exists s, scopesOf f = [s])
  /\ (overlaps f = true -> scopesOf f = ["data-model"; "flows"])
  /\ (forall files, Forall (fun g => overlaps g = false) files ->
        filterFilesByScope files "data-model" ++ filterFilesByScope files "flows"
          ++ filterFilesByScope files "apex" ≡ₚ files).
Proof.
  rewrite scopesOf_cases, inScope_flows, inScope_data_model, inScope_apex.
  unfold overlaps.
  destruct (isFlow _), (isDataModel _); simpl;
    (split; [done|]); (split; [intuition congruence|]);
    (split; [try done; eauto|]); (split; [done|]); apply scopes_partition.
Qed.

End Scopes.

(** ** Findings kept for inline posting, and the cap *)

Section Triage.

Import Prompts PullRequest.

Lemma triageStep_kept lc sk c :
  triageStep (lc, sk) c
  = if keptInline c then (lc ++ [c], sk) else (lc, sk ++ [c]).
Proof.
  unfold triageStep, keptInline.
  by destruct (JS.truthyNum (end_line c)), (worthPosting c).
Qed.

Lemma triage_loop comments lc sk :
  fold_left triageStep comments (lc, sk)
  = (lc ++ filter (fun c => keptInline c = true) comments,
     sk ++ filter (fun c => keptInline c = false) comments).
Proof.
  revert lc sk. induction comments as [|c comments IH]; intros lc sk.
  - by rewrite !app_nil_r.
  - cbn [fold_left]. rewrite triageStep_kept, filter_cons_true, filter_cons_false.
    destruct (keptInline c); rewrite IH; by rewrite <- ?app_assoc.
Qed.

Lemma triage_filter comments :
  triage comments = (filter (fun c => keptInline c = true) comments,
                     filter (fun c => keptInline c = false) comments).
Proof. unfold triage. by rewrite triage_loop. Qed.

Lemma worthPosting_cases c :
  worthPosting c =
  if isTypos c then isSubstantive c || (contentLen c >=? 10)
  else isHighValue c.
Proof.
  unfold worthPosting.
  destruct (isTypos c), (isHighValue c); simpl; try done.
  - assert ((contentLen c >=? 0) = true) as ->.
    { apply Z.geb_le. unfold contentLen, JS.strlen. lia. }
    apply orb_true_r.
Qed.

(** C4, the claim as stated fails: a finding with a line, on a file of the
    pull request, whose content passes the substance bar, is skipped when
    it is neither critical nor of a high-value label. *)
Lemma substantive_finding_skipped :
  JS.truthyNum (end_line Samples.styleRemark) = true
  /\ isHighValue Samples.styleRemark = false
  /\ isSubstantive Samples.styleRemark = true
  /\ triage [Samples.styleRemark] = ([], [Samples.styleRemark]).
Proof. vm_compute. done. Qed.

(** C4, as the code has it.  The loop splits the findings, in order, into
    the kept and the skipped ones and loses none.  A finding is kept when
    its [end_line] is set and not zero and either its label is 'typo' and
    its content is substantive or at least 10 characters long, or its label
    is not 'typo' and it is critical or of a high-value label (security,
    possible bug, bug, performance).  Every other finding is skipped,
    whatever its content. *)
Theorem triage_keeps_high_value (comments : list AIComment) :
  triage comments = (filter (fun c => keptInline c = true) comments,
                     filter (fun c => keptInline c = false) comments)
  /\ fst (triage comments) ++ snd (triage comments) ≡ₚ comments
  /\ (forall c,
        keptInline c =
        JS.truthyNum (end_line c)
        && (if isTypos c then isSubstantive c || (contentLen c >=? 10)
            else isHighValue c))
  /\ (forall files c, c ∈ comments -> postable files c = true ->
        let posted := filter (fun x => postable files x = true) comments in
        c ∈ fst (triage posted) \/ c ∈ snd (triage posted)).
Proof.
  split; [apply triage_filter|]. split; [|split].
  - rewrite triage_filter. apply filter_split_perm.
  - intros c. unfold keptInline. by rewrite worthPosting_cases.
  - intros files c Hc Hpost posted.
    assert (Hin : c ∈ posted) by (by apply list_elem_of_filter).
    rewrite triage_filter. cbn [fst snd]. rewrite !list_elem_of_filter.
    destruct (keptInline c); [by left|by right].
Qed.

(** A critical finding labelled 'typo' needs ten characters to be kept. *)
Example critical_typo_skipped :
  isHighValue Samples.criticalTypo = true
  /\ triage [Samples.criticalTypo] = ([], [Samples.criticalTypo]).
Proof. vm_compute. done. Qed.

Lemma relIndex_inside len k : 0 <= k <= len -> JS.relIndex len k = k.
Proof. intros H. unfold JS.relIndex. destruct (Z.ltb_spec k 0); lia. Qed.

Lemma sliceArr_prefix {A} (l : list A) cap :
  0 <= cap <= Z.of_nat (length l) -> JS.sliceArr l 0 cap = take (Z.to_nat cap) l.
Proof.
  intros H. unfold JS.sliceArr.
  rewrite (relIndex_inside _ 0), (relIndex_inside _ cap) by lia.
  simpl. by rewrite Z.sub_0_r.
Qed.

Lemma sliceFrom_suffix {A} (l : list A) cap :
  0 <= cap <= Z.of_nat (length l) -> JS.sliceFrom l cap = drop (Z.to_nat cap) l.
Proof. intros H. unfold JS.sliceFrom. by rewrite relIndex_inside. Qed.

Lemma applyCap_over cap lc sk :
  0 <= cap < Z.of_nat (length lc) ->
  applyCap cap (lc, sk) = (take (Z.to_nat cap) lc, sk ++ drop (Z.to_nat cap) lc).
Proof.
  intros H. unfold applyCap.
  destruct (Z.gtb_spec (Z.of_nat (length lc)) cap); [|lia].
  by rewrite sliceArr_prefix, sliceFrom_suffix by lia.
Qed.

Lemma triage_all_kept comments :
  Forall (fun c => keptInline c = true) comments -> triage comments = (comments, []).
Proof.
  intros H. rewrite triage_filter.
  by destruct (filter_all_true keptInline comments H) as [-> ->].
Qed.

(** C5. When more findings qualify than the cap allows, the first [cap] of
    them, in order, are the inline comments of the run and the others are
    appended to the skipped ones: none is lost.  For findings that all
    qualify the same holds of the whole selection; with 55 of them and a
    cap of 40, 40 are inline and 15 skipped. *)
Theorem cap_enforced (cfg : Config) (cap : Z) (lc sk : list AIComment) :
  0 <= cap < Z.of_nat (length lc) ->
  let inline := fst (applyCap cap (lc, sk)) in
  let skipped := snd (applyCap cap (lc, sk)) in
  inline = take (Z.to_nat cap) lc
  /\ skipped = sk ++ drop (Z.to_nat cap) lc
  /\ Z.of_nat (length inline) = cap
  /\ Z.of_nat (length (drop (Z.to_nat cap) lc)) = Z.of_nat (length lc) - cap
  /\ inline ++ drop (Z.to_nat cap) lc = lc
  /\ (MAX_TOTAL_COMMENTS cfg = cap ->
      Forall (fun c => keptInline c = true) lc ->
      selectComments cfg lc = (take (Z.to_nat cap) lc, drop (Z.to_nat cap) lc))
  /\ (cap = 40 -> length lc = 55%nat ->
      length inline = 40%nat /\ length (drop (Z.to_nat cap) lc) = 15%nat).
Proof.
  intros H inline skipped. subst inline skipped.
  rewrite applyCap_over by done. simpl.
  split; [done|]. split; [done|].
  split; [rewrite length_take; lia|].
  split; [rewrite length_drop; lia|].
  split; [apply take_drop|].
  split.
  - intros Hcap Hall. unfold selectComments.
    rewrite Hcap, triage_all_kept by done. by rewrite applyCap_over.
  - intros -> Hlen. rewrite length_take, length_drop, Hlen. split; reflexivity.
Qed.

End Triage.

(** ** Run state *)

Section RunState.

Import Diff PullRequest.

Lemma extractPayloadJson_unusable body :
  markersUnusable body = true -> extractPayloadJson body = EMPTY_OBJECT.
Proof.
  unfold markersUnusable, extractPayloadJson.
  destruct (JS.includes body Messages.PAYLOAD_TAG_OPEN),
           (JS.includes body Messages.PAYLOAD_TAG_CLOSE); simpl; try done.
  by destruct (_ >? _).
Qed.

Lemma readPayload_parsed rt body v :
  JSON_parse rt (extractPayloadJson body) = Some v ->
  commitsArray v = None ->
  tryCatch (readPayload rt body) (fun _ => []) = [].
Proof.
  intros Hparse Harr. unfold readPayload. rewrite Hparse. simpl.
  destruct v as [| | | | |fields]; simpl in *; try done.
  destruct (List.find _ fields) as [[k [| | | |cs|]]|]; simpl; done.
Qed.

Lemma resolveScope_fresh rt cmp body head commits files :
  commitsReviewedOf rt body = [] ->
  resolveScope rt cmp (Some body) head commits files
  = Ok (mkScope files commits None false).
Proof. intros H. unfold resolveScope. by rewrite H. Qed.

(** A payload that is well formed is read: with the commit [c1] reviewed,
    the commits [c1] and [c2] of the pull request and a comparison that
    names only [x.ts], the commit [c2] and the file [x.ts] are in scope. *)
Example incremental_scope :
  extractPayloadJson Samples.storedBody = Samples.storedPayload
  /\ commitsReviewedOf Samples.sampleRuntime Samples.storedBody = [JStr "c1"]
  /\ resolveScope Samples.sampleRuntime (fun _ _ => Ok (Some ["x.ts"]))
       (Some Samples.storedBody) "c2" Samples.twoCommits
       [Samples.plainFile "x.ts"; Samples.plainFile "y.ts"]
     = Ok (mkScope [Samples.plainFile "x.ts"] [mkCommit "c2" "second"]
                   (Some (JStr "c1")) true).
Proof. vm_compute. done. Qed.

(** C8. Reading the payload of the overview comment never throws out of the
    handler.  When a marker is missing, or no closing marker follows the
    opening one, the text parsed is that of the empty object; and when that
    happens, or the text between the markers is not JSON, or the value
    parsed has no array under [commits], the list of reviewed commits is
    empty, no comparison is asked of the host, and every file and every
    commit of the pull request is in scope. *)
Theorem payload_degrades_to_full_review
    (rt : Runtime) (cmp : JValue -> string -> Result (option (list string)))
    (body head : string) (commits : list Commit) (files : list FileDiff) :
  (markersUnusable body = true /\ JSON_parse rt EMPTY_OBJECT = Some (JObj []))
  \/ JSON_parse rt (extractPayloadJson body) = None
  \/ (exists v, JSON_parse rt (extractPayloadJson body) = Some v
                /\ commitsArray v = None) ->
  (markersUnusable body = true -> extractPayloadJson body = EMPTY_OBJECT)
  /\ commitsReviewedOf rt body = []
  /\ resolveScope rt cmp (Some body) head commits files
     = Ok (mkScope files commits None false).
Proof.
  intros H. split; [apply extractPayloadJson_unusable|].
  assert (Hnone : commitsReviewedOf rt body = []).
  { unfold commitsReviewedOf. destruct H as [[Hm Hp]|[Hp|(v & Hp & Hv)]].
    - apply (readPayload_parsed rt body (JObj [])); [|done].
      by rewrite extractPayloadJson_unusable.
    - unfold readPayload. by rewrite Hp.
    - by apply (readPayload_parsed rt body v). }
  split; [done|]. by apply resolveScope_fresh.
Qed.

End RunState.

(** ** Thread continuity *)

Section Continuity.

Import Diff Prompts Comments PullRequest.

Lemma indexStep_lookup idx t k :
  indexStep idx t !! k
  = if decide (threadKey t = Some k) then Some t else idx !! k.
Proof.
  unfold indexStep, threadKey. destruct (comments t) as [|top rest].
  - by rewrite decide_False.
  - rewrite lookup_insert. repeat case_decide; congruence.
Qed.

Lemma threadsIndex_snoc l t :
  threadsIndex (l ++ [t]) = indexStep (threadsIndex l) t.
Proof. unfold threadsIndex. by rewrite fold_left_app. Qed.

(** A thread found in the index is one of the threads, under its key. *)
Lemma threadsIndex_sound l k t :
  threadsIndex l !! k = Some t -> t ∈ l /\ threadKey t = Some k.
Proof.
  induction l as [|x l IH] using rev_ind; [done|].
  rewrite threadsIndex_snoc, indexStep_lookup. case_decide as Hk.
  - intros [= ->]. split; [|done]. apply elem_of_app. right. by left.
  - intros H. destruct (IH H) as [Hin Hkey]. split; [|done].
    apply elem_of_app. by left.
Qed.

(** The key of a thread with a root comment is in the index. *)
Lemma threadsIndex_complete l k t :
  t ∈ l -> threadKey t = Some k -> is_Some (threadsIndex l !! k).
Proof.
  induction l as [|x l IH] using rev_ind; [by intros ?%elem_of_nil|].
  intros Hin Hk. rewrite threadsIndex_snoc, indexStep_lookup.
  case_decide; [done|].
  apply elem_of_app in Hin as [Hin|Hin]; [by apply IH|].
  apply list_elem_of_singleton in Hin as ->. done.
Qed.

Lemma resolveReviewPath_renamed files p fd :
  List.find (fun f => bool_decide (previous_filename f = Some p)) files = Some fd ->
  resolveReviewPath files p = filename fd.
Proof. intros H. unfold resolveReviewPath. by rewrite H. Qed.

Lemma resolveReviewPath_same files p :
  Forall (fun f => previous_filename f <> Some p) files ->
  resolveReviewPath files p = p.
Proof.
  intros H. unfold resolveReviewPath.
  destruct (List.find _ files) as [fd|] eqn:E; [|done].
  apply find_some in E as [Hin Hp]. apply bool_decide_eq_true in Hp.
  apply list_elem_of_In in Hin. by destruct (proj1 (Forall_forall _ _) H fd Hin).
Qed.

(** A finding continues a thread only under the key of its resolved path
    and lines. *)
Lemma reply_only_on_key files threads c t :
  existingThreadOf files (threadsIndex (relevantThreads threads)) c = Some t ->
  t ∈ threads /\ isThreadRelevant t = true
  /\ threadKey t = Some (makeKey (resolveReviewPath files (Prompts.file c))
                                 (end_line c) (Prompts.start_line c)).
Proof.
  unfold existingThreadOf, findExistingThread.
  destruct (end_line c) as [e|]; [|done].
  intros [Hin Hkey]%threadsIndex_sound.
  apply list_elem_of_filter in Hin as [Hrel Hin]. done.
Qed.

(** A finding continues a thread only under the resolved path of its file.
    The findings [handlePullRequest] passes on are on current file names;
    when such a name is the previous name of no file, the resolved path is
    the name itself, so that the thread a finding continues is rooted on
    the finding's own file: a thread rooted on the previous name of a
    renamed file is continued by no finding on its current name.  (Paths
    are taken without the separator [#] of the keys.) *)
Lemma thread_continued_on_own_path files threads c t :
  Forall (fun f => previous_filename f <> Some (Prompts.file c)) files ->
  JS.lacksChar "#" (Prompts.file c) = true ->
  JS.lacksChar "#" (Comments.file t) = true ->
  existingThreadOf files (threadsIndex (relevantThreads threads)) c = Some t ->
  Comments.file t = Prompts.file c.
Proof.
  intros Hnone Hc Ht Hfound.
  destruct (reply_only_on_key files threads c t Hfound) as (_ & _ & Hkey).
  rewrite (resolveReviewPath_same files _ Hnone) in Hkey.
  unfold threadKey in Hkey. destruct (comments t) as [|top rest]; [done|].
  injection Hkey as Hkey. unfold makeKey in Hkey.
  by apply (JSFacts.split_at_first "#") in Hkey as [? _].
Qed.

(** C2 at the input on which the code misses it.  The pull request lists
    one file, [new.ts], renamed from [old.ts]; a thread of the bot is rooted
    on [old.ts] at the lines 10 to 12; the finding on [new.ts] at the same
    lines passes the filter of [handlePullRequest] and the triage.  The path
    of the finding resolves to [new.ts], the thread is indexed under
    [old.ts], and the finding is classified as a new anchored comment, not
    as a reply. *)
Lemma rename_thread_not_continued :
  let files := [Samples.renamedFile] in
  let idx := threadsIndex (relevantThreads [Samples.oldThread]) in
  let c := Samples.findingOn "new.ts" in
  postable [Samples.renamedRawFile] c = true
  /\ fst (selectComments Samples.defaultConfig [c]) = [c]
  /\ relevantThreads [Samples.oldThread] = [Samples.oldThread]
  /\ resolveReviewPath files (Prompts.file c) = "new.ts"
  /\ threadKey Samples.oldThread = Some (makeKey "old.ts" (Some 12) (Some 10))
  /\ existingThreadOf files idx c = None
  /\ replyCandidates files idx [c] = []
  /\ anchorComments files idx [c] = [c].
Proof. vm_compute. done. Qed.

End Continuity.

(** ** Upsert signatures *)

Section Signatures.

Import Diff Prompts Comments PullRequest.

(** *** The first line of a comment survives [buildComment] *)

Lemma truncStep_out m st ln : exists pre, out (truncStep m st ln) = pre ++ out st.
Proof.
  unfold truncStep.
  destruct (JS.startsWith ln "```"), (inFence st); simpl;
    try (by exists [ln]).
  destruct (_ <=? _); simpl; [by exists [ln]|].
  destruct (_ =? _); simpl; [by exists [TRUNCATED_MARK]|by exists []].
Qed.

Lemma trunc_loop_out m lines st :
  exists pre, out (fold_left (truncStep m) lines st) = pre ++ out st.
Proof.
  revert st. induction lines as [|ln lines IH]; intros st; simpl.
  - by exists [].
  - destruct (IH (truncStep m st ln)) as [pre ->].
    destruct (truncStep_out m st ln) as [pre0 ->].
    exists (pre ++ pre0). by rewrite app_assoc.
Qed.

Lemma truncate_first_line s r m :
  JS.lacksChar JS.newline s = true ->
  JS.startsWith s "```" = false ->
  JS.startsWith (truncateCodeBlocks (s +:+ String JS.newline r) m) s = true.
Proof.
  intros Hs Hfence. unfold truncateCodeBlocks.
  rewrite JSFacts.splitLines_first_line by done. cbn [fold_left].
  assert (truncStep m (mkTrunc false 0 []) s = mkTrunc false 0 [s]) as ->.
  { unfold truncStep. by rewrite Hfence. }
  destruct (trunc_loop_out m (JS.splitLines r) (mkTrunc false 0 [s])) as [pre ->].
  simpl. rewrite rev_app_distr. simpl. apply JSFacts.startsWith_joinLines.
Qed.

Lemma buildComment_first_line cfg s r :
  JS.lacksChar JS.newline s = true ->
  JS.startsWith s "```" = false ->
  JS.includes (buildComment cfg (s +:+ Messages.nl +:+ r)) s = true.
Proof.
  intros Hs Hfence. unfold buildComment.
  apply JSFacts.includes_append_l, JSFacts.includes_startsWith.
  change (s +:+ Messages.nl +:+ r) with (s +:+ String JS.newline r).
  by apply truncate_first_line.
Qed.

(** *** The hash is written with hexadecimal digits *)

Lemma hexDigit_code d :
  0 <= d < 16 -> JS.code (hexDigit d) = if d <? 10 then 48 + d else 87 + d.
Proof.
  intros Hd. unfold hexDigit, JS.code.
  destruct (d <? 10); rewrite N_ascii_embedding; lia.
Qed.

Lemma hexDigit_other c d :
  (JS.code c < 48 \/ 57 < JS.code c < 97 \/ 102 < JS.code c) ->
  0 <= d < 16 -> hexDigit d <> c.
Proof.
  intros Hc Hd E. pose proof (hexDigit_code d Hd) as H. rewrite E in H.
  destruct (Z.ltb_spec d 10); lia.
Qed.

Lemma toHexGo_lacks c fuel n acc :
  (JS.code c < 48 \/ 57 < JS.code c < 97 \/ 102 < JS.code c) ->
  JS.lacksChar c acc = true -> JS.lacksChar c (toHexGo fuel n acc) = true.
Proof.
  intros Hc. revert n acc. induction fuel as [|fuel IH]; intros n acc Hacc; [done|].
  assert (Hd : JS.lacksChar c (String (hexDigit (n mod 16)) acc) = true).
  { simpl. rewrite decide_False; [done|].
    apply hexDigit_other; [done|]. by apply Z.mod_pos_bound. }
  simpl. destruct (n / 16 =? 0); [done|]. by apply IH.
Qed.

Lemma hashString_lacks c input :
  (JS.code c < 48 \/ 57 < JS.code c < 97 \/ 102 < JS.code c) ->
  JS.lacksChar c (hashString input) = true.
Proof. intros Hc. by apply toHexGo_lacks. Qed.

(** *** A signature determines its key *)

Lemma signature_key kind file line header content kind' file' line' header' content' :
  makeUpsertSignature kind file line header content
  = makeUpsertSignature kind' file' line' header' content' ->
  makeStableKey kind file line header content
  = makeStableKey kind' file' line' header' content'.
Proof.
  unfold makeUpsertSignature. intros E.
  apply (inj (String.app _)) in E.
  set (k := makeStableKey kind file line header content) in *.
  set (k' := makeStableKey kind' file' line' header' content') in *.
  assert (E' : hashString k +:+ String ":" (k +:+ " -->")
               = hashString k' +:+ String ":" (k' +:+ " -->")) by exact E.
  apply JSFacts.split_at_first in E' as [_ E'];
    [|apply hashString_lacks; right; left; vm_compute; done..].
  by apply JSFacts.append_inj_r in E'.
Qed.

Lemma firstLineOf_single_line content :
  JS.lacksChar JS.newline (firstLineOf content) = true.
Proof.
  unfold firstLineOf, JS.trim.
  apply JSFacts.lacksChar_toLowerCase, JSFacts.lacksChar_trimEnd,
    JSFacts.lacksChar_trimStart.
  pose proof (JSFacts.splitLines_lines content) as H.
  destruct (JS.splitLines content) as [|l ls]; [done|].
  by apply Forall_cons in H as [H _].
Qed.

Lemma fileNoteSignature_single_line files c :
  JS.lacksChar JS.newline (resolveReviewPath files (Prompts.file c)) = true ->
  JS.lacksChar JS.newline (header c) = true ->
  JS.lacksChar JS.newline (fileNoteSignature files c) = true.
Proof.
  intros Hfile Hheader. unfold fileNoteSignature, makeUpsertSignature, makeStableKey.
  rewrite !JSFacts.lacksChar_append, Hfile.
  rewrite hashString_lacks by (left; vm_compute; done).
  rewrite JSFacts.lacksChar_slice; [done|].
  destruct (JS.truthyStr (header c)); [done|apply firstLineOf_single_line].
Qed.

Lemma fileNoteBody_signed cfg files c :
  JS.lacksChar JS.newline (resolveReviewPath files (Prompts.file c)) = true ->
  JS.lacksChar JS.newline (header c) = true ->
  JS.includes (buildComment cfg (fileNoteBody files c)) (fileNoteSignature files c) = true.
Proof.
  intros Hfile Hheader. unfold fileNoteBody.
  apply buildComment_first_line; [by apply fileNoteSignature_single_line|done].
Qed.

End Signatures.

(** ** Upserting an issue comment *)

Section Upsert.

Import Diff Prompts Comments PullRequest.

Lemma find_take_Some {A} (p : A -> bool) n l x :
  List.find p (take n l) = Some x -> List.find p l = Some x.
Proof.
  revert n. induction l as [|y l IH]; intros [|n]; simpl; try done.
  destruct (p y); [done|]. apply IH.
Qed.

Lemma find_app_None {A} (p : A -> bool) l l' :
  List.find p l = None -> List.find p (l ++ l') = List.find p l'.
Proof. induction l as [|y l IH]; simpl; [done|]. by destruct (p y). Qed.

Lemma find_elem {A} (p : A -> bool) l x :
  x ∈ l -> p x = true -> is_Some (List.find p l).
Proof.
  induction 1 as [y l|y z l _ IH]; simpl; intros Hp.
  - by rewrite Hp.
  - destruct (p z); [done|]. by apply IH.
Qed.

(** The paging loop reads the whole list: it finds the first comment that
    holds the signature. *)
Lemma findSigned_pages ft i h sig fuel k :
  (forall j page, listFails ft j page = false) ->
  (length (drop (PER_PAGE * k) (issueComments h)) < fuel)%nat ->
  findSigned ft i h sig fuel (Z.of_nat k + 1)
  = Ok (List.find (fun c => JS.includes (ic_body c) sig)
                  (drop (PER_PAGE * k) (issueComments h))).
Proof.
  intros Hlist. revert k. induction fuel as [|fuel IH]; intros k Hfuel; [lia|].
  cbn [findSigned]. unfold listComments. rewrite Hlist. cbn [rbind].
  replace (Z.to_nat (Z.of_nat k + 1 - 1)) with k by lia.
  set (rest := drop (PER_PAGE * k) (issueComments h)) in *.
  destruct (List.find _ (take PER_PAGE rest)) as [m|] eqn:Efind.
  - by rewrite (find_take_Some _ _ _ _ Efind).
  - rewrite length_take. destruct (Nat.ltb_spec (PER_PAGE `min` length rest) PER_PAGE) as [Hlt|Hge].
    + rewrite take_ge in Efind by lia. by rewrite Efind.
    + replace (Z.of_nat k + 1 + 1) with (Z.of_nat (S k) + 1) by lia.
      assert (Hdrop : drop (PER_PAGE * S k) (issueComments h) = drop PER_PAGE rest).
      { unfold rest. rewrite drop_drop. f_equal. lia. }
      rewrite IH; rewrite Hdrop.
      * rewrite <- (take_drop PER_PAGE rest) at 2. by rewrite find_app_None.
      * rewrite length_drop. unfold PER_PAGE in *. lia.
Qed.

Lemma upsert_reliable ft i h sig body :
  issuesReliable ft ->
  upsertIssueCommentBySignature ft i h sig body
  = Ok (match List.find (fun c => JS.includes (ic_body c) sig) (issueComments h) with
        | Some c =>
            mkHost (map (fun x => if ic_id x =? ic_id c
                                  then mkIssueComment (ic_id c) body else x)
                        (issueComments h))
                   (nextId h) (trace h ++ [UpdatedIssueComment (ic_id c) body])
        | None =>
            mkHost (issueComments h ++ [mkIssueComment (nextId h) body])
                   (nextId h + 1) (trace h ++ [CreatedIssueComment body])
        end).
Proof.
  intros [Hlist Hwrite]. unfold upsertIssueCommentBySignature.
  rewrite (findSigned_pages ft i h sig _ 0 Hlist) by (rewrite Nat.mul_0_r, drop_0; lia).
  rewrite Nat.mul_0_r, drop_0. cbn [rbind].
  destruct (List.find _ _) as [c|].
  - unfold updateComment. by rewrite Hwrite.
  - unfold createComment. by rewrite Hwrite.
Qed.

Lemma postFileNote_reliable cfg ft files h c :
  issuesReliable ft ->
  Ok (postFileNote cfg ft files h c)
  = upsertIssueCommentBySignature ft O h (fileNoteSignature files c)
      (buildComment cfg (fileNoteBody files c)).
Proof.
  intros Hft. unfold postFileNote, withRetries. cbn [withRetriesGo].
  by rewrite (upsert_reliable ft O h _ _ Hft).
Qed.

(** After an upsert the host accepted, a comment with the body exists. *)
Lemma upsert_posted ft i h sig body h' :
  issuesReliable ft ->
  upsertIssueCommentBySignature ft i h sig body = Ok h' ->
  exists c, c ∈ issueComments h' /\ ic_body c = body.
Proof.
  intros Hft. rewrite (upsert_reliable ft i h sig body Hft). intros [= <-].
  destruct (List.find _ _) as [c|] eqn:Efind; simpl.
  - exists (mkIssueComment (ic_id c) body). split; [|done].
    apply find_some in Efind as [Hin _]. apply list_elem_of_In in Hin.
    apply list_elem_of_fmap. exists c. by rewrite Z.eqb_refl.
  - exists (mkIssueComment (nextId h) body). split; [|done].
    apply elem_of_app. right. by left.
Qed.

(** An upsert on a host that holds a comment with the signature updates a
    comment and creates none. *)
Lemma upsert_updates ft i h sig body :
  issuesReliable ft ->
  (exists c, c ∈ issueComments h /\ JS.includes (ic_body c) sig = true) ->
  exists h' cid,
    upsertIssueCommentBySignature ft i h sig body = Ok h'
    /\ length (issueComments h') = length (issueComments h)
    /\ nextId h' = nextId h
    /\ trace h' = trace h ++ [UpdatedIssueComment cid body].
Proof.
  intros Hft (c & Hin & Hsig). rewrite (upsert_reliable ft i h sig body Hft).
  destruct (find_elem (fun c => JS.includes (ic_body c) sig) _ c Hin Hsig) as [m ->].
  eexists _, (ic_id m). split; [done|]. simpl. by rewrite length_map.
Qed.

(** The signature of the file-level finding [{file: a.ts, header: H,
    content: C}]. *)
Example signature_of_note :
  fileNoteSignature Samples.noteFiles Samples.noteOne
  = "<!-- presubmit.ai: upsert:42065f2:file-note|a.ts|0|H -->".
Proof. vm_compute. reflexivity. Qed.

(** C3, the claim as stated fails: two findings on the file [a.ts] under
    the header [H], with different contents, have one signature; posted one
    after the other on a host without comments they leave one comment, that
    of the second finding. *)
Lemma changed_note_overwrites :
  Prompts.file Samples.noteOne = Prompts.file Samples.noteTwo
  /\ header Samples.noteOne = header Samples.noteTwo
  /\ content Samples.noteOne <> content Samples.noteTwo
  /\ fileNoteSignature Samples.noteFiles Samples.noteOne
     = fileNoteSignature Samples.noteFiles Samples.noteTwo
  /\ issueComments (postFileNotes Samples.defaultConfig Samples.noFaults
                      Samples.noteFiles Samples.emptyHost
                      [Samples.noteOne; Samples.noteTwo])
     = [mkIssueComment 1 (buildComment Samples.defaultConfig
                            (fileNoteBody Samples.noteFiles Samples.noteTwo))].
Proof.
  split; [done|]. split; [done|]. split; [discriminate|].
  split; vm_compute; reflexivity.
Qed.

(** C3, as the code has it.  The signature of a file-level finding is a
    function of the resolved file and of the first 80 characters of the
    header or, when the header is empty, of the first line of the content,
    trimmed and in lower case: findings that agree on these have one
    signature, and with an empty header and different first lines the
    signatures differ.  On a host that accepts the calls, and for a path and
    a header without line break, posting a finding and then a finding with
    the same signature (the same finding again, or one that differs in its
    content under the same header) updates the comment posted first and
    creates none. *)
Theorem file_note_upsert (cfg : Config) (ft : Faults) (files : list FileDiff)
    (h : Host) (c c' : AIComment) :
  resolveReviewPath files (Prompts.file c) = resolveReviewPath files (Prompts.file c') ->
  (header c = header c' ->
   JS.truthyStr (header c) = true
   \/ JS.slice (firstLineOf (content c)) 0 80 = JS.slice (firstLineOf (content c')) 0 80 ->
   fileNoteSignature files c = fileNoteSignature files c')
  /\ (header c = EmptyString -> header c' = EmptyString ->
      JS.slice (firstLineOf (content c)) 0 80 <> JS.slice (firstLineOf (content c')) 0 80 ->
      fileNoteSignature files c <> fileNoteSignature files c')
  /\ (issuesReliable ft ->
      JS.lacksChar JS.newline (resolveReviewPath files (Prompts.file c)) = true ->
      JS.lacksChar JS.newline (header c) = true ->
      fileNoteSignature files c' = fileNoteSignature files c ->
      let h1 := postFileNote cfg ft files h c in
      let h2 := postFileNote cfg ft files h1 c' in
      length (issueComments h2) = length (issueComments h1)
      /\ exists cid,
           trace h2 = trace h1
                      ++ [UpdatedIssueComment cid (buildComment cfg (fileNoteBody files c'))]).
Proof.
  intros Hfile. split; [|split].
  - intros Hheader Hsame. unfold fileNoteSignature, makeUpsertSignature, makeStableKey.
    rewrite <- Hfile, <- Hheader.
    destruct (JS.truthyStr (header c)); [done|].
    destruct Hsame as [Ht|Hs]; [done|by rewrite Hs].
  - intros Hc Hc' Hdiff E. apply signature_key in E.
    unfold makeStableKey in E. rewrite Hfile, Hc, Hc' in E. simpl in E.
    by repeat apply (inj (String.app _)) in E.
  - intros Hft Hpath Hheader Hsig h1 h2.
    pose proof (postFileNote_reliable cfg ft files h c Hft) as E1.
    symmetry in E1. apply upsert_posted in E1 as (x & Hx & Hbody); [|done].
    destruct (upsert_updates ft O h1 (fileNoteSignature files c')
                (buildComment cfg (fileNoteBody files c')) Hft)
      as (h' & cid & E2 & Hlen & _ & Htrace).
    { exists x. split; [done|]. rewrite Hsig, Hbody. by apply fileNoteBody_signed. }
    rewrite <- (postFileNote_reliable cfg ft files h1 c' Hft) in E2.
    injection E2 as <-. fold h2 in Hlen, Htrace. split; [done|]. by exists cid.
Qed.

End Upsert.

(** ** The worker pool *)

Section WorkerPool.

Import PullRequest.

Context {T R : Type} (items : list T) (worker : T -> R) (concurrency : nat).

Abbreviation poolInv := (poolInvariant items worker concurrency).

Lemma poolInv_init : poolInv (initPool items concurrency).
Proof.
  unfold poolInvariant, initPool. simpl. rewrite !length_replicate.
  split; [done|]. split; [intros i x _ Hi; lia|].
  split; [by intros w [? ?]%lookup_replicate|].
  split; [by intros w i [? ?]%lookup_replicate|done].
Qed.

Lemma poolInv_step p q : poolInv p -> poolStep items worker p q -> poolInv q.
Proof.
  intros (Hlen & Hres & Hfin & Hbusy & Hw) Hstep.
  destruct Hstep as [p w i Hidle Hnext Hi|p w Hidle Hn|p w i x Hb Hx];
    unfold poolInvariant; simpl.
  - split; [done|]. split; [|split; [|split]].
    + intros j y Hy Hj. destruct (decide (j = i)) as [->|Hne].
      * right. exists w. apply list_lookup_insert_eq. by eapply lookup_lt_Some.
      * destruct (Hres j y Hy ltac:(lia)) as [?|[w' Hw']]; [by left|].
        right. exists w'. rewrite list_lookup_insert_ne; [done|]. congruence.
    + intros w' Hw'. destruct (decide (w = w')) as [->|Hne].
      * rewrite list_lookup_insert_eq in Hw' by (by eapply lookup_lt_Some). done.
      * rewrite list_lookup_insert_ne in Hw' by done. specialize (Hfin _ Hw'). lia.
    + intros w' j Hw'. destruct (decide (w = w')) as [->|Hne].
      * rewrite list_lookup_insert_eq in Hw' by (by eapply lookup_lt_Some).
        by injection Hw' as <-.
      * rewrite list_lookup_insert_ne in Hw' by done. by eapply Hbusy.
    + by rewrite length_insert.
  - split; [done|]. split; [|split; [|split]].
    + intros j y Hy Hj. apply lookup_lt_Some in Hy as Hlt.
      destruct (Hres j y Hy ltac:(lia)) as [?|[w' Hw']]; [by left|].
      right. exists w'. rewrite list_lookup_insert_ne; [done|]. congruence.
    + intros w' Hw'. lia.
    + intros w' j Hw'. destruct (decide (w = w')) as [->|Hne].
      * rewrite list_lookup_insert_eq in Hw' by (by eapply lookup_lt_Some). done.
      * rewrite list_lookup_insert_ne in Hw' by done. by eapply Hbusy.
    + by rewrite length_insert.
  - split; [by rewrite length_insert|]. split; [|split; [|split]].
    + intros j y Hy Hj. destruct (decide (j = i)) as [->|Hne].
      * left. rewrite list_lookup_insert_eq; [congruence|].
        rewrite Hlen. by eapply lookup_lt_Some.
      * rewrite list_lookup_insert_ne by done.
        destruct (Hres j y Hy Hj) as [?|[w' Hw']]; [by left|].
        right. exists w'. rewrite list_lookup_insert_ne; [done|]. congruence.
    + intros w' Hw'. destruct (decide (w = w')) as [->|Hne].
      * rewrite list_lookup_insert_eq in Hw' by (by eapply lookup_lt_Some). done.
      * rewrite list_lookup_insert_ne in Hw' by done. by eapply Hfin.
    + intros w' j Hw'. destruct (decide (w = w')) as [->|Hne].
      * rewrite list_lookup_insert_eq in Hw' by (by eapply lookup_lt_Some). done.
      * rewrite list_lookup_insert_ne in Hw' by done. by eapply Hbusy.
    + by rewrite length_insert.
Qed.

Lemma poolInv_run p q : poolInv p -> poolRun items worker p q -> poolInv q.
Proof.
  intros Hp Hrun. induction Hrun as [|a b c Hab IH Hbc]; [done|].
  apply (poolInv_step b c); [by apply IH|done].
Qed.

(** When every worker has left its loop, every item has its result. *)
Lemma pool_finished_results p :
  (0 < concurrency)%nat -> poolInv p -> allFinished p ->
  results p = map (fun x => Some (worker x)) items.
Proof.
  intros Hc (Hlen & Hres & Hfin & _ & Hw) Hall.
  apply list_eq. intros i. rewrite list_lookup_fmap.
  destruct (items !! i) as [x|] eqn:Hx; simpl.
  - apply lookup_lt_Some in Hx as Hlt.
    assert (Hnext : (length items <= nextIdx p)%nat).
    { unfold allFinished in Hall.
      destruct (workers p) as [|w0 ws]; [simpl in Hw; lia|].
      apply (Hfin O). simpl. f_equal. by apply Forall_cons in Hall as [-> _]. }
    destruct (Hres i x Hx ltac:(lia)) as [?|[w Hbusy]]; [done|].
    unfold allFinished in Hall.
    by pose proof (proj1 (Forall_lookup _ _) Hall w _ Hbusy).
  - apply lookup_ge_None. rewrite Hlen. by apply lookup_ge_None.
Qed.

Lemma sum_list_insert (f : Worker -> nat) ws w old new :
  ws !! w = Some old ->
  (sum_list (f <$> <[w := new]> ws) + f old = sum_list (f <$> ws) + f new)%nat.
Proof.
  revert w. induction ws as [|y ws IH]; intros [|w] H; simplify_eq/=; [lia|].
  specialize (IH w H). lia.
Qed.

Lemma poolStep_work p q :
  poolStep items worker p q -> (poolWork items q < poolWork items p)%nat.
Proof.
  unfold poolWork.
  intros [p' w i Hidle Hnext Hi|p' w Hidle Hn|p' w i x Hb Hx]; simpl.
  - pose proof (sum_list_insert workerWeight _ _ _ (Busy i) Hidle). simpl in *. lia.
  - pose proof (sum_list_insert workerWeight _ _ _ Finished Hidle). simpl in *. lia.
  - pose proof (sum_list_insert workerWeight _ _ _ Idle Hb). simpl in *. lia.
Qed.

(** A worker that has not left its loop can take a step. *)
Lemma pool_progress p :
  poolInv p -> ~ allFinished p -> exists q, poolStep items worker p q.
Proof.
  intros (_ & _ & _ & Hbusy & _) Hnot.
  apply not_Forall_Exists in Hnot; [|intros w; apply _].
  apply Exists_exists in Hnot as (wk & Hin & Hne).
  apply list_elem_of_lookup in Hin as [w Hw].
  destruct wk as [|i|]; [| |by destruct Hne].
  - destruct (decide (nextIdx p < length items)%nat).
    + eexists. by eapply step_take.
    + eexists. eapply step_leave; [done|lia].
  - destruct (lookup_lt_is_Some_2 items i (Hbusy _ _ Hw)) as [x Hx].
    eexists. by eapply step_settle.
Qed.

(** The pool comes to an end, whatever the order of the steps so far. *)
Lemma pool_terminates p :
  poolInv p -> exists q, poolRun items worker p q /\ allFinished q.
Proof.
  remember (poolWork items p) as n eqn:Hn. revert p Hn.
  induction n as [n IH] using lt_wf_ind. intros p -> Hinv.
  destruct (decide (allFinished p)) as [Hall|Hnot].
  - exists p. split; [constructor|done].
  - destruct (pool_progress p Hinv Hnot) as [q Hstep].
    destruct (IH _ (poolStep_work _ _ Hstep) q eq_refl (poolInv_step _ _ Hinv Hstep))
      as (r & Hrun & Hall).
    exists r. split; [|done].
    clear -Hstep Hrun. induction Hrun as [|a b c _ IHrun Hbc].
    + eapply run_step; [constructor|done].
    + eapply run_step; [by apply IHrun|done].
Qed.

End WorkerPool.

(** ** Fallback of a rejected batch *)

Section Fallback.

Import Diff Prompts Comments PullRequest.

Lemma upsert_trace ft i h sig body h' :
  upsertIssueCommentBySignature ft i h sig body = Ok h' ->
  exists ev, trace h' = trace h ++ [ev] /\ eventBody ev = body.
Proof.
  unfold upsertIssueCommentBySignature, updateComment, createComment.
  destruct (findSigned _ _ _ _ _ _) as [[c|]|]; simpl; [| |done];
    destruct (issueWriteFails ft i body); intros [= <-]; simpl; eauto.
Qed.

Lemma fallbackStep_trace cfg ft files lineComments h jr :
  exists more, trace (fallbackStep cfg ft files lineComments h jr) = trace h ++ more.
Proof.
  destruct jr as [cm res]. unfold fallbackStep.
  destruct (isRejected res); [|exists []; by rewrite app_nil_r].
  destruct (upsertIssueCommentBySignature _ _ _ _ _) as [h'|e] eqn:E; simpl.
  - apply upsert_trace in E as (ev & -> & _). by exists [ev].
  - exists []. by rewrite app_nil_r.
Qed.

Lemma fallback_loop_trace cfg ft files lineComments l h :
  exists more,
    trace (fold_left (fallbackStep cfg ft files lineComments) l h) = trace h ++ more.
Proof.
  revert h. induction l as [|jr l IH]; intros h; simpl.
  - exists []. by rewrite app_nil_r.
  - destruct (IH (fallbackStep cfg ft files lineComments h jr)) as [more ->].
    destruct (fallbackStep_trace cfg ft files lineComments h jr) as [more0 ->].
    exists (more0 ++ more). by rewrite app_assoc.
Qed.

Lemma zip_with_results {A B} (f : A -> B) (l : list A) x :
  x ∈ l -> (x, f x) ∈ zip l (map f l).
Proof.
  induction 1 as [y l|y z l _ IH]; simpl; [by left|by right].
Qed.

Lemma fence_block_includes pre code :
  JS.includes (Messages.nl +:+ Messages.nl +:+ fence +:+ pre +:+ code
               +:+ Messages.nl +:+ fence) fence = true.
Proof.
  do 2 apply JSFacts.includes_append_r.
  apply JSFacts.includes_startsWith, JSFacts.startsWith_append.
Qed.

Lemma excerptBlock_cases (ex : option string) :
  let block :=
    match ex with
    | Some e =>
        if JS.truthyStr e
        then Messages.nl +:+ Messages.nl +:+ fence +:+ "diff" +:+ Messages.nl
             +:+ e +:+ Messages.nl +:+ fence
        else EmptyString
    | None => EmptyString
    end in
  let has := match ex with Some e => JS.truthyStr e | None => false end in
  (has = true -> JS.includes block fence = true)
  /\ (has = false -> block = EmptyString).
Proof.
  destruct ex as [e|]; cbv zeta; [|done].
  destruct (JS.truthyStr e); [|done].
  split; [intros _|done].
  rewrite <- (JSFacts.append_assoc "diff" Messages.nl). apply fence_block_includes.
Qed.

Lemma fallbackCodeBlock_cases files lineComments cm :
  (hasExcerpt files lineComments cm = true ->
   JS.includes (fallbackCodeBlock files lineComments cm) fence = true)
  /\ (hasExcerpt files lineComments cm = false ->
      fallbackCodeBlock files lineComments cm = EmptyString).
Proof.
  unfold hasExcerpt, fallbackCodeBlock. cbv zeta.
  pose proof (excerptBlock_cases
                (getUnifiedExcerpt files (resolveReviewPath files (rc_path cm))
                                   (rc_line cm) 2)) as Hex.
  cbv zeta in Hex.
  destruct (originOf lineComments cm) as [o|]; [|exact Hex].
  destruct (JS.truthyStr (highlighted_code o) && nonBlank (highlighted_code o));
    [|exact Hex].
  split; [intros _; apply fence_block_includes|done].
Qed.

Lemma chunkGo_concat {A} fuel (arr : list A) size :
  (0 < size)%nat -> (length arr <= fuel)%nat ->
  concat (chunkGo fuel arr size) = arr.
Proof.
  intros Hsize. revert arr. induction fuel as [|fuel IH]; intros arr Hlen.
  - destruct arr; [done|simpl in Hlen; lia].
  - destruct arr as [|x arr]; [done|].
    cbn [chunkGo concat]. rewrite IH; [apply take_drop|].
    rewrite length_drop. simpl in *. lia.
Qed.

(** Every new anchored comment lies in a batch, in order. *)
Lemma reviewBatches_concat cfg files idx lineComments :
  concat (reviewBatches cfg files idx lineComments)
  = map (commentData cfg files) (anchorComments files idx lineComments).
Proof.
  unfold reviewBatches, chunk, MAX_COMMENTS_PER_REVIEW.
  change (50 <=? 0) with false. cbn iota.
  apply chunkGo_concat; [lia|done].
Qed.


End Fallback.

(** ** Truncation of code blocks *)

Section Truncation.

Import Comments Blocks.

Lemma joinLines_cons_char c l ls :
  JS.joinLines (String c l :: ls) = String c (JS.joinLines (l :: ls)).
Proof. by destruct ls. Qed.

Lemma splitLines_nonempty s : JS.splitLines s <> [].
Proof.
  induction s as [|c s IH]; simpl; [done|].
  destruct (decide (c = JS.newline)); [done|]. by destruct (JS.splitLines s).
Qed.

(** Joining the lines of a text gives the text back. *)
Lemma joinLines_splitLines s : JS.joinLines (JS.splitLines s) = s.
Proof.
  induction s as [|c s IH]; [done|]. simpl.
  destruct (decide (c = JS.newline)) as [->|Hne].
  - pose proof (splitLines_nonempty s) as Hs.
    destruct (JS.splitLines s) as [|l ls] eqn:E; [done|].
    change (JS.joinLines (EmptyString :: l :: ls))
      with (EmptyString +:+ String JS.newline (JS.joinLines (l :: ls))).
    by rewrite IH.
  - destruct (JS.splitLines s) as [|l ls] eqn:E.
    + by destruct (splitLines_nonempty s).
    + rewrite joinLines_cons_char. by rewrite IH.
Qed.

Lemma splitLines_single s :
  JS.lacksChar JS.newline s = true -> JS.splitLines s = [s].
Proof.
  induction s as [|c s IH]; [done|]. simpl.
  destruct (decide (c = JS.newline)); [done|]. intros H. by rewrite IH.
Qed.

(** Splitting the joined lines gives the lines back. *)
Lemma splitLines_joinLines l :
  l <> [] -> Forall (fun x => JS.lacksChar JS.newline x = true) l ->
  JS.splitLines (JS.joinLines l) = l.
Proof.
  induction l as [|x l IH]; [done|]. intros _ Hl.
  apply Forall_cons in Hl as [Hx Hl].
  destruct l as [|y l]; [by apply splitLines_single|].
  change (JS.joinLines (x :: y :: l))
    with (x +:+ String JS.newline (JS.joinLines (y :: l))).
  rewrite JSFacts.splitLines_first_line by done.
  by rewrite IH.
Qed.

Lemma truncStep_emitted m st ln :
  out (truncStep m st ln) = rev (emitted m st ln) ++ out st.
Proof.
  unfold truncStep, emitted.
  destruct (JS.startsWith ln "```"), (inFence st); simpl; try done.
  destruct (_ <=? _); simpl; [done|]. by destruct (_ =? _).
Qed.

Lemma trunc_loop_emitted m lines st :
  out (fold_left (truncStep m) lines st) = rev (emittedAll m st lines) ++ out st.
Proof.
  revert st. induction lines as [|ln lines IH]; intros st; simpl; [done|].
  rewrite IH, truncStep_emitted, rev_app_distr, app_assoc. done.
Qed.

Lemma truncateCodeBlocks_lines text m :
  truncateCodeBlocks text m
  = JS.joinLines (emittedAll m (mkTrunc false 0 []) (JS.splitLines text)).
Proof.
  unfold truncateCodeBlocks. rewrite trunc_loop_emitted. simpl.
  by rewrite app_nil_r, rev_involutive.
Qed.

(** What the output depends on: whether a fence is open, and the count. *)
Lemma emitted_state m st st' ln :
  inFence st = inFence st' -> codeLines st = codeLines st' ->
  emitted m st ln = emitted m st' ln.
Proof. unfold emitted. by intros -> ->. Qed.

Lemma truncStep_state m st st' ln :
  inFence st = inFence st' -> codeLines st = codeLines st' ->
  inFence (truncStep m st ln) = inFence (truncStep m st' ln)
  /\ codeLines (truncStep m st ln) = codeLines (truncStep m st' ln).
Proof.
  unfold truncStep. intros -> ->.
  destruct (JS.startsWith ln "```"), (inFence st'); simpl; try done.
  destruct (_ <=? _); simpl; [done|]. by destruct (_ =? _).
Qed.

Lemma mark_not_fence : JS.startsWith TRUNCATED_MARK "```" = false.
Proof. reflexivity. Qed.

Lemma follows_step m st1 st2 ln :
  follows m st1 st2 ->
  emittedAll m st2 (emitted m st1 ln) = emitted m st1 ln
  /\ follows m (truncStep m st1 ln)
             (fold_left (truncStep m) (emitted m st1 ln) st2).
Proof.
  intros [Hf Hc]. unfold emitted at 1 2 3.
  unfold truncStep at 1.
  destruct (JS.startsWith ln "```") eqn:Hfence.
  - (* a fence line *)
    simpl. unfold emitted, truncStep. rewrite Hfence, Hf.
    destruct (inFence st1); simpl.
    + split; [done|]. split; [done|]. done.
    + split; [done|]. split; [done|]. intros _. simpl. split; lia.
  - destruct (inFence st1) eqn:Hin.
    + destruct (Hc eq_refl) as [H0 Hc2].
      destruct (Z.leb_spec (codeLines st1 + 1) m) as [Hle|Hgt].
      * simpl. unfold emitted, truncStep. rewrite Hfence, Hf.
        rewrite Hc2. rewrite Z.min_l by lia.
        destruct (Z.leb_spec (codeLines st1 + 1) m); [|lia]. simpl.
        split; [done|]. split; [done|]. intros _. simpl. split; lia.
      * destruct (Z.eqb_spec (codeLines st1 + 1) (m + 1)) as [He|Hne].
        -- simpl. unfold emitted, truncStep. rewrite mark_not_fence, Hf.
           rewrite Hc2. rewrite Z.min_l by lia.
           destruct (Z.leb_spec (codeLines st1 + 1) m); [lia|].
           destruct (Z.eqb_spec (codeLines st1 + 1) (m + 1)); [|lia]. simpl.
           split; [done|]. split; [done|]. intros _. simpl. split; lia.
        -- simpl. split; [done|]. split; [done|]. intros _. simpl. split; lia.
    + simpl. unfold emitted, truncStep. rewrite Hfence, Hf.
      split; [done|]. split; [done|]. done.
Qed.

Lemma emittedAll_app m st l l' :
  emittedAll m st (l ++ l')
  = emittedAll m st l ++ emittedAll m (fold_left (truncStep m) l st) l'.
Proof.
  revert st. induction l as [|x l IH]; intros st; simpl; [done|].
  by rewrite IH, app_assoc.
Qed.

Lemma follows_loop m lines st1 st2 :
  follows m st1 st2 ->
  emittedAll m st2 (emittedAll m st1 lines) = emittedAll m st1 lines.
Proof.
  revert st1 st2. induction lines as [|ln lines IH]; intros st1 st2 H; [done|].
  cbn [emittedAll]. rewrite emittedAll_app.
  destruct (follows_step m st1 st2 ln H) as [-> Hnext].
  f_equal. by apply IH.
Qed.

Lemma follows_init m : follows m (mkTrunc false 0 []) (mkTrunc false 0 []).
Proof. by split. Qed.

Lemma emittedAll_lines m st lines :
  Forall (fun x => JS.lacksChar JS.newline x = true) lines ->
  Forall (fun x => JS.lacksChar JS.newline x = true) (emittedAll m st lines).
Proof.
  intros H. revert st. induction H as [|ln lines Hln _ IH]; intros st; simpl; [done|].
  apply Forall_app. split; [|apply IH].
  unfold emitted. repeat case_match; repeat constructor; done.
Qed.

Lemma emittedAll_first m lines :
  lines <> [] -> emittedAll m (mkTrunc false 0 []) lines <> [].
Proof.
  destruct lines as [|ln lines]; [done|]. intros _. simpl.
  unfold emitted. simpl. by destruct (JS.startsWith ln "```").
Qed.

(** Truncating twice is truncating once. *)
Theorem truncateCodeBlocks_idempotent (text : string) (maxLines : Z) :
  truncateCodeBlocks (truncateCodeBlocks text maxLines) maxLines
  = truncateCodeBlocks text maxLines.
Proof.
  rewrite !truncateCodeBlocks_lines.
  rewrite splitLines_joinLines.
  - by rewrite (follows_loop maxLines _ _ _ (follows_init maxLines)).
  - apply emittedAll_first, splitLines_nonempty.
  - apply emittedAll_lines, JSFacts.splitLines_lines.
Qed.

Lemma blockLengths_open k rest :
  exists v more, blockLengths (Some k) rest = v :: more /\ k <= v.
Proof.
  revert k. induction rest as [|ln rest IH]; intros k; simpl.
  - exists k, []. split; [done|lia].
  - destruct (JS.startsWith ln "```").
    + exists k, (blockLengths None rest). split; [done|lia].
    + destruct (IH (k + 1)) as (v & more & -> & Hv). exists v, more. split; [done|lia].
Qed.

Lemma blocks_of_output m lines st open :
  reads m st open ->
  Forall (fun n => n <= Z.max (m + 1) 0) (blockLengths open (emittedAll m st lines)).
Proof.
  revert st open. induction lines as [|ln lines IH]; intros st open H.
  - simpl. destruct open as [n|]; [|done].
    destruct H as (_ & _ & ->). repeat constructor. lia.
  - cbn [emittedAll]. unfold emitted at 1. unfold truncStep at 1.
    destruct (JS.startsWith ln "```") eqn:Hfence.
    + cbn [app blockLengths]. rewrite Hfence.
      destruct open as [n|].
      * destruct H as (Hin & H0 & ->). rewrite Hin. cbn [negb].
        constructor; [lia|]. by apply IH.
      * red in H. rewrite H. cbn [negb]. apply IH. simpl. lia.
    + destruct open as [n|].
      * destruct H as (Hin & H0 & ->). rewrite Hin.
        destruct (Z.leb_spec (codeLines st + 1) m).
        -- cbn [app blockLengths]. rewrite Hfence. apply IH. simpl. lia.
        -- destruct (Z.eqb_spec (codeLines st + 1) (m + 1)).
           ++ cbn [app blockLengths]. rewrite mark_not_fence. apply IH. simpl. lia.
           ++ cbn [app]. apply IH. simpl. lia.
      * red in H. rewrite H. cbn [app blockLengths]. rewrite Hfence. by apply IH.
Qed.

(** After the truncation no fenced code block has more than [maxLines + 1]
    lines: [maxLines] lines of code and the line that says more were
    omitted. *)
Theorem truncateCodeBlocks_bounded (text : string) (maxLines : Z) :
  Forall (fun n => n <= Z.max (maxLines + 1) 0)
         (codeBlocks (truncateCodeBlocks text maxLines)).
Proof.
  unfold codeBlocks. rewrite truncateCodeBlocks_lines, splitLines_joinLines.
  - by apply blocks_of_output.
  - apply emittedAll_first, splitLines_nonempty.
  - apply emittedAll_lines, JSFacts.splitLines_lines.
Qed.

Lemma short_blocks_kept m lines st open :
  match open with
  | Some n => inFence st = true /\ n = codeLines st
  | None => inFence st = false
  end ->
  Forall (fun n => n <= m) (blockLengths open lines) ->
  emittedAll m st lines = lines.
Proof.
  revert st open. induction lines as [|ln lines IH]; intros st open H Hshort; [done|].
  cbn [emittedAll]. unfold emitted at 1. unfold truncStep at 1.
  cbn [blockLengths] in Hshort.
  destruct (JS.startsWith ln "```") eqn:Hfence.
  - cbn [app]. f_equal. destruct open as [n|].
    + destruct H as [Hin ->]. rewrite Hin. cbn [negb].
      apply Forall_cons in Hshort as [_ Hshort]. by apply (IH _ None).
    + rewrite H. cbn [negb]. by apply (IH _ (Some 0)).
  - destruct open as [n|].
    + destruct H as [Hin ->]. rewrite Hin.
      destruct (blockLengths_open (codeLines st + 1) lines) as (v & more & E & Hv).
      assert (Hvm : v <= m).
      { pose proof Hshort as Hs. rewrite E in Hs. by apply Forall_cons in Hs as [? _]. }
      destruct (Z.leb_spec (codeLines st + 1) m); [|lia].
      cbn [app]. f_equal. by apply (IH _ (Some (codeLines st + 1))).
    + rewrite H. cbn [app]. f_equal. by apply (IH _ None).
Qed.

(** A text whose fenced code blocks have at most [maxLines] lines each, and
    so a text without a fence, is left as it is. *)
Theorem truncateCodeBlocks_short_unchanged (text : string) (maxLines : Z) :
  Forall (fun n => n <= maxLines) (codeBlocks text) ->
  truncateCodeBlocks text maxLines = text.
Proof.
  intros H. rewrite truncateCodeBlocks_lines.
  rewrite (short_blocks_kept maxLines _ _ None); [apply joinLines_splitLines|done|done].
Qed.

End Truncation.

(** ** The threads of a listing *)

Section ThreadGrouping.

Import Comments Threads PullRequest.

Lemma thread_loop_tops cs replies tops :
  snd (fold_left threadStep cs (replies, tops))
  = tops ++ filter (fun c => isTopLevel c = true) cs.
Proof.
  revert replies tops. induction cs as [|c cs IH]; intros replies tops; simpl.
  - by rewrite app_nil_r.
  - rewrite (filter_cons_true isTopLevel). unfold isTopLevel.
    destruct (isReply c); simpl; [apply IH|].
    destruct ((0 <? JS.strlen (body c)) && hasAnchor c); simpl.
    + rewrite IH. by rewrite <- app_assoc.
    + apply IH.
Qed.

Lemma thread_loop_replies cs replies tops p :
  default [] (fst (fold_left threadStep cs (replies, tops)) !! p)
  = default [] (replies !! p) ++ repliesTo p cs.
Proof.
  revert replies tops. induction cs as [|c cs IH]; intros replies tops; simpl.
  - by rewrite app_nil_r.
  - unfold repliesTo. rewrite (filter_cons_true
      (fun c => isReply c && bool_decide (in_reply_to_id c = Some p))).
    fold (repliesTo p cs).
    destruct (isReply c) eqn:Hr; simpl.
    + rewrite IH. unfold isReply, JS.truthyNum in Hr.
      destruct (in_reply_to_id c) as [q|] eqn:Hq; [|done]. simpl.
      rewrite lookup_insert. case_decide as Hpq.
      * subst q. rewrite bool_decide_eq_true_2 by done. simpl.
        by rewrite <- app_assoc.
      * rewrite bool_decide_eq_false_2 by congruence. done.
    + destruct ((0 <? JS.strlen (body c)) && hasAnchor c); apply IH.
Qed.

(** The threads of a listing of review comments: one for each comment that
    is not a reply and has a body and an anchor, in the order of the
    listing; it holds that comment and then the replies to it, in the order
    of the listing. *)
Theorem generateCommentThreads_groups (cs : list ReviewComment) :
  generateCommentThreads cs
  = map (fun top => mkThread (path top) (top :: repliesTo (id top) cs))
        (filter (fun c => isTopLevel c = true) cs)
  /\ Forall (fun t => exists top rest,
                comments t = top :: rest /\ Comments.file t = path top
                /\ isReply top = false
                /\ Forall (fun r => in_reply_to_id r = Some (id top)) rest
                /\ is_Some (threadKey t))
            (generateCommentThreads cs).
Proof.
  assert (E : generateCommentThreads cs
              = map (fun top => mkThread (path top) (top :: repliesTo (id top) cs))
                    (filter (fun c => isTopLevel c = true) cs)).
  { unfold generateCommentThreads.
    pose proof (thread_loop_tops cs ∅ []) as Ht.
    pose proof (fun p => thread_loop_replies cs ∅ [] p) as Hr.
    destruct (fold_left threadStep cs (∅, [])) as [replies tops].
    simpl in Ht, Hr. subst tops. apply map_ext. intros top. by rewrite Hr. }
  split; [done|]. rewrite E. apply Forall_forall. intros t Ht.
  apply list_elem_of_fmap in Ht as (top & -> & Htop).
  apply list_elem_of_filter in Htop as [Htop _].
  exists top, (repliesTo (id top) cs). simpl.
  split; [done|]. split; [done|]. split.
  { unfold isTopLevel in Htop. by destruct (isReply top). }
  split; [|by unfold threadKey; simpl].
  apply Forall_forall. intros r Hr.
  apply list_elem_of_filter in Hr as [Hr _].
  apply andb_true_iff in Hr as [_ Hr]. by apply bool_decide_eq_true in Hr.
Qed.

End ThreadGrouping.

(** ** Paging *)

Section PagingFacts.

Import Diff PullRequest Paging.

Lemma servePage_at {A} (items : list A) k :
  servePage items (Z.of_nat k + 1) = take PER_PAGE (drop (PER_PAGE * k) items).
Proof. unfold servePage. do 3 f_equal. lia. Qed.

Lemma fetchPagesGo_serve {A} (items : list A) fuel k all :
  (length (drop (PER_PAGE * k) items) / PER_PAGE < fuel)%nat ->
  fetchPagesGo (servePage items) fuel (Z.of_nat k + 1) all
  = Some (all ++ drop (PER_PAGE * k) items,
          Z.of_nat (k + length (drop (PER_PAGE * k) items) / PER_PAGE) + 1).
Proof.
  revert k all. induction fuel as [|fuel IH]; intros k all Hfuel; [lia|].
  cbn [fetchPagesGo]. rewrite !servePage_at.
  set (rest := drop (PER_PAGE * k) items) in *.
  rewrite length_take.
  destruct (Nat.ltb_spec (PER_PAGE `min` length rest) PER_PAGE) as [Hlt|Hge].
  - rewrite take_ge by lia. rewrite Nat.div_small by lia.
    by rewrite Nat.add_0_r.
  - replace (Z.of_nat k + 1 + 1) with (Z.of_nat (S k) + 1) by lia.
    assert (Hdrop : drop (PER_PAGE * S k) items = drop PER_PAGE rest).
    { unfold rest. rewrite drop_drop. f_equal. lia. }
    assert (Hlen : length rest = (length (drop PER_PAGE rest) + 1 * PER_PAGE)%nat).
    { rewrite length_drop. lia. }
    assert (Hdiv : (length rest / PER_PAGE
                    = S (length (drop PER_PAGE rest) / PER_PAGE))%nat).
    { rewrite Hlen at 1. rewrite Nat.div_add by done. lia. }
    rewrite IH; rewrite Hdrop.
    + rewrite <- app_assoc, take_drop. do 3 f_equal. lia.
    + lia.
Qed.

(** Read from a host that serves an unchanging listing, the loop answers
    with the whole listing, in order, after [n / 100 + 1] requests for [n]
    items: a listing of a multiple of 100 items costs one request for a
    page that is empty. *)
Theorem fetchAllPullRequestFiles_complete (files : list File) (fuel : nat) :
  (length files / PER_PAGE < fuel)%nat ->
  fetchAllPullRequestFiles (servePage files) fuel
  = Some (files, Z.of_nat (length files / PER_PAGE) + 1).
Proof.
  intros Hfuel. unfold fetchAllPullRequestFiles.
  pose proof (fetchPagesGo_serve files fuel 0 []) as H.
  rewrite Nat.mul_0_r, drop_0 in H. by apply H.
Qed.

Lemma ceil_step n size :
  (0 < size)%nat -> (1 <= n)%nat ->
  (S ((n - size + size - 1) / size) = (n + size - 1) / size)%nat.
Proof.
  intros Hsize Hn. destruct (Nat.le_gt_cases size n) as [Hge|Hlt].
  - replace (n - size + size - 1)%nat with (n - 1)%nat by lia.
    replace (n + size - 1)%nat with ((n - 1) + 1 * size)%nat by lia.
    rewrite Nat.div_add by lia. lia.
  - replace (n - size + size - 1)%nat with (size - 1)%nat by lia.
    rewrite (Nat.div_small (size - 1)) by lia.
    apply Nat.div_unique with (r := (n - 1)%nat); lia.
Qed.

Lemma chunkGo_shape {A} fuel (arr : list A) size :
  (0 < size)%nat -> (length arr <= fuel)%nat ->
  Forall (fun b => (0 < length b <= size)%nat) (chunkGo fuel arr size)
  /\ (length (chunkGo fuel arr size) = (length arr + size - 1) / size)%nat
  /\ forall i, (i * size < length arr)%nat ->
       chunkGo fuel arr size !! i = Some (take size (drop (i * size) arr)).
Proof.
  intros Hsize. revert arr. induction fuel as [|fuel IH]; intros arr Hlen.
  - destruct arr; [|simpl in Hlen; lia]. simpl.
    split; [done|]. split; [|intros i; lia].
    symmetry. apply Nat.div_small. lia.
  - destruct arr as [|x arr].
    + simpl. split; [done|]. split; [|intros i; lia].
      symmetry. apply Nat.div_small. lia.
    + cbn [chunkGo].
      destruct (IH (drop size (x :: arr))) as (Hall & Hcount & Hith).
      { rewrite length_drop. simpl in *. lia. }
      split; [|split].
      * constructor; [|done]. rewrite length_take. simpl. lia.
      * change (length (take size (x :: arr) :: chunkGo fuel (drop size (x :: arr)) size))
          with (S (length (chunkGo fuel (drop size (x :: arr)) size))).
        rewrite Hcount, length_drop. apply ceil_step; [done|simpl; lia].
      * intros [|i] Hi; [by rewrite drop_0|].
        cbn [lookup list_lookup]. rewrite Hith.
        -- by rewrite drop_drop.
        -- rewrite length_drop. lia.
Qed.

End PagingFacts.

(** ** Retries, and the two ways of a finding *)

Section Retries.

Import PullRequest.

Lemma withRetriesGo_spec {A} (fn : nat -> Result A) i remaining lastErr :
  match withRetriesGo fn i remaining lastErr with
  | Ok a => exists k, (k < remaining)%nat /\ fn (i + k)%nat = Ok a
                      /\ forall j, (j < k)%nat -> isRejected (fn (i + j)%nat) = true
  | Throw e => (forall j, (j < remaining)%nat -> isRejected (fn (i + j)%nat) = true)
               /\ (remaining = O -> e = lastErr)
               /\ (forall n, remaining = S n -> fn (i + n)%nat = Throw e)
  end.
Proof.
  revert i lastErr. induction remaining as [|r IH]; intros i lastErr; simpl.
  - split; [intros j; lia|]. split; [done|]. intros n; lia.
  - destruct (fn i) as [a|e] eqn:Ei.
    + exists O. rewrite Nat.add_0_r. split; [lia|]. split; [done|]. intros j; lia.
    + specialize (IH (S i) e). destruct (withRetriesGo fn (S i) r e) as [a|e'].
      * destruct IH as (k & Hk & Hok & Hbefore). exists (S k).
        split; [lia|]. rewrite <- Nat.add_succ_comm. split; [done|].
        intros [|j] Hj; [by rewrite Nat.add_0_r, Ei|].
        rewrite <- Nat.add_succ_comm. apply Hbefore. lia.
      * destruct IH as (Hall & Hzero & Hlast). split; [|split; [done|]].
        -- intros [|j] Hj; [by rewrite Nat.add_0_r, Ei|].
           rewrite <- Nat.add_succ_comm. apply Hall. lia.
        -- intros n [= <-]. destruct r as [|r'].
           ++ rewrite Nat.add_0_r, Ei. f_equal. symmetry. by apply Hzero.
           ++ rewrite <- Nat.add_succ_comm. by apply Hlast.
Qed.

(** [withRetries] answers with the first call of [fn] that succeeds among
    the first [attempts] calls: every call before it threw.  When they all
    throw it throws what the last one threw, and with no attempt at all it
    throws [undefined]. *)
Theorem withRetries_first_success {A} (fn : nat -> Result A) (attempts : nat) :
  match withRetries fn attempts with
  | Ok a => exists k, (k < attempts)%nat /\ fn k = Ok a
                      /\ forall j, (j < k)%nat -> isRejected (fn j) = true
  | Throw e => (forall j, (j < attempts)%nat -> isRejected (fn j) = true)
               /\ (attempts = O -> e = "undefined")
               /\ (forall n, attempts = S n -> fn n = Throw e)
  end.
Proof. apply (withRetriesGo_spec fn O attempts "undefined"). Qed.

End Retries.

Section Routing.

Import Diff Prompts Comments PullRequest Replies.

Lemma anchors_replies_perm files idx (l : list AIComment) :
  anchorComments files idx l ++ replyCandidates files idx l ≡ₚ l.
Proof.
  unfold anchorComments, replyCandidates.
  induction l as [|c l IH]; [done|].
  rewrite !filter_cons.
  destruct (existingThreadOf files idx c) as [t|] eqn:E.
  - rewrite decide_False by done. rewrite decide_True by done.
    rewrite <- Permutation_middle. by constructor.
  - rewrite decide_True by done. rewrite decide_False by (by intros [? ?]).
    simpl. by constructor.
Qed.

Lemma commentData_range cfg files c s :
  rc_start_line (commentData cfg files c) = Some s ->
  exists e, rc_line (commentData cfg files c) = Some e /\ s <> 0 /\ s < e.
Proof.
  unfold commentData. simpl.
  destruct (Prompts.start_line c) as [s'|]; [|done].
  destruct (end_line c) as [e|]; [|done].
  destruct (Z.eqb_spec s' 0); simpl; [done|].
  destruct (Z.ltb_spec s' e); [|done]. intros [= <-]. by exists e.
Qed.

End Routing.

(** ** Batches of comments and the reply loop *)

Section ReplyLoop.

Import Diff Prompts Comments PullRequest Replies.

Lemma chunk_sizes {A} (arr : list A) (size : Z) :
  0 < size -> Forall (fun b => 0 < Z.of_nat (length b) <= size) (chunk arr size).
Proof.
  intros H. unfold chunk. destruct (Z.leb_spec size 0); [lia|].
  destruct (chunkGo_shape (length arr) arr (Z.to_nat size)) as (Hall & _);
    [lia|done|].
  eapply Forall_impl; [exact Hall|]. intros b Hb. simpl in Hb. lia.
Qed.

(** [chunk] cuts an array into consecutive pieces of [size] elements, the
    last one shorter when the length is no multiple of [size]: the pieces
    put together are the array, none is empty, there are
    [ceil (length / size)] of them, and an empty array has no piece.  With
    a size of 0 or less the array is the one piece, even when it is
    empty. *)
Theorem chunk_shape {A} (arr : list A) (size : Z) :
  (size <= 0 -> chunk arr size = [arr])
  /\ (0 < size ->
      concat (chunk arr size) = arr
      /\ Forall (fun b => 0 < Z.of_nat (length b) <= size) (chunk arr size)
      /\ Z.of_nat (length (chunk arr size)) = (Z.of_nat (length arr) + size - 1) / size
      /\ forall i : nat, Z.of_nat i * size < Z.of_nat (length arr) ->
           chunk arr size !! i
           = Some (take (Z.to_nat size) (drop (i * Z.to_nat size) arr))).
Proof.
  unfold chunk. split.
  - intros H. by destruct (Z.leb_spec size 0); [|lia].
  - intros H. destruct (Z.leb_spec size 0); [lia|].
    destruct (chunkGo_shape (length arr) arr (Z.to_nat size)) as (Hall & Hcount & Hith);
      [lia|done|].
    split; [apply chunkGo_concat; [lia|done]|]. split; [|split].
    + pose proof (chunk_sizes arr size H) as Hs. unfold chunk in Hs.
      by destruct (Z.leb_spec size 0) in Hs; [lia|].
    + rewrite Hcount. rewrite Nat2Z.inj_div.
      f_equal; lia.
    + intros i Hi. apply Hith. nia.
Qed.

(** Every finding kept for inline posting goes one way: it is a reply
    candidate when a thread is indexed under its resolved path and lines,
    and a new anchored comment otherwise; the new anchored comments are
    handed to the host in batches of 1 to 50 comments that hold each of
    them once, in order; and a comment of a batch spans several lines only
    from a start line below its line. *)
Theorem line_comments_routed (cfg : Config) (files : list FileDiff)
    (idx : gmap string ReviewCommentThread) (lineComments : list AIComment) :
  let anchored := anchorComments files idx lineComments in
  let replies := replyCandidates files idx lineComments in
  let batches := reviewBatches cfg files idx lineComments in
  anchored ++ replies ≡ₚ lineComments
  /\ Forall (fun c => existingThreadOf files idx c = None) anchored
  /\ Forall (fun c => is_Some (existingThreadOf files idx c)) replies
  /\ concat batches = map (commentData cfg files) anchored
  /\ Forall (fun b => (1 <= length b <= 50)%nat) batches
  /\ (batches = [] <-> anchored = [])
  /\ Forall (fun cm => forall s, rc_start_line cm = Some s ->
                         exists e, rc_line cm = Some e /\ s <> 0 /\ s < e)
            (concat batches).
Proof.
  intros anchored replies batches.
  assert (Hconcat : concat batches = map (commentData cfg files) anchored)
    by apply reviewBatches_concat.
  pose proof (chunk_sizes (map (commentData cfg files) anchored)
                MAX_COMMENTS_PER_REVIEW ltac:(done)) as Hsize.
  change (chunk _ _) with batches in Hsize.
  split; [apply anchors_replies_perm|].
  split; [apply Forall_forall; intros c Hc; by apply list_elem_of_filter in Hc as [? _]|].
  split; [apply Forall_forall; intros c Hc; by apply list_elem_of_filter in Hc as [? _]|].
  split; [done|]. split; [|split].
  - eapply Forall_impl; [exact Hsize|]. intros b Hb. simpl in Hb.
    unfold MAX_COMMENTS_PER_REVIEW in Hb. lia.
  - split.
    + intros Hb. rewrite Hb in Hconcat. simpl in Hconcat.
      symmetry in Hconcat. by apply map_eq_nil in Hconcat.
    + intros Ha. unfold batches, reviewBatches. fold anchored. by rewrite Ha.
  - rewrite Hconcat. apply Forall_forall. intros cm Hcm s Hs.
    apply list_elem_of_fmap in Hcm as (c & -> & _). by eapply commentData_range.
Qed.

Lemma candidate_has_root files threads lineComments c :
  let idx := threadsIndex (relevantThreads threads) in
  c ∈ replyCandidates files idx lineComments ->
  exists t top rest,
    existingThreadOf files idx c = Some t /\ comments t = top :: rest
    /\ t ∈ threads /\ isThreadRelevant t = true.
Proof.
  intros idx Hc. apply list_elem_of_filter in Hc as [[t Ht] _].
  destruct (reply_only_on_key files threads c t Ht) as (Hin & Hrel & Hkey).
  unfold threadKey in Hkey. destruct (comments t) as [|top rest] eqn:E; [done|].
  by exists t, top, rest.
Qed.

Lemma postReply_candidate cfg ft files idx c req :
  replyOf cfg files idx c = Some req ->
  postReply cfg ft files idx c
  = if accepted ft req then Ok req else Throw "rejected by the host".
Proof.
  unfold replyOf, replyTarget, postReply, replyRequest, existingThreadOf, accepted.
  destruct (findExistingThread _ _ _ _) as [t|]; [|done].
  destruct (comments t) as [|top rest]; [done|]. simpl. intros [= <-].
  unfold withRetries. cbn [withRetriesGo rbind].
  destruct (inlineFails ft 0 _); [|done].
  destruct (inlineFails ft 1 _); [|done].
  by destruct (inlineFails ft 2 _).
Qed.

(** The writes of the loop over the reply candidates, and what they leave
    out.  Every candidate stands for a reply under the root of a relevant
    thread of the listing; the loop sends these replies in order, and no
    other request; it stops at the first reply that the host rejects three
    times: the candidates after it get no request at all. *)
Theorem postReplies_stop_at_failure (cfg : Config) (ft : Faults)
    (files : list FileDiff) (threads : list ReviewCommentThread)
    (lineComments : list AIComment) :
  let idx := threadsIndex (relevantThreads threads) in
  let replies := replyCandidates files idx lineComments in
  exists reqs k,
    Forall2 (fun c req => replyOf cfg files idx c = Some req) replies reqs
    /\ postReplies cfg ft files idx replies = take k reqs
    /\ Forall (fun req => accepted ft req = true) (take k reqs)
    /\ (forall req, reqs !! k = Some req -> accepted ft req = false)
    /\ (Forall (fun req => accepted ft req = true) reqs ->
        postReplies cfg ft files idx replies = reqs).
Proof.
  intros idx replies.
  assert (Hroots : Forall (fun c => is_Some (replyOf cfg files idx c)) replies).
  { apply Forall_forall. intros c Hc.
    destruct (candidate_has_root files threads lineComments c Hc)
      as (t & top & rest & Ht & Hcs & _).
    unfold replyOf, replyTarget. unfold idx. rewrite Ht, Hcs. by eexists. }
  clearbody replies. induction Hroots as [|c l [req Hreq] _ IH].
  - exists [], O. by repeat split.
  - destruct IH as (reqs & k & Hall & Hsent & Hacc & Hstop & Hfull).
    cbn [postReplies]. rewrite (postReply_candidate cfg ft files idx c req Hreq).
    destruct (accepted ft req) eqn:Hreq_acc.
    + exists (req :: reqs), (S k). split; [by constructor|].
      split; [by rewrite Hsent|]. split; [by constructor|]. split; [done|].
      intros Hok. apply Forall_cons in Hok as [_ Hok]. by rewrite Hfull.
    + exists (req :: reqs), O. split; [by constructor|].
      split; [done|]. split; [done|]. split; [by intros ? [= <-]|].
      intros Hok. apply Forall_cons in Hok as [Hok _]. congruence.
Qed.

End ReplyLoop.

(** ** The hash and the signature of an upsert *)

Section HashFacts.

Import PullRequest Hash.

Lemma toInt32_mod z : toInt32 z mod 2 ^ 32 = z mod 2 ^ 32.
Proof.
  unfold toInt32. rewrite Zminus_mod_idemp_l. f_equal. lia.
Qed.

Lemma lxor_mod_pow2 a b c n :
  0 <= n -> a mod 2 ^ n = b mod 2 ^ n ->
  Z.lxor a c mod 2 ^ n = Z.lxor b c mod 2 ^ n.
Proof.
  intros Hn Hab. apply Z.bits_inj'. intros k Hk.
  destruct (Z.lt_ge_cases k n) as [Hlt|Hge].
  - rewrite !Z.mod_pow2_bits_low by done. rewrite !Z.lxor_spec. f_equal.
    rewrite <- (Z.mod_pow2_bits_low a n k), <- (Z.mod_pow2_bits_low b n k) by done.
    by rewrite Hab.
  - by rewrite !Z.mod_pow2_bits_high by lia.
Qed.

Lemma hashGo_unbounded input h h' :
  h mod 2 ^ 32 = h' mod 2 ^ 32 ->
  hashGo input h mod 2 ^ 32 = hashUnbounded input h' mod 2 ^ 32.
Proof.
  revert h h'. induction input as [|c rest IH]; intros h h' Hh; [done|].
  simpl. apply IH. apply lxor_mod_pow2; [lia|].
  rewrite toInt32_mod. rewrite <- Z.mul_mod_idemp_l, Hh, Z.mul_mod_idemp_l by lia.
  done.
Qed.

Lemma hexValue_hexDigit d : 0 <= d < 16 -> hexValue (hexDigit d) = d.
Proof.
  intros Hd. unfold hexValue. rewrite (hexDigit_code d Hd).
  destruct (Z.ltb_spec d 10).
  - destruct (Z.leb_spec (48 + d) 57); lia.
  - destruct (Z.leb_spec (87 + d) 57); lia.
Qed.

Lemma fromHexGo_toHexGo fuel n acc :
  0 <= n < 16 ^ Z.of_nat fuel -> (0 < fuel)%nat ->
  fromHexGo (toHexGo fuel n acc) 0 = fromHexGo acc n.
Proof.
  revert n acc. induction fuel as [|fuel IH]; intros n acc Hn Hfuel; [lia|].
  cbn [toHexGo]. rewrite Nat2Z.inj_succ, Z.pow_succ_r in Hn by lia.
  assert (Hd : 0 <= n mod 16 < 16) by (apply Z.mod_pos_bound; lia).
  destruct (Z.eqb_spec (n / 16) 0) as [Hq|Hq].
  - cbn [fromHexGo]. rewrite hexValue_hexDigit by done.
    f_equal. rewrite (Z.div_mod n 16) at 2 by lia. lia.
  - assert (Hq1 : 0 < n / 16) by (pose proof (Z.div_pos n 16); lia).
    assert (Hq16 : n / 16 < 16 ^ Z.of_nat fuel) by (apply Z.div_lt_upper_bound; lia).
    destruct fuel as [|fuel']; [simpl in Hq16; lia|].
    rewrite IH by lia. cbn [fromHexGo]. rewrite hexValue_hexDigit by done.
    f_equal. rewrite (Z.div_mod n 16) at 3 by lia. lia.
Qed.

Lemma toHexGo_length fuel n acc :
  (0 < fuel)%nat ->
  (String.length acc < String.length (toHexGo fuel n acc) <= fuel + String.length acc)%nat.
Proof.
  revert n acc. induction fuel as [|fuel IH]; intros n acc Hfuel; [lia|].
  cbn [toHexGo]. destruct (n / 16 =? 0); [simpl; lia|].
  destruct fuel as [|fuel']; [simpl; lia|].
  specialize (IH (n / 16) (String (hexDigit (n mod 16)) acc) ltac:(lia)).
  simpl in *. lia.
Qed.

(** The hash of a key is the low 32 bits of the hash computed on the
    integers: the conversions to 32 bits inside the loop lose nothing else.
    It is written with 1 to 8 hexadecimal digits, and reading them gives the
    number back. *)
Theorem hashString_low_bits (input : string) :
  fromHex (hashString input) = hashUnbounded input 5381 mod 2 ^ 32
  /\ (1 <= String.length (hashString input) <= 8)%nat.
Proof.
  unfold hashString, toHex32, fromHex. split.
  - rewrite fromHexGo_toHexGo; [|by apply Z.mod_pos_bound|lia].
    simpl fromHexGo. by apply hashGo_unbounded.
  - pose proof (toHexGo_length 8 (hashGo input 5381 mod 2 ^ 32) EmptyString
                  ltac:(lia)) as H.
    cbn [String.length] in H. lia.
Qed.

Lemma pretty_N_char_code n : 48 <= JS.code (pretty_N_char n) <= 57.
Proof.
  assert (H : (48 <=? JS.code (pretty_N_char n)) && (JS.code (pretty_N_char n) <=? 57) = true)
    by (unfold pretty_N_char; repeat case_match; reflexivity).
  apply andb_true_iff in H as [H1 H2]. apply Z.leb_le in H1, H2. lia.
Qed.

Lemma pretty_N_go_lacks c x s :
  (JS.code c < 48 \/ 57 < JS.code c) ->
  JS.lacksChar c s = true -> JS.lacksChar c (pretty_N_go x s) = true.
Proof.
  intros Hc. revert s. induction (N.lt_wf_0 x) as [x _ IH]; intros s Hs.
  destruct (decide (x = 0%N)) as [->|Hx]; [by rewrite pretty_N_go_0|].
  rewrite pretty_N_go_step by lia. apply IH; [apply N.div_lt; lia|].
  simpl. rewrite decide_False; [done|]. intros E. rewrite <- E in Hc.
  pose proof (pretty_N_char_code (x `mod` 10)). lia.
Qed.

Lemma pretty_Z_lacks c (z : Z) :
  (JS.code c < 45 \/ 45 < JS.code c < 48 \/ 57 < JS.code c) ->
  JS.lacksChar c (pretty z) = true.
Proof.
  intros Hc. unfold pretty, pretty_Z. destruct z as [|p|p].
  - simpl. rewrite decide_False; [done|]. intros <-.
    change (JS.code "0") with 48 in Hc. lia.
  - unfold pretty, pretty_positive, pretty, pretty_N. rewrite decide_False by done.
    apply pretty_N_go_lacks; [lia|done].
  - rewrite JSFacts.lacksChar_append. apply andb_true_iff. split.
    + simpl. rewrite decide_False; [done|]. intros <-.
      change (JS.code "-") with 45 in Hc. lia.
    + unfold pretty, pretty_positive, pretty, pretty_N. rewrite decide_False by done.
      apply pretty_N_go_lacks; [lia|done].
Qed.

(** Two upserts meet on one comment exactly when they agree on the kind,
    the file, the line and the text of the key: the signature holds the
    key itself besides its hash, so that two keys with one hash still have
    two signatures.  (Kinds and paths are taken without the separator
    [|].) *)
Theorem upsert_signature_collision
    (kind file : string) (line : option Z) (header content : string)
    (kind' file' : string) (line' : option Z) (header' content' : string) :
  JS.lacksChar "|" kind = true -> JS.lacksChar "|" kind' = true ->
  JS.lacksChar "|" file = true -> JS.lacksChar "|" file' = true ->
  makeUpsertSignature kind file line header content
  = makeUpsertSignature kind' file' line' header' content'
  <-> kind = kind' /\ file = file' /\ nullish line 0 = nullish line' 0
      /\ keyText header content = keyText header' content'.
Proof.
  intros Hk Hk' Hf Hf'. split.
  - intros E. apply signature_key in E. unfold makeStableKey in E.
    fold (keyText header content) in E. fold (keyText header' content') in E.
    assert (E1 : kind +:+ String "|" (file +:+ "|" +:+ pretty (nullish line 0)
                                       +:+ "|" +:+ keyText header content)
                 = kind' +:+ String "|" (file' +:+ "|" +:+ pretty (nullish line' 0)
                                         +:+ "|" +:+ keyText header' content'))
      by exact E.
    apply JSFacts.split_at_first in E1 as [-> E1]; [|done..].
    assert (E2 : file +:+ String "|" (pretty (nullish line 0)
                                      +:+ "|" +:+ keyText header content)
                 = file' +:+ String "|" (pretty (nullish line' 0)
                                         +:+ "|" +:+ keyText header' content'))
      by exact E1.
    apply JSFacts.split_at_first in E2 as [-> E2]; [|done..].
    assert (E3 : pretty (nullish line 0) +:+ String "|" (keyText header content)
                 = pretty (nullish line' 0) +:+ String "|" (keyText header' content'))
      by exact E2.
    apply JSFacts.split_at_first in E3 as [E3 ->];
      [|apply pretty_Z_lacks; right; right; vm_compute; done..].
    by apply (inj pretty) in E3.
  - intros (-> & -> & Hl & Ht). unfold makeUpsertSignature, makeStableKey.
    fold (keyText header content). fold (keyText header' content').
    by rewrite Hl, Ht.
Qed.

End HashFacts.

(** ** Excerpts *)

Section ExcerptFacts.

Import Diff PullRequest Excerpt.

Lemma numberRows_loop rows n acc :
  fold_left
    (fun (st : Z * list Row) r =>
       let '(newLine, numbered) := st in
       if negb (JS.truthyStr r) then st
       else if JS.startsWith r "@@" then (newLine, numbered ++ [(None, r)])
       else if JS.startsWith r "-" then (newLine, numbered ++ [(None, r)])
       else (newLine + 1, numbered ++ [(Some newLine, r)]))
    rows (n, acc)
  = (n + Z.of_nat (length (filter (fun r => isNewFileRow r = true) rows)),
     acc ++ numberRows n rows).
Proof.
  revert n acc. induction rows as [|r rows IH]; intros n acc.
  - simpl. f_equal; [lia|]. by rewrite app_nil_r.
  - unfold numberRows. cbn [fold_left].
    rewrite (filter_cons_true isNewFileRow). unfold isNewFileRow at 1.
    destruct (JS.truthyStr r); cbn [negb andb].
    + destruct (JS.startsWith r "@@"); cbn [negb andb].
      * rewrite !IH. cbn [snd app]. by rewrite <- app_assoc.
      * destruct (JS.startsWith r "-"); cbn [negb].
        -- rewrite !IH. cbn [snd app]. by rewrite <- app_assoc.
        -- rewrite !IH. cbn [snd app length]. f_equal; [lia|]. by rewrite <- app_assoc.
    + by rewrite IH.
Qed.

Lemma numberRows_cons n r rows :
  numberRows n (r :: rows)
  = if negb (JS.truthyStr r) then numberRows n rows
    else if JS.startsWith r "@@" then (None, r) :: numberRows n rows
    else if JS.startsWith r "-" then (None, r) :: numberRows n rows
    else (Some n, r) :: numberRows (n + 1) rows.
Proof.
  unfold numberRows at 1. cbn [fold_left].
  destruct (JS.truthyStr r); cbn [negb].
  - destruct (JS.startsWith r "@@"); [by rewrite numberRows_loop|].
    destruct (JS.startsWith r "-"); by rewrite numberRows_loop.
  - by rewrite numberRows_loop.
Qed.

Lemma numberRows_rows (startAt : Z) (rows : list string) :
  map snd (numberRows startAt rows) = filter (fun r => JS.truthyStr r = true) rows
  /\ Forall (fun x => is_Some (fst x) <-> isNewFileRow (snd x) = true)
            (numberRows startAt rows).
Proof.
  revert startAt. induction rows as [|r rows IH]; intros startAt; [done|].
  rewrite numberRows_cons, (filter_cons_true JS.truthyStr).
  destruct (IH startAt) as (IH1 & IH2).
  destruct (JS.truthyStr r) eqn:Ht; cbn [negb andb]; [|done].
  destruct (JS.startsWith r "@@") eqn:Hh; cbn [negb andb].
  { split; [by rewrite <- IH1|].
    constructor; [|done]. unfold isNewFileRow. simpl. rewrite Ht, Hh. simpl.
    split; [by intros [? ?]|done]. }
  destruct (JS.startsWith r "-") eqn:Hm; cbn [negb andb].
  { split; [by rewrite <- IH1|].
    constructor; [|done]. unfold isNewFileRow. simpl. rewrite Ht, Hh, Hm. simpl.
    split; [by intros [? ?]|done]. }
  destruct (IH (startAt + 1)) as (IH1' & IH2').
  split; [simpl; by rewrite IH1'|].
  constructor; [|done]. unfold isNewFileRow. simpl. by rewrite Ht, Hh, Hm.
Qed.

(** The rows of an excerpt keep every row of the hunk that is not empty,
    in order; a row has a number exactly when it stands for a line of the
    new file, and the numbers count up from the start line of the hunk,
    whatever the removed lines and headers in between. *)
Theorem numberRows_consecutive (startAt : Z) (rows : list string) :
  map snd (numberRows startAt rows) = filter (fun r => JS.truthyStr r = true) rows
  /\ Forall (fun x => is_Some (fst x) <-> isNewFileRow (snd x) = true)
            (numberRows startAt rows)
  /\ omap fst (numberRows startAt rows)
     = map (fun k => startAt + Z.of_nat k)
           (seq 0 (length (filter (fun r => isNewFileRow r = true) rows))).
Proof.
  destruct (numberRows_rows startAt rows) as [Htexts Hnumbered].
  split; [done|]. split; [done|]. clear Htexts Hnumbered.
  revert startAt. induction rows as [|r rows IH]; intros startAt; [done|].
  rewrite numberRows_cons, (filter_cons_true isNewFileRow).
  unfold isNewFileRow at 1.
  destruct (JS.truthyStr r); cbn [negb andb]; [|apply IH].
  destruct (JS.startsWith r "@@"); cbn [negb andb]; [apply IH|].
  destruct (JS.startsWith r "-"); cbn [negb andb]; [apply IH|].
  cbn [omap list_omap fst length seq map]. rewrite IH. f_equal; [f_equal; lia|].
  rewrite <- seq_shift, map_map. apply map_ext. intros k. lia.
Qed.

Lemma findIndexGo_found {A} (f : A -> bool) l k :
  findIndexGo f l k <> -1 -> 0 <= k ->
  exists i x, findIndexGo f l k = k + Z.of_nat i /\ l !! i = Some x /\ f x = true.
Proof.
  revert k. induction l as [|y l IH]; intros k Hfound Hk; [done|].
  simpl in *. destruct (f y) eqn:Hy.
  - exists O, y. split; [lia|done].
  - destruct (IH (k + 1) Hfound ltac:(lia)) as (i & x & E & Hx & Hfx).
    exists (S i), x. split; [lia|done].
Qed.

Lemma includes_joinLines l x : x ∈ l -> JS.includes (JS.joinLines l) x = true.
Proof.
  induction 1 as [y l|y z l Hin IH].
  - apply JSFacts.includes_startsWith, JSFacts.startsWith_joinLines.
  - destruct l as [|w l]; [by apply elem_of_nil in Hin|].
    change (JS.joinLines (z :: w :: l))
      with (z +:+ String JS.newline (JS.joinLines (w :: l))).
    apply JSFacts.includes_append_r.
    change (String JS.newline (JS.joinLines (w :: l)))
      with (Messages.nl +:+ JS.joinLines (w :: l)).
    by apply JSFacts.includes_append_r.
Qed.

Lemma showRow_line x :
  JS.lacksChar JS.newline (snd x) = true -> JS.lacksChar JS.newline (showRow x) = true.
Proof.
  intros H. unfold showRow. destruct (fst x) as [n|]; [|done].
  rewrite !JSFacts.lacksChar_append, H, pretty_Z_lacks; [done|].
  left. vm_compute. done.
Qed.

Lemma excerptHunk_found files path ln hunk :
  excerptHunk files path ln = Some hunk ->
  exists f, f ∈ files
            /\ (filename f = path \/ previous_filename f = Some path)
            /\ hunk ∈ hunks f /\ startLine hunk <= ln <= endLine hunk.
Proof.
  unfold excerptHunk.
  destruct (List.find (fun f => String.eqb (filename f) path) files) as [f|] eqn:Ef.
  - intros Eh. apply find_some in Ef as [Hf Hname], Eh as [Hh Hrange].
    apply String.eqb_eq in Hname. apply andb_true_iff in Hrange as [H1 H2].
    exists f. rewrite <- !list_elem_of_In in *. split; [done|]. split; [by left|].
    split; [done|]. lia.
  - destruct (List.find (fun f => bool_decide (previous_filename f = Some path)) files)
      as [f|] eqn:Ep; [|done].
    intros Eh. apply find_some in Ep as [Hf Hname], Eh as [Hh Hrange].
    apply bool_decide_eq_true in Hname. apply andb_true_iff in Hrange as [H1 H2].
    exists f. rewrite <- !list_elem_of_In in *. split; [done|]. split; [by right|].
    split; [done|]. lia.
Qed.

Lemma elem_of_window {A} (y : A) n k l : y ∈ take n (drop k l) -> y ∈ l.
Proof.
  intros Hy. apply subseteq_take in Hy.
  apply list_elem_of_lookup in Hy as [i Hi]. rewrite lookup_drop in Hi.
  by eapply list_elem_of_lookup_2.
Qed.

Lemma getUnifiedExcerpt_hunk files path ln contextLines :
  getUnifiedExcerpt files path (Some ln) contextLines
  = match excerptHunk files path ln with
    | None => None
    | Some hunk =>
        let numbered := numberRows (startLine hunk) (JS.splitLines (diff hunk)) in
        let i := findIndexGo (fun x => bool_decide (fst x = Some ln)) numbered 0 in
        if i =? -1 then None
        else
          let start := Z.max 0 (i - contextLines) in
          let stop := Z.min (Z.of_nat (length numbered) - 1) (i + contextLines) in
          Some (JS.joinLines (map showRow (JS.sliceArr numbered start (stop + 1))))
    end.
Proof.
  unfold getUnifiedExcerpt, excerptHunk.
  destruct (List.find (fun f => String.eqb (filename f) path) files); [done|].
  by destruct (List.find (fun f => bool_decide (previous_filename f = Some path)) files).
Qed.


End ExcerptFacts.

(** ** Salesforce files and ignored pull requests *)

Section SalesforceFacts.

Import Diff PullRequest Salesforce.

Lemma endsWith_spec s p : JS.endsWith s p = true <-> exists a, s = a +:+ p.
Proof.
  split.
  - induction s as [|c s IH]; cbn [JS.endsWith]; intros H;
      apply orb_true_iff in H as [H|H]; try done.
    + apply String.eqb_eq in H as <-. by exists EmptyString.
    + apply String.eqb_eq in H as <-. by exists EmptyString.
    + destruct (IH H) as [a ->]. by exists (String c a).
  - intros [a ->]. induction a as [|c a IH].
    + rewrite JSFacts.append_empty_l. destruct p; cbn [JS.endsWith]; by rewrite String.eqb_refl.
    + rewrite JSFacts.append_cons. cbn [JS.endsWith]. rewrite IH. apply orb_true_r.
Qed.

Lemma endsWith_shorter s a p :
  JS.endsWith s (a +:+ p) = true -> JS.endsWith s p = true.
Proof.
  rewrite !endsWith_spec. intros [b ->]. exists (b +:+ a).
  by rewrite JSFacts.append_assoc.
Qed.

Lemma toLowerCase_append s t :
  JS.toLowerCase (s +:+ t) = JS.toLowerCase s +:+ JS.toLowerCase t.
Proof.
  induction s as [|c s IH]; [done|]. rewrite JSFacts.append_cons. simpl.
  by rewrite IH.
Qed.

Lemma toLowerCase_split s a' r' :
  JS.toLowerCase s = a' +:+ r' ->
  exists a r, s = a +:+ r /\ JS.toLowerCase a = a' /\ JS.toLowerCase r = r'.
Proof.
  revert s. induction a' as [|c a' IH]; intros s E.
  - by exists EmptyString, s.
  - destruct s as [|d s]; [done|]. rewrite JSFacts.append_cons in E.
    simpl in E. injection E as Hc E.
    destruct (IH s E) as (a & r & -> & Ha & Hr).
    exists (String d a), r. split; [done|]. split; [|done]. simpl. by rewrite Hc, Ha.
Qed.

Lemma flow_name_is_salesforce n :
  JS.endsWith (JS.toLowerCase n) ".flow-meta.xml" = true -> isSalesforceFile n = true.
Proof.
  intros H. unfold isSalesforceFile. cbv zeta.
  apply orb_true_iff. left. apply existsb_exists.
  exists "-meta.xml". split; [repeat (try (by left); right)|].
  by apply (endsWith_shorter _ ".flow").
Qed.

(** A batch that holds a flow (the files of the review scope [flows] all
    are flows) passes the two tests by which the Salesforce prompt takes in
    its rules for metadata and for flows, and, unless the mode is [off],
    it is reviewed with the Salesforce prompt: a flow is a metadata file
    and a Salesforce file, and the test for a flow is the same in the scope
    filter and in the prompt. *)
Theorem flows_reviewed_with_salesforce_rules (files batch : list FileDiff)
    (mode : option string) :
  (forall f, isFlowFileName (Some (filename f)) = inScope "flows" f)
  /\ (batch <> [] -> batch ⊆ filterFilesByScope files "flows" -> hasFlows batch = true)
  /\ (hasFlows batch = true ->
      hasMetadata batch = true
      /\ (modeOf mode <> "off" -> shouldUseSalesforce batch mode = true)).
Proof.
  assert (Hsame : forall f, isFlowFileName (Some (filename f)) = inScope "flows" f).
  { intros f. unfold isFlowFileName, inScope, isFlow.
    change (String.eqb (JS.toLowerCase "flows") "flows") with true. cbv iota zeta.
    destruct (filename f) as [|c s] eqn:E; [done|]. done. }
  split; [done|]. split.
  - intros Hne Hsub. destruct batch as [|f batch]; [done|].
    unfold hasFlows. cbn [existsb]. rewrite Hsame.
    assert (Hf : f ∈ filterFilesByScope files "flows") by (apply Hsub; by left).
    apply list_elem_of_filter in Hf as [-> _]. done.
  - unfold hasFlows. intros Hflow. apply existsb_exists in Hflow as (f & Hin & Hf).
    assert (Hn : JS.includes (JS.toLowerCase (filename f)) "/flows/" = true
                 /\ JS.endsWith (JS.toLowerCase (filename f)) ".flow-meta.xml" = true).
    { unfold isFlowFileName in Hf. destruct (negb _); [done|].
      by apply andb_true_iff in Hf. }
    destruct Hn as [Hpath Hext]. split.
    + unfold hasMetadata. apply existsb_exists. exists f. split; [done|].
      unfold isMetadataFileName. cbv zeta. rewrite Hpath, Hext. simpl.
      by rewrite !orb_true_r.
    + intros Hmode. unfold shouldUseSalesforce. cbv zeta.
      destruct (String.eqb (modeOf mode) "on"); [done|].
      destruct (String.eqb_spec (modeOf mode) "off"); [done|].
      apply existsb_exists. exists f. split; [done|]. by apply flow_name_is_salesforce.
Qed.

(** A pull request is ignored exactly when its description holds one of
    the eight phrases, anywhere and in any letter case; without a
    description it is not ignored. *)
Theorem shouldIgnorePullRequest_phrase (body : option string) :
  shouldIgnorePullRequest body = true
  <-> exists text pre mid post phrase,
        body = Some text /\ text = pre +:+ mid +:+ post
        /\ phrase ∈ ignorePhrases /\ JS.toLowerCase mid = phrase.
Proof.
  unfold shouldIgnorePullRequest. cbv zeta. rewrite existsb_exists. split.
  - intros (phrase & Hin & Hinc). apply list_elem_of_In in Hin.
    assert (Hlow : JS.toLowerCase phrase = phrase).
    { unfold ignorePhrases in Hin.
      repeat (apply elem_of_cons in Hin as [->|Hin]; [reflexivity|]).
      by apply elem_of_nil in Hin. }
    rewrite Hlow in Hinc.
    destruct body as [text|]; simpl in Hinc.
    + apply JSFacts.includes_spec in Hinc as (a' & b' & E).
      apply toLowerCase_split in E as (pre & r & -> & _ & E).
      apply toLowerCase_split in E as (mid & post & -> & Hmid & _).
      by exists (pre +:+ mid +:+ post), pre, mid, post, phrase.
    + exfalso. unfold ignorePhrases in Hin.
      repeat (apply elem_of_cons in Hin as [->|Hin]; [done|]).
      by apply elem_of_nil in Hin.
  - intros (text & pre & mid & post & phrase & -> & -> & Hin & Hmid).
    exists phrase. split; [by apply list_elem_of_In|].
    assert (Hlow : JS.toLowerCase phrase = phrase).
    { unfold ignorePhrases in Hin.
      repeat (apply elem_of_cons in Hin as [->|Hin]; [reflexivity|]).
      by apply elem_of_nil in Hin. }
    rewrite Hlow. simpl. rewrite !toLowerCase_append, Hmid.
    apply JSFacts.includes_middle.
Qed.

End SalesforceFacts.

(** ** The caps of a configuration *)

Section ConfigFacts.

Import PullRequest ConfigEnv.

Lemma digitValue_digitChar d : 0 <= d <= 9 -> digitValue (digitChar d) = Some d.
Proof.
  intros Hd. unfold digitValue, digitChar, JS.code.
  rewrite N_ascii_embedding by lia. rewrite Z2N.id by lia.
  destruct (Z.leb_spec 48 (48 + d)); [|lia].
  destruct (Z.leb_spec (48 + d) 57); [|lia]. simpl. f_equal. lia.
Qed.

Lemma isWhite_digitChar d : 0 <= d <= 9 -> JS.isWhite (digitChar d) = false.
Proof.
  intros Hd. unfold JS.isWhite, digitChar, JS.code.
  rewrite N_ascii_embedding by lia. rewrite Z2N.id by lia.
  destruct (Z.leb_spec 9 (48 + d)), (Z.leb_spec (48 + d) 13),
    (Z.eqb_spec (48 + d) 32), (Z.eqb_spec (48 + d) 160); simpl; lia.
Qed.

Lemma digitChar_not_sign d c :
  0 <= d <= 9 -> JS.code c < 48 -> digitChar d <> c.
Proof.
  intros Hd Hc E. rewrite <- E in Hc. unfold digitChar, JS.code in Hc.
  rewrite N_ascii_embedding in Hc by lia. lia.
Qed.

Lemma parseDigits_digits radix ds acc count :
  10 <= radix -> Forall (fun d => 0 <= d <= 9) ds ->
  parseDigits radix (digitsText ds) acc count
  = (fold_left (fun a d => radix * a + d) ds acc, (count + length ds)%nat).
Proof.
  intros Hr Hds. revert acc count.
  induction Hds as [|d ds Hd _ IH]; intros acc count; simpl.
  - by rewrite Nat.add_0_r.
  - rewrite digitValue_digitChar by done.
    destruct (Z.ltb_spec d radix); [|lia]. rewrite IH. f_equal. lia.
Qed.

Lemma parseInt_digits radix ds :
  10 <= radix <= 36 -> ds <> [] -> Forall (fun d => 0 <= d <= 9) ds ->
  parseInt (digitsText ds) radix = Some (valueIn radix ds).
Proof.
  intros Hr Hne Hds. destruct ds as [|d ds]; [done|].
  apply Forall_cons in Hds as Hds'. destruct Hds' as [Hd Hrest].
  unfold parseInt.
  assert (Htrim : JS.trimStart (digitsText (d :: ds)) = digitsText (d :: ds)).
  { simpl. by rewrite isWhite_digitChar. }
  rewrite Htrim.
  assert (Hsign : (let '(sign, s2) :=
                     match digitsText (d :: ds) with
                     | String "-" r => (-1, r)
                     | String "+" r => (1, r)
                     | _ => (1, digitsText (d :: ds))
                     end in (sign, s2)) = (1, digitsText (d :: ds))).
  { cbn [digitsText].
    pose proof (digitChar_not_sign d "-" Hd ltac:(vm_compute; done)) as Hm.
    pose proof (digitChar_not_sign d "+" Hd ltac:(vm_compute; done)) as Hp.
    destruct (digitChar d) as [[] [] [] [] [] [] [] []]; try done. }
  destruct (match digitsText (d :: ds) with
            | String "-" r => (-1, r)
            | String "+" r => (1, r)
            | _ => (1, digitsText (d :: ds))
            end) as [sign s2].
  injection Hsign as -> ->.
  destruct (Z.eqb_spec radix 0); [lia|].
  destruct (Z.ltb_spec radix 2); [lia|]. destruct (Z.ltb_spec 36 radix); [lia|].
  cbv zeta. cbn [negb andb orb].
  assert (Hhex : ((radix =? 16)
                  && (JS.startsWith (digitsText (d :: ds)) "0x"
                      || JS.startsWith (digitsText (d :: ds)) "0X")) = false).
  { destruct ds as [|d2 ds]; cbn [digitsText JS.startsWith].
    - destruct (decide _); by rewrite andb_false_r.
    - apply Forall_cons in Hrest as [Hd2 _].
      assert (Hx : digitChar d2 <> "x"%char).
      { intros E. pose proof (digitValue_digitChar d2 Hd2) as Hv. rewrite E in Hv.
        vm_compute in Hv. injection Hv as Hv. lia. }
      assert (HX : digitChar d2 <> "X"%char).
      { intros E. pose proof (digitValue_digitChar d2 Hd2) as Hv. rewrite E in Hv.
        vm_compute in Hv. injection Hv as Hv. lia. }
      destruct (decide ("0"%char = digitChar d)); [|by rewrite andb_false_r].
      rewrite !decide_False by done. by rewrite andb_false_r. }
  change (String (digitChar d) (digitsText ds)) with (digitsText (d :: ds)).
  rewrite Hhex. rewrite parseDigits_digits by (done || lia).
  cbn [length Nat.add]. f_equal. unfold valueIn. lia.
Qed.

Lemma value_radix_le ds a b :
  Forall (fun d => 0 <= d <= 9) ds -> 0 <= a <= b ->
  fold_left (fun acc d => 10 * acc + d) ds a
  <= fold_left (fun acc d => 20 * acc + d) ds b.
Proof.
  intros Hds. revert a b. induction Hds as [|d ds Hd _ IH]; intros a b Hab; simpl; [lia|].
  apply IH. lia.
Qed.

Lemma value_radix_lt ds a b :
  Forall (fun d => 0 <= d <= 9) ds -> 0 <= a < b ->
  fold_left (fun acc d => 10 * acc + d) ds a
  < fold_left (fun acc d => 20 * acc + d) ds b.
Proof.
  intros Hds. revert a b. induction Hds as [|d ds Hd _ IH]; intros a b Hab; simpl; [lia|].
  apply IH. lia.
Qed.

Lemma truthyStr_digitsText ds : ds <> [] -> JS.truthyStr (digitsText ds) = true.
Proof. by destruct ds. Qed.

(** The text of [REVIEW_MAX_COMMENTS] is read in base 20, that of the two
    other caps in base 10: a text of decimal digits gives the cap of inline
    comments the value its digits have in base 20, which is above the
    number written as soon as the text has two digits and does not start
    with 0.  (The text has at most 12 digits, so that its value is a
    number JavaScript holds exactly.) *)
Theorem maxComments_read_in_base_20 (ds : list Z) (input : string) :
  ds <> [] -> Forall (fun d => 0 <= d <= 9) ds -> (length ds <= 12)%nat ->
  0 < valueIn 10 ds ->
  maxCommentsOf (Some (digitsText ds)) input = valueIn 20 ds
  /\ maxCodeblockLinesOf (Some (digitsText ds)) input = valueIn 10 ds
  /\ maxReviewCharsOf (Some (digitsText ds)) input = valueIn 10 ds
  /\ valueIn 10 ds <= valueIn 20 ds
  /\ (forall d d' rest, ds = d :: d' :: rest -> 0 < d -> valueIn 10 ds < valueIn 20 ds).
Proof.
  intros Hne Hds _ Hpos.
  assert (Hle : valueIn 10 ds <= valueIn 20 ds)
    by (apply value_radix_le; [done|lia]).
  unfold maxCommentsOf, maxCodeblockLinesOf, maxReviewCharsOf, capOf, envOr.
  rewrite (truthyStr_digitsText ds Hne). cbv zeta.
  rewrite (truthyStr_digitsText ds Hne).
  rewrite !parseInt_digits by (done || lia).
  destruct (Z.ltb_spec 0 (valueIn 20 ds)); [|lia].
  destruct (Z.ltb_spec 0 (valueIn 10 ds)); [|lia].
  split; [done|]. split; [done|]. split; [done|]. split; [done|].
  intros d d' rest -> Hd. unfold valueIn. cbn [fold_left].
  apply Forall_cons in Hds as [Hd0 Hds]. apply Forall_cons in Hds as [Hd1 Hds].
  apply value_radix_lt; [done|lia].
Qed.

End ConfigFacts.

(** ** The scopes of a configuration *)

Section ScopeFacts.

Import PullRequest ConfigEnv Normal.

Lemma isWhite_lowerChar c : JS.isWhite (JS.lowerChar c) = JS.isWhite c.
Proof. destruct c as [[] [] [] [] [] [] [] []]; reflexivity. Qed.

Lemma lowerChar_idem c : JS.lowerChar (JS.lowerChar c) = JS.lowerChar c.
Proof. destruct c as [[] [] [] [] [] [] [] []]; reflexivity. Qed.

Lemma lowerChar_comma c : JS.lowerChar c = ","%char -> c = ","%char.
Proof. destruct c as [[] [] [] [] [] [] [] []]; vm_compute; congruence. Qed.

Lemma toLowerCase_idem s : JS.toLowerCase (JS.toLowerCase s) = JS.toLowerCase s.
Proof. induction s as [|c s IH]; [done|]. simpl. by rewrite lowerChar_idem, IH. Qed.

Lemma trimStart_toLowerCase s :
  JS.trimStart (JS.toLowerCase s) = JS.toLowerCase (JS.trimStart s).
Proof.
  induction s as [|c s IH]; [done|]. simpl. rewrite isWhite_lowerChar.
  by destruct (JS.isWhite c).
Qed.

Lemma trimEnd_toLowerCase s :
  JS.trimEnd (JS.toLowerCase s) = JS.toLowerCase (JS.trimEnd s).
Proof.
  induction s as [|c s IH]; [done|]. simpl. rewrite IH, isWhite_lowerChar.
  destruct (JS.trimEnd s) as [|d t]; simpl; [by destruct (JS.isWhite c)|done].
Qed.

Lemma trimStart_head s : headNotWhite (JS.trimStart s) = true.
Proof.
  induction s as [|c s IH]; [done|]. simpl.
  destruct (JS.isWhite c) eqn:E; [done|]. simpl. by rewrite E.
Qed.

Lemma trimStart_fixed s : headNotWhite s = true -> JS.trimStart s = s.
Proof. destruct s as [|c s]; [done|]. simpl. by destruct (JS.isWhite c). Qed.

Lemma trimEnd_head s : headNotWhite s = true -> headNotWhite (JS.trimEnd s) = true.
Proof.
  destruct s as [|c s]; [done|]. simpl. intros Hc.
  destruct (JS.trimEnd s); [|done]. destruct (JS.isWhite c) eqn:E; [done|].
  simpl. by rewrite E.
Qed.

Lemma trimEnd_idem s : JS.trimEnd (JS.trimEnd s) = JS.trimEnd s.
Proof.
  induction s as [|c s IH]; [done|]. simpl.
  destruct (JS.trimEnd s) as [|d t] eqn:E.
  - destruct (JS.isWhite c) eqn:Hc; [done|]. simpl. by rewrite Hc.
  - change (JS.trimEnd (String c (String d t)))
      with (match JS.trimEnd (String d t) with
            | EmptyString => if JS.isWhite c then EmptyString else String c EmptyString
            | String a u => String c (String a u)
            end).
    by rewrite IH.
Qed.

Lemma trim_idem s : JS.trim (JS.trim s) = JS.trim s.
Proof.
  unfold JS.trim.
  rewrite (trimStart_fixed (JS.trimEnd (JS.trimStart s))).
  - apply trimEnd_idem.
  - apply trimEnd_head, trimStart_head.
Qed.

Lemma trim_toLowerCase s : JS.trim (JS.toLowerCase s) = JS.toLowerCase (JS.trim s).
Proof. unfold JS.trim. by rewrite trimStart_toLowerCase, trimEnd_toLowerCase. Qed.

Lemma lacksChar_comma_toLowerCase s :
  JS.lacksChar "," s = true -> JS.lacksChar "," (JS.toLowerCase s) = true.
Proof.
  induction s as [|c s IH]; [done|]. simpl.
  destruct (decide (c = ","%char)); [done|]. intros H.
  rewrite decide_False; [by apply IH|]. by intros ?%lowerChar_comma.
Qed.

Lemma splitOn_pieces sep s : Forall (fun l => JS.lacksChar sep l = true) (splitOn sep s).
Proof.
  induction s as [|a s IH]; simpl.
  - by constructor.
  - destruct (decide (a = sep)) as [|Hne]; [by constructor|].
    destruct (splitOn sep s) as [|l ls]; [by repeat constructor; simpl; rewrite decide_False|].
    apply Forall_cons in IH as [Hl Hls]. constructor; [|done].
    simpl. by rewrite decide_False.
Qed.

(** The review scopes of a configuration are names in normal form: not
    empty, without white space around them, in lower case, and without a
    comma; so the text [" Flows , APEX"] names the scopes [flows] and
    [apex].  A text that names no scope at all, such as [" , "], leaves the
    list empty, and the run then takes the three default scopes: the
    scopes of a run are never empty. *)
Theorem reviewScopes_normalised (env : option string) (input : string)
    (maxC maxL maxR : option Z) :
  let scopes := reviewScopesOf env input in
  Forall (fun s => s <> EmptyString /\ JS.trim s = s /\ JS.toLowerCase s = s
                   /\ JS.lacksChar "," s = true) scopes
  /\ scopesUsed (mkConfig (Some scopes) maxC maxL maxR) <> []
  /\ (scopes = [] ->
      scopesUsed (mkConfig (Some scopes) maxC maxL maxR) = DEFAULT_SCOPES)
  /\ (scopes <> [] -> scopesUsed (mkConfig (Some scopes) maxC maxL maxR) = scopes).
Proof.
  intros scopes. split; [|split; [|split]].
  - apply Forall_forall. intros s Hs. unfold scopes, reviewScopesOf in Hs.
    apply list_elem_of_filter in Hs as [Htruthy Hs].
    apply list_elem_of_fmap in Hs as (raw & -> & Hraw).
    split; [by intros E; rewrite E in Htruthy|].
    split; [by rewrite trim_toLowerCase, trim_idem|].
    split; [apply toLowerCase_idem|].
    apply lacksChar_comma_toLowerCase. unfold JS.trim.
    apply JSFacts.lacksChar_trimEnd, JSFacts.lacksChar_trimStart.
    by eapply (proj1 (Forall_forall _ _) (splitOn_pieces "," _)).
  - unfold scopesUsed. simpl. by destruct scopes.
  - intros E. unfold scopesUsed. simpl. by rewrite E.
  - intros E. unfold scopesUsed. simpl. by destruct scopes.
Qed.

End ScopeFacts.

(** ** The commits an overview records *)

Section OverviewFacts.

Import Diff PullRequest Overview.

Lemma buildLoadingMessage_heap rp h baseCommit commits files :
  deref h commits <> [] ->
  exists body,
    buildLoadingMessage rp h baseCommit commits files
    = Ok (reverseInPlace h commits, body)
    /\ JS.includes body Messages.OVERVIEW_MESSAGE_SIGNATURE = true.
Proof.
  intros Hne. unfold buildLoadingMessage.
  destruct (last (deref h commits)) as [latest|] eqn:E.
  - eexists. split; [reflexivity|]. apply JSFacts.includes_suffix.
  - apply last_None in E. done.
Qed.

Lemma announce_full_review rp baseCommit listed files :
  listed <> [] ->
  exists body,
    announce rp [] baseCommit listed files
    = Ok (Some (mkAnnounced body (rev (map sha listed))
                  (commitSubjects (rev listed)) (rev listed))).
Proof.
  intros Hne. unfold announce.
  change (alloc [] listed) with ([listed], O). cbv beta iota. cbn [nonEmpty].
  change (deref [listed] 0) with listed.
  destruct listed as [|c listed']; [done|]. cbn [length Nat.eqb].
  destruct (buildLoadingMessage_heap rp [c :: listed'] baseCommit 0 files)
    as (body & -> & _); [done|].
  cbn [rbind]. exists body.
  change (deref (reverseInPlace [c :: listed'] 0) 0) with (rev (c :: listed')).
  by rewrite <- map_rev.
Qed.

(** The first review of a pull request records its commits newest first.
    With no commit reviewed before, [commitsToReview] is the array
    [commits] itself, and the loading message reverses it where it is: the
    overview then lists the commits in the reverse of the order the host
    gave them, the subjects are those of the first 100 commits and not of
    the last 100, and the last commit the overview records is the first
    commit of the pull request.  A run that found commits reviewed before
    works on an array of its own and records the commits in the order of
    the host. *)
Theorem first_review_records_newest_first (rp : Repo)
    (commitsReviewed : list JValue) (baseCommit : string)
    (listed : list Commit) (files : list FileDiff) :
  let fresh := filter (fun c => includesSha commitsReviewed (sha c) = false) listed in
  (commitsReviewed = [] -> listed <> [] ->
   exists body,
     announce rp commitsReviewed baseCommit listed files
     = Ok (Some (mkAnnounced body (rev (map sha listed))
                   (commitSubjects (rev listed)) (rev listed)))
     /\ last (rev (map sha listed)) = sha <$> head listed)
  /\ (commitsReviewed <> [] -> fresh <> [] ->
      exists body,
        announce rp commitsReviewed baseCommit listed files
        = Ok (Some (mkAnnounced body (map sha listed)
                      (commitSubjects listed) (rev fresh))))
  /\ (commitsReviewed <> [] -> fresh = [] ->
      announce rp commitsReviewed baseCommit listed files = Ok None).
Proof.
  intros fresh. unfold announce.
  change (alloc [] listed) with ([listed], O). cbv beta iota.
  change (deref [listed] 0) with listed.
  change (filter (fun c => includesSha commitsReviewed (sha c) = false) listed) with fresh.
  clearbody fresh.
  split; [|split].
  - intros -> Hne.
    destruct (announce_full_review rp baseCommit listed files Hne) as (body & Hb).
    unfold announce in Hb. exists body. split; [exact Hb|].
    destruct listed as [|c listed']; [done|].
    cbn [map rev]. by rewrite last_snoc.
  - intros Hrev Hfresh.
    destruct commitsReviewed as [|v vs]; [done|]. cbn [nonEmpty].
    change (alloc [listed] fresh) with ([listed; fresh], 1%nat).
    change (deref [listed; fresh] 1) with fresh.
    destruct fresh as [|c fresh']; [done|]. cbn [length Nat.eqb].
    destruct (buildLoadingMessage_heap rp [listed; c :: fresh'] baseCommit 1 files)
      as (body & -> & _); [done|].
    cbn [rbind]. exists body. done.
  - intros Hrev Hfresh.
    destruct commitsReviewed as [|v vs]; [done|]. cbn [nonEmpty].
    change (alloc [listed] fresh) with ([listed; fresh], 1%nat).
    change (deref [listed; fresh] 1) with fresh. by rewrite Hfresh.
Qed.

Lemma endsWith_suffix a p : JS.endsWith (a +:+ p) p = true.
Proof.
  induction a as [|c a IH].
  - rewrite JSFacts.append_empty_l. destruct p; cbn [JS.endsWith]; by rewrite String.eqb_refl.
  - rewrite JSFacts.append_cons. cbn [JS.endsWith]. rewrite IH. apply orb_true_r.
Qed.

Lemma slice_drop_last s c : JS.slice (s +:+ String c EmptyString) 0 (-1) = s.
Proof.
  unfold JS.slice, JS.relIndex, JS.strlen. cbv zeta.
  rewrite JSFacts.length_append. cbn [String.length].
  change (0 <? 0) with false. change (-1 <? 0) with true. cbv iota.
  rewrite Z.min_l by lia. change (Z.to_nat 0) with O. cbn [JS.dropStr].
  replace (Z.to_nat (Z.max (Z.of_nat (String.length s + 1) + -1) 0 - 0))
    with (String.length s) by lia.
  induction s as [|a s IH]; [done|]. rewrite JSFacts.append_cons. cbn [String.length JS.takeStr].
  by rewrite IH.
Qed.

(** The address of a commit does not depend on whether the address of the
    server is written with a slash at its end: one slash at the end is
    taken off before the path is appended. *)
Theorem getCommitUrl_trailing_slash (serverUrl owner repo sha : string) :
  getCommitUrl (serverUrl +:+ "/") owner repo sha
  = serverUrl +:+ "/" +:+ owner +:+ "/" +:+ repo +:+ "/commit/" +:+ sha
  /\ (JS.endsWith serverUrl "/" = false ->
      getCommitUrl serverUrl owner repo sha
      = getCommitUrl (serverUrl +:+ "/") owner repo sha).
Proof.
  assert (E : getCommitUrl (serverUrl +:+ "/") owner repo sha
              = serverUrl +:+ "/" +:+ owner +:+ "/" +:+ repo +:+ "/commit/" +:+ sha).
  { unfold getCommitUrl. cbv zeta. by rewrite endsWith_suffix, slice_drop_last. }
  split; [done|]. intros H. rewrite E. unfold getCommitUrl. cbv zeta. by rewrite H.
Qed.

End OverviewFacts.

(** ** The payload, written and read back *)

Section PayloadFacts.

Import Diff PullRequest Overview.

Lemma hexDigit_not_newline d : 0 <= d < 16 -> hexDigit d <> JS.newline.
Proof. intros Hd. apply hexDigit_other; [left; vm_compute; done|done]. Qed.

Lemma jsonEscape_line c : JS.lacksChar JS.newline (jsonEscape c) = true.
Proof.
  unfold jsonEscape. cbv zeta.
  destruct (JS.code c =? 34); [reflexivity|].
  destruct (JS.code c =? 92); [reflexivity|].
  destruct (JS.code c =? 8); [reflexivity|].
  destruct (JS.code c =? 12); [reflexivity|].
  destruct (JS.code c =? 10) eqn:Hnl; [reflexivity|].
  destruct (JS.code c =? 13); [reflexivity|].
  destruct (JS.code c =? 9); [reflexivity|].
  destruct (Z.ltb_spec (JS.code c) 32) as [Hlt|Hge].
  - assert (H0 : 0 <= JS.code c) by (unfold JS.code; lia).
    assert (H1 : hexDigit (JS.code c mod 16) <> JS.newline)
      by (apply hexDigit_not_newline; by apply Z.mod_pos_bound).
    assert (H2 : hexDigit (JS.code c / 16) <> JS.newline).
    { apply hexDigit_not_newline. split; [by apply Z.div_pos|].
      apply Z.div_lt_upper_bound; lia. }
    rewrite !JSFacts.lacksChar_append.
    change (JS.lacksChar JS.newline backslash) with true.
    change (JS.lacksChar JS.newline "u00") with true.
    cbn [JS.lacksChar andb]. by rewrite !decide_False by assumption.
  - cbn [JS.lacksChar]. rewrite decide_False; [done|].
    intros ->. by vm_compute in Hnl.
Qed.

Lemma jsonChars_line s : JS.lacksChar JS.newline (jsonChars s) = true.
Proof.
  induction s as [|c s IH]; [done|]. simpl.
  by rewrite JSFacts.lacksChar_append, jsonEscape_line, IH.
Qed.

Lemma joinComma_line l :
  Forall (fun x => JS.lacksChar JS.newline x = true) l ->
  JS.lacksChar JS.newline (joinComma l) = true.
Proof.
  induction 1 as [|x l Hx _ IH]; [done|].
  destruct l as [|y l]; [done|].
  change (joinComma (x :: y :: l)) with (x +:+ "," +:+ joinComma (y :: l)).
  by rewrite !JSFacts.lacksChar_append, Hx, IH.
Qed.

(** The text of a payload has no line break, and it is not empty. *)
Lemma stringifyPayload_line commits :
  JS.lacksChar JS.newline (stringifyPayload commits) = true
  /\ (0 < String.length (stringifyPayload commits))%nat.
Proof.
  unfold stringifyPayload. split.
  - rewrite !JSFacts.lacksChar_append. rewrite joinComma_line; [done|].
    apply Forall_fmap, Forall_forall. intros s _. simpl. unfold jsonString.
    by rewrite !JSFacts.lacksChar_append, jsonChars_line.
  - rewrite JSFacts.length_append. simpl. lia.
Qed.

(** An occurrence of a marker that starts inside [a] lies inside [a], when
    a line break follows [a] and the marker has none after its first
    character. *)
Lemma startsWith_before_newline a t q :
  JS.lacksChar JS.newline q = true ->
  JS.startsWith (a +:+ String JS.newline t) q = true -> JS.startsWith a q = true.
Proof.
  revert q. induction a as [|c a IH]; intros q Hq H.
  - rewrite JSFacts.append_empty_l in H. destruct q as [|y q]; [done|].
    simpl in *. by destruct (decide (y = JS.newline)).
  - destruct q as [|y q]; [done|]. rewrite JSFacts.append_cons in H. simpl in *.
    destruct (decide (y = JS.newline)); [done|].
    destruct (decide (y = c)); [|done]. by apply IH.
Qed.

Lemma indexOfGo_skip message rest sub pos :
  JS.lacksChar JS.newline sub = true ->
  JS.includes message (String JS.newline sub) = false ->
  JS.indexOfGo (message +:+ String JS.newline rest) (String JS.newline sub) pos
  = JS.indexOfGo (String JS.newline rest) (String JS.newline sub)
                 (pos + JS.strlen message).
Proof.
  intros Hsub. revert pos. induction message as [|c m IH]; intros pos Hinc.
  - rewrite JSFacts.append_empty_l. f_equal. unfold JS.strlen. simpl. lia.
  - cbn [JS.includes] in Hinc. apply orb_false_iff in Hinc as [Hstart Hinc].
    replace (pos + JS.strlen (String c m)) with (pos + 1 + JS.strlen m)
      by (unfold JS.strlen; change (String.length (String c m)) with (S (String.length m)); lia).
    rewrite <- IH by done.
    rewrite JSFacts.append_cons. cbn [JS.indexOfGo].
    assert (Hno : JS.startsWith (String c (m +:+ String JS.newline rest))
                                (String JS.newline sub) = false).
    { destruct (JS.startsWith (String c (m +:+ String JS.newline rest))
                              (String JS.newline sub)) eqn:E; [|done].
      cbn [JS.startsWith] in E, Hstart.
      destruct (decide (JS.newline = c)); [|done].
      apply startsWith_before_newline in E; [|done]. congruence. }
    by rewrite Hno.
Qed.

Lemma indexOfGo_line json rest sub pos :
  JS.lacksChar JS.newline json = true ->
  JS.indexOfGo (json +:+ String JS.newline sub +:+ rest) (String JS.newline sub) pos
  = pos + JS.strlen json.
Proof.
  revert pos. induction json as [|c j IH]; intros pos Hj.
  - rewrite JSFacts.append_empty_l, JSFacts.append_cons. cbn [JS.indexOfGo].
    rewrite <- JSFacts.append_cons, JSFacts.startsWith_append.
    unfold JS.strlen. simpl. lia.
  - cbn [JS.lacksChar] in Hj. destruct (decide (c = JS.newline)) as [|Hne]; [done|].
    rewrite JSFacts.append_cons. cbn [JS.indexOfGo JS.startsWith].
    rewrite decide_False by congruence. rewrite IH by done.
    unfold JS.strlen. change (String.length (String c j)) with (S (String.length j)). lia.
Qed.

Lemma dropStr_append a b : JS.dropStr (String.length a) (a +:+ b) = b.
Proof. induction a as [|c a IH]; [by destruct b|]. by rewrite JSFacts.append_cons. Qed.

Lemma takeStr_append a b : JS.takeStr (String.length a) (a +:+ b) = a.
Proof.
  induction a as [|c a IH]; [by destruct b|]. rewrite JSFacts.append_cons. simpl.
  by rewrite IH.
Qed.


Lemma strlen_append a b : JS.strlen (a +:+ b) = JS.strlen a + JS.strlen b.
Proof. unfold JS.strlen. rewrite JSFacts.length_append. lia. Qed.

(** The text between the markers, when the opening marker ends where
    [pre] ends and the text has no line break. *)
Lemma extractPayloadJson_between pre json :
  JS.includes pre Messages.PAYLOAD_TAG_OPEN = true ->
  JS.indexOf (pre +:+ json +:+ Messages.PAYLOAD_TAG_CLOSE) Messages.PAYLOAD_TAG_OPEN
  + JS.strlen Messages.PAYLOAD_TAG_OPEN = JS.strlen pre ->
  JS.lacksChar JS.newline json = true ->
  (0 < String.length json)%nat ->
  extractPayloadJson (pre +:+ json +:+ Messages.PAYLOAD_TAG_CLOSE) = json.
Proof.
  intros Hopen Hstart Hline Hlen. unfold extractPayloadJson.
  rewrite JSFacts.includes_append_l by done.
  rewrite <- JSFacts.append_assoc, JSFacts.includes_suffix, JSFacts.append_assoc.
  cbn [andb]. cbv zeta. rewrite Hstart.
  assert (Hend : JS.indexOfFrom (pre +:+ json +:+ Messages.PAYLOAD_TAG_CLOSE)
                   Messages.PAYLOAD_TAG_CLOSE (JS.strlen pre)
                 = JS.strlen pre + JS.strlen json).
  { unfold JS.indexOfFrom. cbv zeta. rewrite !strlen_append.
    assert (H0 : 0 <= JS.strlen pre) by (unfold JS.strlen; lia).
    assert (H1 : 0 <= JS.strlen json) by (unfold JS.strlen; lia).
    assert (H2 : 0 <= JS.strlen Messages.PAYLOAD_TAG_CLOSE) by (unfold JS.strlen; lia).
    replace (Z.min (Z.max (JS.strlen pre) 0)
               (JS.strlen pre + (JS.strlen json + JS.strlen Messages.PAYLOAD_TAG_CLOSE)))
      with (JS.strlen pre) by lia.
    unfold JS.strlen at 1. rewrite Nat2Z.id, dropStr_append.
    rewrite <- (JSFacts.append_empty_r Messages.PAYLOAD_TAG_CLOSE).
    apply (indexOfGo_line json EmptyString "-- presubmit.ai: payload -->"). done. }
  rewrite Hend.
  assert (Hgt : (JS.strlen pre + JS.strlen json >? JS.strlen pre) = true)
    by (apply Z.gtb_lt; unfold JS.strlen; lia).
  rewrite Hgt. unfold JS.slice. cbv zeta. rewrite !strlen_append.
  assert (H0 : 0 <= JS.strlen pre) by (unfold JS.strlen; lia).
  assert (H1 : 0 <= JS.strlen json) by (unfold JS.strlen; lia).
  assert (H2 : 0 <= JS.strlen Messages.PAYLOAD_TAG_CLOSE) by (unfold JS.strlen; lia).
  unfold JS.relIndex.
  destruct (Z.ltb_spec (JS.strlen pre) 0); [lia|].
  destruct (Z.ltb_spec (JS.strlen pre + JS.strlen json) 0); [lia|].
  rewrite !Z.min_l by lia.
  replace (JS.strlen pre + JS.strlen json - JS.strlen pre) with (JS.strlen json) by lia.
  unfold JS.strlen. by rewrite !Nat2Z.id, dropStr_append, takeStr_append.
Qed.

(** The opening marker of an overview is the one the builder wrote, when
    the text before the signature has none. *)
Lemma indexOf_payload_open message rest :
  JS.includes message Messages.PAYLOAD_TAG_OPEN = false ->
  JS.indexOf (message +:+ Messages.OVERVIEW_MESSAGE_SIGNATURE
              +:+ Messages.PAYLOAD_TAG_OPEN +:+ rest) Messages.PAYLOAD_TAG_OPEN
  = JS.strlen message + JS.strlen Messages.OVERVIEW_MESSAGE_SIGNATURE.
Proof.
  intros Hinc. unfold JS.indexOf, JS.indexOfFrom. cbv zeta.
  assert (H0 : 0 <= JS.strlen (message +:+ Messages.OVERVIEW_MESSAGE_SIGNATURE
              +:+ Messages.PAYLOAD_TAG_OPEN +:+ rest)) by (unfold JS.strlen; lia).
  rewrite Z.max_id, Z.min_l by done.
  change (Z.to_nat 0) with O. cbn [JS.dropStr].
  set (s1 := "<!-- presubmit.ai: overview message -->").
  set (o := "<!-- presubmit.ai: payload --").
  change Messages.PAYLOAD_TAG_OPEN with (String JS.newline o) in *.
  change (Messages.OVERVIEW_MESSAGE_SIGNATURE +:+ String JS.newline o +:+ rest)
    with (String JS.newline (s1 +:+ String JS.newline (o +:+ rest))).
  rewrite indexOfGo_skip by done.
  cbn [JS.indexOfGo].
  assert (E1 : JS.startsWith (String JS.newline (s1 +:+ String JS.newline (o +:+ rest)))
                 (String JS.newline o) = false) by reflexivity.
  rewrite E1. rewrite indexOfGo_skip by done.
  cbn [JS.indexOfGo]. rewrite <- JSFacts.append_cons, JSFacts.startsWith_append.
  change (JS.strlen Messages.OVERVIEW_MESSAGE_SIGNATURE) with (1 + JS.strlen s1). lia.
Qed.

Lemma extractPayloadJson_overview (message : string) (commits : list string) :
  JS.includes message Messages.PAYLOAD_TAG_OPEN = false ->
  extractPayloadJson (overviewWithPayload message commits) = stringifyPayload commits.
Proof.
  intros Hinc. unfold overviewWithPayload.
  destruct (stringifyPayload_line commits) as [Hline Hlen].
  rewrite <- (JSFacts.append_assoc Messages.OVERVIEW_MESSAGE_SIGNATURE).
  rewrite <- (JSFacts.append_assoc message).
  apply extractPayloadJson_between; [| |done|done].
  - rewrite <- JSFacts.append_assoc. apply JSFacts.includes_suffix.
  - rewrite !JSFacts.append_assoc, indexOf_payload_open by done.
    rewrite !strlen_append. lia.
Qed.


(** What a run reads back from an overview comment is the payload the
    builder wrote into it, provided the text of the overview itself does
    not hold the opening marker: the markers delimit the text
    [JSON.stringify] gave, whatever characters the recorded names hold, and
    with a [JSON.parse] that reads that text back the commits reviewed are
    the recorded ones, in their order. *)
Theorem payload_round_trip (rt : Runtime) (message : string) (commits : list string) :
  JS.includes message Messages.PAYLOAD_TAG_OPEN = false ->
  let body := overviewWithPayload message commits in
  extractPayloadJson body = stringifyPayload commits
  /\ markersUnusable body = false
  /\ (JSON_parse rt (stringifyPayload commits)
      = Some (JObj [("commits", JArr (map JStr commits))]) ->
      commitsReviewedOf rt body = map JStr commits).
Proof.
  intros Hinc body.
  pose proof (extractPayloadJson_overview message commits Hinc) as E.
  split; [done|]. split.
  - destruct (markersUnusable body) eqn:Hm; [|done].
    apply extractPayloadJson_unusable in Hm. fold body in E. rewrite E in Hm.
    apply (f_equal (fun s => JS.lacksChar "[" s)) in Hm.
    unfold stringifyPayload in Hm. rewrite !JSFacts.lacksChar_append in Hm.
    by rewrite !andb_false_r in Hm.
  - intros Hparse. unfold commitsReviewedOf, readPayload. fold body in E.
    by rewrite E, Hparse.
Qed.

Lemma includesSha_strings l s : includesSha (map JStr l) s = true <-> s ∈ l.
Proof.
  unfold includesSha. induction l as [|x l IH]; simpl.
  - split; [done|]. by intros ?%elem_of_nil.
  - rewrite orb_true_iff, IH, elem_of_cons, String.eqb_eq.
    split; (intros [E|E]; [left; by symmetry|by right]).
Qed.

(** The run after a first review takes the first commit of the pull
    request for the last one reviewed.  The first review of the commits
    [first :: others] writes them into the overview in the reverse order;
    the next run reads them back, takes the last of them, which is [first],
    as the commit reviewed last, and asks the host for the changes from
    [first] to the head, unless [first] is the head.  The files it reviews
    are those that changed since the first commit, not since the last
    review.  The commits it reviews are the listed ones the first review
    did not record. *)
Theorem rerun_compares_from_first_commit (rp : Repo) (rt : Runtime)
    (compareCommits : JValue -> string -> Result (option (list string)))
    (baseCommit message headSha : string) (first : Commit) (others : list Commit)
    (files : list FileDiff) (a : Announced)
    (listedNow : list Commit) (filesNow : list FileDiff) :
  announce rp [] baseCommit (first :: others) files = Ok (Some a) ->
  JS.includes message Messages.PAYLOAD_TAG_OPEN = false ->
  JSON_parse rt (stringifyPayload (recordedCommits a))
  = Some (JObj [("commits", JArr (map JStr (recordedCommits a)))]) ->
  let body := overviewWithPayload message (recordedCommits a) in
  let fresh := filter (fun c => sha c ∉ map sha (first :: others)) listedNow in
  commitsReviewedOf rt body = map JStr (rev (map sha (first :: others)))
  /\ resolveScope rt compareCommits (Some body) headSha listedNow filesNow
     = if JS.truthyStr (sha first) && negb (String.eqb (sha first) headSha)
       then rbind (compareCommits (JStr (sha first)) headSha) (fun changed =>
              Ok (mkScope
                    (match changed with
                     | Some names =>
                         filter (fun f => existsb (String.eqb (filename f)) names = true)
                                filesNow
                     | None => filesNow
                     end) fresh (Some (JStr (sha first))) true))
       else Ok (mkScope filesNow fresh (Some (JStr (sha first))) false).
Proof.
  intros Ha Hinc Hparse body fresh.
  destruct (announce_full_review rp baseCommit (first :: others) files) as (b & Hb);
    [done|].
  rewrite Hb in Ha. injection Ha as <-. cbn [recordedCommits] in *.
  assert (Hread : commitsReviewedOf rt body = map JStr (rev (map sha (first :: others)))).
  { unfold commitsReviewedOf, readPayload, body.
    rewrite extractPayloadJson_overview by done. by rewrite Hparse. }
  split; [done|]. unfold resolveScope. rewrite Hread.
  set (shas := rev (map sha (first :: others))).
  assert (Hlast : last_opt (map JStr shas) = Some (JStr (sha first))).
  { unfold last_opt, shas. cbn [map rev]. rewrite map_app. cbn [map]. apply last_snoc. }
  assert (Hne : nonEmpty (map JStr shas) = true).
  { by destruct (map JStr shas). }
  assert (Hfresh : filter (fun c => includesSha (map JStr shas) (sha c) = false) listedNow
                   = fresh).
  { apply list_filter_iff. intros c. unfold shas.
    rewrite <- not_true_iff_false, includesSha_strings.
    by rewrite !list_elem_of_In, <- in_rev. }
  cbv zeta. rewrite Hlast, Hne, Hfresh. cbn [truthy looseNeq]. reflexivity.
Qed.

End PayloadFacts.

(** ** The fallback of a rejected batch, comment by comment *)

Section FallbackCoverage.

Import Diff Prompts Comments PullRequest Blocks Excerpt FallbackText.

Lemma numberRows_numbers (startAt : Z) (rows : list string) :
  omap fst (numberRows startAt rows)
  = map (fun k => startAt + Z.of_nat k)
        (seq 0 (length (filter (fun r => isNewFileRow r = true) rows))).
Proof.
  revert startAt. induction rows as [|r rows IH]; intros startAt; [done|].
  rewrite numberRows_cons, (filter_cons_true isNewFileRow).
  unfold isNewFileRow at 1.
  destruct (JS.truthyStr r); cbn [negb andb]; [|apply IH].
  destruct (JS.startsWith r "@@"); cbn [negb andb]; [apply IH|].
  destruct (JS.startsWith r "-"); cbn [negb andb]; [apply IH|].
  cbn [omap list_omap fst length seq map]. rewrite IH. f_equal; [f_equal; lia|].
  rewrite <- seq_shift, map_map. apply map_ext. intros k. lia.
Qed.

Lemma findIndexGo_bounds {A} (f : A -> bool) l k :
  0 <= k -> findIndexGo f l k = -1 \/ k <= findIndexGo f l k.
Proof.
  revert k. induction l as [|y l IH]; intros k Hk; simpl; [by left|].
  destruct (f y); [right; lia|].
  destruct (IH (k + 1)) as [?|?]; [lia|by left|right; lia].
Qed.

Lemma findIndexGo_none {A} (f : A -> bool) l k :
  0 <= k -> findIndexGo f l k = -1 <-> Forall (fun x => f x = false) l.
Proof.
  revert k. induction l as [|y l IH]; intros k Hk; simpl; [done|].
  destruct (f y) eqn:E.
  - split; [lia|]. intros H. apply Forall_cons in H as [H _]. congruence.
  - rewrite IH by lia. split; [by constructor|]. by intros [_ ?]%Forall_cons.
Qed.

(** The numbered rows hold the line exactly when it is one of the first
    lines from the start line, as many as the hunk has rows of the new
    file. *)
Lemma numbered_row_iff (startAt ln : Z) (rows : list string) :
  (exists x, x ∈ numberRows startAt rows /\ fst x = Some ln)
  <-> startAt <= ln
      < startAt + Z.of_nat (length (filter (fun r => isNewFileRow r = true) rows)).
Proof.
  rewrite <- list_elem_of_omap, numberRows_numbers, list_elem_of_fmap.
  setoid_rewrite elem_of_seq. split.
  - intros (k & -> & Hk). lia.
  - intros H. exists (Z.to_nat (ln - startAt)). split; lia.
Qed.

Lemma includes_nonempty s x : JS.includes s x = true -> x <> EmptyString -> s <> EmptyString.
Proof. intros H Hx ->. by destruct x. Qed.

Lemma showRow_numbered (x : Row) (ln : Z) : fst x = Some ln -> showRow x <> EmptyString.
Proof.
  intros E He. unfold showRow in He. rewrite E in He.
  apply (f_equal String.length) in He. rewrite !JSFacts.length_append in He.
  simpl in He. lia.
Qed.

(** An excerpt exists, and is not empty, exactly when the line has a row
    in the hunk that covers it. *)
Lemma excerpt_shown files path line contextLines :
  0 <= contextLines ->
  match getUnifiedExcerpt files path line contextLines with
  | Some ex => JS.truthyStr ex
  | None => false
  end = lineHasRow files path line.
Proof.
  intros Hctx. destruct line as [ln|].
  2:{ unfold getUnifiedExcerpt, lineHasRow.
      by destruct (match List.find _ files with Some f => Some f | None => _ end). }
  rewrite getUnifiedExcerpt_hunk. unfold lineHasRow.
  destruct (excerptHunk files path ln) as [hunk|] eqn:Eh; [|done]. cbv zeta.
  destruct (excerptHunk_found files path ln hunk Eh) as (_ & _ & _ & _ & Hrange).
  set (numbered := numberRows (startLine hunk) (JS.splitLines (diff hunk))).
  set (i0 := findIndexGo (fun x : option Z * string => bool_decide (fst x = Some ln))
                         numbered 0).
  pose proof (numbered_row_iff (startLine hunk) ln (JS.splitLines (diff hunk))) as Hrow.
  fold numbered in Hrow. fold (newFileRows hunk) in Hrow.
  destruct (Z.eqb_spec i0 (-1)) as [Hnone|Hfound].
  - symmetry. apply Z.ltb_ge.
    apply (findIndexGo_none _ numbered 0) in Hnone; [|lia].
    destruct (Z.lt_ge_cases ln (startLine hunk + Z.of_nat (length (newFileRows hunk))))
      as [Hlt|?]; [|lia].
    destruct (proj2 Hrow ltac:(lia)) as (x & Hx & Hfx).
    apply (proj1 (Forall_forall _ _) Hnone) in Hx. simpl in Hx.
    by rewrite bool_decide_eq_true_2 in Hx.
  - destruct (findIndexGo_found _ numbered 0 Hfound ltac:(lia)) as (i & x & Ei & Hx & Hfx).
    assert (Ei' : i0 = 0 + Z.of_nat i) by exact Ei. clear Ei.
    apply bool_decide_eq_true in Hfx.
    assert (Hlt : ln < startLine hunk + Z.of_nat (length (newFileRows hunk))).
    { apply Hrow. exists x. split; [by eapply list_elem_of_lookup_2|done]. }
    rewrite (proj2 (Z.ltb_lt _ _) Hlt).
    pose proof (lookup_lt_Some _ _ _ Hx) as Hlen.
    rewrite Ei'. unfold JS.sliceArr, JS.relIndex.
    set (len := Z.of_nat (length numbered)).
    set (start := Z.max 0 (0 + Z.of_nat i - contextLines)).
    set (stop := Z.min (len - 1) (0 + Z.of_nat i + contextLines)).
    assert (Hstart : 0 <= start <= Z.of_nat i) by (unfold start; lia).
    assert (Hstop : Z.of_nat i <= stop < len) by (unfold stop, len; lia).
    destruct (Z.ltb_spec start 0); [lia|]. destruct (Z.ltb_spec (stop + 1) 0); [lia|].
    rewrite (Z.min_l start len), (Z.min_l (stop + 1) len) by lia.
    set (window := take (Z.to_nat (stop + 1 - start)) (drop (Z.to_nat start) numbered)).
    assert (Hwin : window !! (i - Z.to_nat start)%nat = Some x).
    { unfold window. rewrite lookup_take_lt by lia. rewrite lookup_drop.
      replace (Z.to_nat start + (i - Z.to_nat start))%nat with i by lia. done. }
    unfold JS.truthyStr. apply negb_true_iff, String.eqb_neq.
    apply (includes_nonempty _ (showRow x)); [|by eapply showRow_numbered].
    apply includes_joinLines, list_elem_of_fmap. exists x.
    split; [done|by eapply list_elem_of_lookup_2].
Qed.

(** The code block of the fallback is there exactly when the finding has
    highlighted code or the line has a row in its hunk. *)
Lemma hasExcerpt_codeShown files lineComments cm :
  hasExcerpt files lineComments cm = codeShown files lineComments cm.
Proof.
  unfold hasExcerpt, codeShown, hasHighlightedCode.
  by rewrite (excerpt_shown files _ (rc_line cm) 2) by lia.
Qed.

(** *** What the cut of the code blocks keeps *)

Lemma splitLines_app_nl a b :
  JS.splitLines (a +:+ String JS.newline b) = JS.splitLines a ++ JS.splitLines b.
Proof.
  induction a as [|c a IH]; [done|]. rewrite JSFacts.append_cons. cbn [JS.splitLines].
  destruct (decide (c = JS.newline)); [by rewrite IH|].
  rewrite IH. pose proof (splitLines_nonempty a) as Ha.
  by destruct (JS.splitLines a).
Qed.

(** A fence line is never cut. *)
Lemma fence_line_kept m lines st ln :
  ln ∈ lines -> isFenceLine ln = true -> ln ∈ emittedAll m st lines.
Proof.
  intros Hin Hf. revert st Hin. induction lines as [|x lines IH]; intros st Hin.
  - by apply elem_of_nil in Hin.
  - cbn [emittedAll]. apply elem_of_app. apply elem_of_cons in Hin as [<-|Hin].
    + left. unfold emitted. unfold isFenceLine in Hf. rewrite Hf. by left.
    + right. by apply IH.
Qed.

(** After a list of lines the loop is in a fence when it was and the list
    has an even number of fence lines, or it was not and the number is
    odd. *)
Lemma inFence_loop m lines st :
  inFence (fold_left (truncStep m) lines st)
  = xorb (inFence st)
         (Nat.odd (length (filter (fun ln => isFenceLine ln = true) lines))).
Proof.
  revert st. induction lines as [|ln lines IH]; intros st.
  - simpl. by destruct (inFence st).
  - cbn [fold_left]. rewrite IH, (filter_cons_true isFenceLine).
    unfold truncStep, isFenceLine. cbv zeta.
    destruct (JS.startsWith ln "```").
    + cbn [length]. rewrite Nat.odd_succ, <- Nat.negb_odd.
      destruct (inFence st); simpl; by destruct (Nat.odd _).
    + destruct (inFence st); simpl; [|done].
      destruct (_ <=? _); simpl; [done|]. by destruct (_ =? _).
Qed.

(** A line that no open fence comes before is never cut. *)
Lemma line_outside_kept m pre ln post :
  Nat.even (length (filter (fun l => isFenceLine l = true) pre)) = true ->
  ln ∈ emittedAll m (mkTrunc false 0 []) (pre ++ ln :: post).
Proof.
  intros Heven. rewrite emittedAll_app. apply elem_of_app. right.
  cbn [emittedAll]. apply elem_of_app. left.
  assert (Hout : inFence (fold_left (truncStep m) pre (mkTrunc false 0 [])) = false).
  { rewrite inFence_loop. simpl. by rewrite <- Nat.negb_even, Heven. }
  unfold emitted. rewrite Hout. destruct (JS.startsWith ln "```"); by left.
Qed.

Lemma truncate_keeps text m ln :
  ln ∈ emittedAll m (mkTrunc false 0 []) (JS.splitLines text) ->
  JS.includes (truncateCodeBlocks text m) ln = true.
Proof. intros H. rewrite truncateCodeBlocks_lines. by apply includes_joinLines. Qed.

(** A text whose code blocks are short is posted as it is, above the
    signature of the bot. *)
Lemma buildComment_short cfg text :
  Forall (fun n => n <= nullish (maxCodeblockLines cfg) 60) (codeBlocks text) ->
  buildComment cfg text
  = text +:+ Messages.nl +:+ Messages.nl +:+ Messages.COMMENT_SIGNATURE.
Proof.
  intros H. unfold buildComment. cbv zeta. do 2 f_equal.
  rewrite truncateCodeBlocks_lines.
  rewrite (short_blocks_kept _ _ _ None); [apply joinLines_splitLines|done|done].
Qed.

(** *** The text of the fallback, line by line *)

Lemma starts_nl_app a b :
  (a = EmptyString \/ exists r, a = String JS.newline r) ->
  (b = EmptyString \/ exists r, b = String JS.newline r) ->
  a +:+ b = EmptyString \/ exists r, a +:+ b = String JS.newline r.
Proof.
  intros [->|[r ->]] Hb; [by rewrite JSFacts.append_empty_l|].
  right. exists (r +:+ b). by rewrite JSFacts.append_cons.
Qed.

(** The code block of the fallback: nothing, or a block that starts on a
    new line and ends with a fence line. *)
Lemma fallbackCodeBlock_shape files lineComments cm :
  (codeShown files lineComments cm = false ->
   fallbackCodeBlock files lineComments cm = EmptyString)
  /\ (codeShown files lineComments cm = true ->
      (exists r, fallbackCodeBlock files lineComments cm = String JS.newline r)
      /\ exists pre, fallbackCodeBlock files lineComments cm
                     = pre +:+ String JS.newline fence).
Proof.
  rewrite <- hasExcerpt_codeShown.
  split; [apply fallbackCodeBlock_cases|].
  unfold hasExcerpt, fallbackCodeBlock. cbv zeta.
  set (ex := getUnifiedExcerpt files (resolveReviewPath files (rc_path cm)) (rc_line cm) 2).
  assert (Hex : match ex with Some e => JS.truthyStr e | None => false end = true ->
                (exists r, match ex with
                           | Some e => if JS.truthyStr e
                                       then Messages.nl +:+ Messages.nl +:+ fence +:+ "diff"
                                            +:+ Messages.nl +:+ e +:+ Messages.nl +:+ fence
                                       else EmptyString
                           | None => EmptyString
                           end = String JS.newline r)
                /\ exists pre, match ex with
                               | Some e => if JS.truthyStr e
                                           then Messages.nl +:+ Messages.nl +:+ fence +:+ "diff"
                                                +:+ Messages.nl +:+ e +:+ Messages.nl +:+ fence
                                           else EmptyString
                               | None => EmptyString
                               end = pre +:+ String JS.newline fence).
  { destruct ex as [e|]; [|done]. intros ->. split; [by eexists|].
    exists (Messages.nl +:+ Messages.nl +:+ fence +:+ "diff" +:+ Messages.nl +:+ e).
    by rewrite !JSFacts.append_assoc. }
  destruct (originOf lineComments cm) as [o|]; [|exact Hex].
  destruct (JS.truthyStr (highlighted_code o) && nonBlank (highlighted_code o));
    [|exact Hex].
  intros _. split; [by eexists|].
  exists (Messages.nl +:+ Messages.nl +:+ fence +:+ Messages.nl +:+ highlighted_code o).
  by rewrite !JSFacts.append_assoc.
Qed.

(** The text of the fallback: the signature and the body, an empty line,
    the context string, and what follows it on lines of its own. *)
Lemma fallbackText_lines files lineComments cm :
  exists rest,
    fallbackText files lineComments cm
    = aboveContext files lineComments cm
      +:+ String JS.newline (String JS.newline (contextString files cm +:+ rest))
    /\ (rest = EmptyString \/ exists r, rest = String JS.newline r)
    /\ (codeShown files lineComments cm = true ->
        exists pre, rest = pre +:+ String JS.newline fence).
Proof.
  unfold fallbackText, fallbackBody, aboveContext. cbv zeta.
  set (renameNote := match List.find _ files with
                     | Some f => if bool_decide (status f = renamed) then _ else EmptyString
                     | None => EmptyString
                     end).
  set (hd := if JS.truthyStr (fallbackHeader lineComments cm) then _ else EmptyString).
  destruct (fallbackCodeBlock_shape files lineComments cm) as [Hnone Hshown].
  exists (renameNote +:+ hd +:+ fallbackCodeBlock files lineComments cm).
  split; [by rewrite !JSFacts.append_assoc|]. split.
  - apply starts_nl_app; [|apply starts_nl_app].
    + unfold renameNote. destruct (List.find _ files) as [f|]; [|by left].
      destruct (bool_decide _); [right; by eexists|by left].
    + unfold hd. destruct (JS.truthyStr _); [right; by eexists|by left].
    + destruct (codeShown files lineComments cm); [|left; by apply Hnone].
      right. by apply Hshown.
  - intros H. destruct (Hshown H) as [_ [pre ->]].
    exists (renameNote +:+ hd +:+ pre). by rewrite !JSFacts.append_assoc.
Qed.

Lemma showLine_line (n : option Z) : JS.lacksChar JS.newline (showLine n) = true.
Proof.
  destruct n as [k|]; [|done]. apply pretty_Z_lacks. left. vm_compute. done.
Qed.

Lemma contextString_line files cm :
  JS.lacksChar JS.newline (resolveReviewPath files (rc_path cm)) = true ->
  JS.lacksChar JS.newline (contextString files cm) = true.
Proof.
  intros H. unfold contextString.
  by rewrite !JSFacts.lacksChar_append, H, showLine_line.
Qed.

(** The context line is not cut when the fences above it are closed. *)
Lemma fallback_context_kept cfg files lineComments cm :
  JS.lacksChar JS.newline (resolveReviewPath files (rc_path cm)) = true ->
  fencesClosed (aboveContext files lineComments cm) = true ->
  JS.includes (fallbackPosted cfg files lineComments cm) (contextString files cm) = true.
Proof.
  intros Hpath Hclosed. unfold fallbackPosted, buildComment.
  apply JSFacts.includes_append_l, truncate_keeps.
  destruct (fallbackText_lines files lineComments cm) as (rest & -> & Hrest & _).
  rewrite splitLines_app_nl. cbn [JS.splitLines]. rewrite decide_True by done.
  assert (Hctx : exists tl, JS.splitLines (contextString files cm +:+ rest)
                            = contextString files cm :: tl).
  { destruct Hrest as [->|[r ->]].
    - rewrite JSFacts.append_empty_r. eexists.
      by apply splitLines_single, contextString_line.
    - eexists. by apply JSFacts.splitLines_first_line, contextString_line. }
  destruct Hctx as [tl ->].
  change (JS.splitLines (aboveContext files lineComments cm)
          ++ EmptyString :: contextString files cm :: tl)
    with (JS.splitLines (aboveContext files lineComments cm)
          ++ [EmptyString] ++ contextString files cm :: tl).
  rewrite app_assoc. apply line_outside_kept.
  rewrite filter_app, length_app. cbn. by rewrite Nat.add_0_r.
Qed.

(** The fence lines of the code block are never cut. *)
Lemma fallback_fence_kept cfg files lineComments cm :
  codeShown files lineComments cm = true ->
  JS.includes (fallbackPosted cfg files lineComments cm) fence = true.
Proof.
  intros Hshown. unfold fallbackPosted, buildComment.
  apply JSFacts.includes_append_l, truncate_keeps.
  destruct (fallbackText_lines files lineComments cm) as (rest & -> & _ & Hfence).
  destruct (Hfence Hshown) as [pre ->].
  apply fence_line_kept; [|done].
  rewrite splitLines_app_nl. apply elem_of_app. right.
  cbn [JS.splitLines]. rewrite decide_True by done. right.
  rewrite <- JSFacts.append_assoc, splitLines_app_nl.
  apply elem_of_app. right. by left.
Qed.

Lemma fallbackSignature_single_line files lineComments cm :
  JS.lacksChar JS.newline (resolveReviewPath files (rc_path cm)) = true ->
  JS.lacksChar JS.newline (fallbackHeader lineComments cm) = true ->
  JS.lacksChar JS.newline (fallbackSignature files lineComments cm) = true.
Proof.
  intros Hfile Hheader. unfold fallbackSignature, makeUpsertSignature, makeStableKey.
  rewrite !JSFacts.lacksChar_append, Hfile.
  rewrite hashString_lacks by (left; vm_compute; done).
  rewrite JSFacts.lacksChar_slice.
  - rewrite pretty_Z_lacks; [done|]. left. vm_compute. done.
  - destruct (JS.truthyStr _); [done|apply firstLineOf_single_line].
Qed.

(** The text posted holds the signature it is upserted by. *)
Lemma fallback_posted_signed cfg files lineComments cm :
  JS.lacksChar JS.newline (resolveReviewPath files (rc_path cm)) = true ->
  JS.lacksChar JS.newline (fallbackHeader lineComments cm) = true ->
  JS.includes (fallbackPosted cfg files lineComments cm)
              (fallbackSignature files lineComments cm) = true.
Proof.
  intros Hfile Hheader. unfold fallbackPosted, fallbackText.
  apply buildComment_first_line; [by apply fallbackSignature_single_line|done].
Qed.

(** *** The writes of the fallback *)

Lemma findSigned_listed ft i h sig fuel page :
  (forall pg, listFails ft i pg = false) ->
  exists found, findSigned ft i h sig fuel page = Ok found.
Proof.
  intros Hlist. revert page. induction fuel as [|fuel IH]; intros page; [by eexists|].
  cbn [findSigned]. unfold listComments. rewrite Hlist. cbn [rbind].
  destruct (List.find _ _); [by eexists|].
  destruct (_ <? _)%nat; [by eexists|apply IH].
Qed.

(** An upsert whose calls the host accepts writes the body. *)
Lemma upsert_accepted ft i h sig body :
  (forall pg, listFails ft i pg = false) -> issueWriteFails ft i body = false ->
  exists h' ev,
    upsertIssueCommentBySignature ft i h sig body = Ok h'
    /\ trace h' = trace h ++ [ev] /\ eventBody ev = body.
Proof.
  intros Hlist Hwrite. unfold upsertIssueCommentBySignature.
  destruct (findSigned_listed ft i h sig (S (length (issueComments h))) 1 Hlist)
    as [found ->].
  cbn [rbind]. unfold updateComment, createComment. rewrite Hwrite.
  destruct found as [c|]; by eexists _, _.
Qed.

(** An upsert that returns has written the body, and the host took it. *)
Lemma upsert_written ft i h sig body h' :
  upsertIssueCommentBySignature ft i h sig body = Ok h' ->
  issueWriteFails ft i body = false
  /\ exists ev, trace h' = trace h ++ [ev] /\ eventBody ev = body.
Proof.
  unfold upsertIssueCommentBySignature, updateComment, createComment.
  destruct (findSigned _ _ _ _ _ _) as [[c|]|]; simpl; [| |done];
    destruct (issueWriteFails ft i body); intros [= <-]; simpl; eauto.
Qed.

(** The loop over the settled results writes nothing but the texts of
    rejected comments, only texts the host took, and at most one for each
    rejected comment. *)
Lemma fallback_loop_writes cfg ft files lineComments l h :
  exists more,
    trace (fold_left (fallbackStep cfg ft files lineComments) l h) = trace h ++ more
    /\ (length more <= length (filter (fun jr => isRejected (snd jr) = true) l))%nat
    /\ Forall (fun ev =>
                 issueWriteFails ft O (eventBody ev) = false
                 /\ exists cm res, (cm, res) ∈ l /\ isRejected res = true
                      /\ eventBody ev = fallbackPosted cfg files lineComments cm) more.
Proof.
  revert h. induction l as [|[cm res] l IH]; intros h.
  - exists []. by rewrite app_nil_r.
  - cbn [fold_left].
    destruct (IH (fallbackStep cfg ft files lineComments h (cm, res)))
      as (more & -> & Hcount & Hmore).
    assert (Hstep : exists m0,
               trace (fallbackStep cfg ft files lineComments h (cm, res)) = trace h ++ m0
               /\ (length m0 <= if isRejected res then 1 else 0)%nat
               /\ Forall (fun ev =>
                            issueWriteFails ft O (eventBody ev) = false
                            /\ isRejected res = true
                            /\ eventBody ev = fallbackPosted cfg files lineComments cm) m0).
    { unfold fallbackStep. destruct (isRejected res) eqn:Hrej.
      - destruct (upsertIssueCommentBySignature _ _ _ _ _) as [h'|e] eqn:E; simpl.
        + apply upsert_written in E as (Hok & ev & -> & Hbody).
          exists [ev]. split; [done|]. split; [done|].
          repeat constructor; [by rewrite Hbody|done].
        + exists []. rewrite app_nil_r. split; [done|]. split; [simpl; lia|done].
      - exists []. rewrite app_nil_r. split; [done|]. split; [done|done]. }
    destruct Hstep as (m0 & -> & Hc0 & Hm0).
    exists (m0 ++ more). split; [by rewrite app_assoc|]. split.
    + rewrite length_app, (filter_cons_true (fun jr : ReviewCommentData * Result unit =>
                                                 isRejected (snd jr))).
      cbn [snd]. destruct (isRejected res); cbn [length]; lia.
    + apply Forall_app. split.
      * eapply Forall_impl; [exact Hm0|]. intros ev (Hok & Hrej & Hbody).
        split; [done|]. exists cm, res. split; [by left|done].
      * eapply Forall_impl; [exact Hmore|].
        intros ev (Hok & cm' & res' & Hin & Hrej & Hbody).
        split; [done|]. exists cm', res'. split; [by right|done].
Qed.

Lemma rejected_count {A B} (f : A -> Result B) (l : list A) :
  length (filter (fun jr => isRejected (snd jr) = true) (zip l (map f l)))
  = length (filter (fun x => isRejected (f x) = true) l).
Proof.
  induction l as [|x l IH]; [done|]. cbn [map zip zip_with].
  rewrite (filter_cons_true (fun jr : A * Result B => isRejected (snd jr))),
    (filter_cons_true (fun x => isRejected (f x))).
  cbn [snd]. destruct (isRejected (f x)); cbn [length]; by rewrite IH.
Qed.

(** A rejected comment of the loop is written when the host takes the
    calls of its upsert. *)
Lemma fallback_loop_written cfg ft files lineComments l h cm res :
  (forall pg, listFails ft O pg = false) ->
  issueWriteFails ft O (fallbackPosted cfg files lineComments cm) = false ->
  (cm, res) ∈ l -> isRejected res = true ->
  exists ev,
    ev ∈ trace (fold_left (fallbackStep cfg ft files lineComments) l h)
    /\ eventBody ev = fallbackPosted cfg files lineComments cm.
Proof.
  intros Hlist Hwrite Hin Hrej. apply list_elem_of_split in Hin as (l1 & l2 & ->).
  rewrite fold_left_app. cbn [fold_left].
  set (ha := fold_left _ l1 h).
  destruct (fallback_loop_trace cfg ft files lineComments l2
              (fallbackStep cfg ft files lineComments ha (cm, res))) as [more ->].
  unfold fallbackStep. rewrite Hrej.
  destruct (upsert_accepted ft O ha (fallbackSignature files lineComments cm)
              (fallbackPosted cfg files lineComments cm) Hlist Hwrite)
    as (hb & ev & E & Htrace & Hbody).
  unfold fallbackPosted in E. rewrite E. simpl. rewrite Htrace.
  exists ev. split; [|done]. apply elem_of_app. left. apply elem_of_app. right. by left.
Qed.

Lemma postAlone_stillFails cfg ft files idx cm :
  isRejected (postAlone cfg ft files idx cm) = stillFails cfg ft files idx cm.
Proof.
  unfold postAlone, stillFails, withRetries. cbn [withRetriesGo].
  destruct (submitInlineComment _ _ _ _ _ _ _) as [req|e]; cbn [rbind]; [|done].
  destruct (inlineFails ft 0 req); [|done].
  destruct (inlineFails ft 1 req); [|done].
  by destruct (inlineFails ft 2 req).
Qed.

(** The code block of the fallback, case by case. *)
Lemma fallbackCodeBlock_exact files lineComments cm :
  (codeShown files lineComments cm = false ->
   fallbackCodeBlock files lineComments cm = EmptyString)
  /\ (hasHighlightedCode lineComments cm = true ->
      exists o, originOf lineComments cm = Some o
                /\ fallbackCodeBlock files lineComments cm
                   = Messages.nl +:+ Messages.nl +:+ fence +:+ Messages.nl
                     +:+ highlighted_code o +:+ Messages.nl +:+ fence)
  /\ (hasHighlightedCode lineComments cm = false ->
      lineHasRow files (resolveReviewPath files (rc_path cm)) (rc_line cm) = true ->
      exists ex,
        getUnifiedExcerpt files (resolveReviewPath files (rc_path cm)) (rc_line cm) 2
        = Some ex
        /\ fallbackCodeBlock files lineComments cm
           = Messages.nl +:+ Messages.nl +:+ fence +:+ "diff" +:+ Messages.nl
             +:+ ex +:+ Messages.nl +:+ fence).
Proof.
  split; [apply fallbackCodeBlock_shape|].
  unfold hasHighlightedCode, fallbackCodeBlock. cbv zeta.
  rewrite <- (excerpt_shown files _ (rc_line cm) 2) by lia.
  split.
  - destruct (originOf lineComments cm) as [o|]; [|done].
    intros ->. by exists o.
  - intros Hno Hrow.
    destruct (getUnifiedExcerpt _ _ _ _) as [ex|]; [|done]. exists ex.
    rewrite Hrow. split; [done|].
    destruct (originOf lineComments cm) as [o|]; [|done]. by rewrite Hno.
Qed.

(** Two rejected comments with one signature, one after the other: the
    second write updates the comment of the first. *)
Lemma fallback_same_signature cfg ft files lineComments h cm cm' res res' :
  issuesReliable ft ->
  JS.lacksChar JS.newline (resolveReviewPath files (rc_path cm)) = true ->
  JS.lacksChar JS.newline (fallbackHeader lineComments cm) = true ->
  fallbackSignature files lineComments cm' = fallbackSignature files lineComments cm ->
  isRejected res = true -> isRejected res' = true ->
  let h1 := fallbackStep cfg ft files lineComments h (cm, res) in
  let h2 := fallbackStep cfg ft files lineComments h1 (cm', res') in
  length (issueComments h2) = length (issueComments h1)
  /\ exists cid,
       trace h2 = trace h1
                  ++ [UpdatedIssueComment cid (fallbackPosted cfg files lineComments cm')].
Proof.
  intros Hft Hpath Hheader Hsig Hrej Hrej' h1 h2.
  assert (E1 : upsertIssueCommentBySignature ft O h
                 (fallbackSignature files lineComments cm)
                 (fallbackPosted cfg files lineComments cm) = Ok h1).
  { unfold h1, fallbackStep. rewrite Hrej.
    rewrite (upsert_reliable ft O h _ _ Hft). unfold fallbackPosted.
    by rewrite (upsert_reliable ft O h _ _ Hft). }
  apply upsert_posted in E1 as (x & Hx & Hbody); [|done].
  destruct (upsert_updates ft O h1 (fallbackSignature files lineComments cm')
              (fallbackPosted cfg files lineComments cm') Hft)
    as (hb & cid & E2 & Hlen & _ & Htrace).
  { exists x. split; [done|]. rewrite Hsig, Hbody. by apply fallback_posted_signed. }
  assert (hb = h2) as ->.
  { unfold h2, fallbackStep. rewrite Hrej'. unfold fallbackPosted in E2. by rewrite E2. }
  split; [done|]. by exists cid.
Qed.

Lemma zip_results_inv {A B} (f : A -> B) (l : list A) x y :
  (x, y) ∈ zip l (map f l) -> x ∈ l /\ y = f x.
Proof.
  induction l as [|a l IH]; simpl; [by intros ?%elem_of_nil|].
  intros [[= -> ->]|Hin]%elem_of_cons; [split; [by left|done]|].
  destruct (IH Hin) as [? ?]. split; [by right|done].
Qed.


(** The context line can be cut: the body of the comment opens a code block
    of 60 lines and does not close it, so that for [buildComment] the
    context line lies in that block, beyond its 60 lines; the code block
    of the fallback follows, its first fence closing the open one. *)
Lemma fallback_context_cut :
  let cm := commentData Samples.defaultConfig Samples.parsedFiles
              FallbackSamples.unclosedFinding in
  let h' := submitBatch Samples.defaultConfig Samples.inlineRejected Samples.parsedFiles
              Samples.noThreads [FallbackSamples.unclosedFinding] Samples.emptyHost
              FallbackSamples.unclosedBatch in
  stillFails Samples.defaultConfig Samples.inlineRejected Samples.parsedFiles
             Samples.noThreads cm = true
  /\ fencesClosed (aboveContext Samples.parsedFiles [FallbackSamples.unclosedFinding] cm)
     = false
  /\ JS.includes (fallbackText Samples.parsedFiles [FallbackSamples.unclosedFinding] cm)
                 "Context: src/test.ts:4" = true
  /\ map (fun c => JS.includes (ic_body c) "Context:") (issueComments h') = [false]
  /\ map (fun c => JS.includes (ic_body c) fence) (issueComments h') = [true].
Proof. vm_compute. done. Qed.

(** A line inside the range of a hunk, and no code block: the hunk of the
    test patch covers the lines 1 to 8 and has rows for the lines 1 to 6. *)
Lemma fallback_in_hunk_without_row :
  let cm := commentData Samples.defaultConfig Samples.parsedFiles
              FallbackSamples.rowlessFinding in
  let h' := submitBatch Samples.defaultConfig Samples.inlineRejected Samples.parsedFiles
              Samples.noThreads [FallbackSamples.rowlessFinding] Samples.emptyHost
              FallbackSamples.rowlessBatch in
  is_Some (excerptHunk Samples.parsedFiles "src/test.ts" 7)
  /\ codeShown Samples.parsedFiles [FallbackSamples.rowlessFinding] cm = false
  /\ map (fun c => JS.includes (ic_body c) "Context: src/test.ts:7") (issueComments h')
     = [true]
  /\ map (fun c => JS.includes (ic_body c) fence) (issueComments h') = [false].
Proof. split; [by eexists|]. vm_compute. done. Qed.

End FallbackCoverage.

(** ** The theorems at concrete inputs *)

Section Instances.

Import Diff Prompts Comments PullRequest.

(** C3 at the two findings under the header [H]. *)
Lemma file_note_upsert_witness :
  length (issueComments
            (postFileNote Samples.defaultConfig Samples.noFaults Samples.noteFiles
               (postFileNote Samples.defaultConfig Samples.noFaults Samples.noteFiles
                  Samples.emptyHost Samples.noteOne)
               Samples.noteTwo))
  = length (issueComments
              (postFileNote Samples.defaultConfig Samples.noFaults Samples.noteFiles
                 Samples.emptyHost Samples.noteOne)).
Proof.
  destruct (file_note_upsert Samples.defaultConfig Samples.noFaults Samples.noteFiles
              Samples.emptyHost Samples.noteOne Samples.noteTwo eq_refl)
    as (_ & _ & H).
  apply H.
  - by split.
  - vm_compute. reflexivity.
  - vm_compute. reflexivity.
  - vm_compute. reflexivity.
Defined.

(** C5 at 55 findings that qualify, under the default cap. *)
Lemma cap_enforced_witness :
  selectComments Samples.defaultConfig Samples.manyFindings
  = (take 40 Samples.manyFindings, drop 40 Samples.manyFindings)
  /\ length (take 40 Samples.manyFindings) = 40%nat
  /\ length (drop 40 Samples.manyFindings) = 15%nat.
Proof.
  destruct (cap_enforced Samples.defaultConfig 40 Samples.manyFindings [])
    as (_ & _ & _ & _ & _ & Hsel & Hlen).
  - vm_compute. split; [discriminate|reflexivity].
  - split.
    + apply Hsel; [reflexivity|].
      apply Forall_forall. intros c Hc. vm_compute in Hc.
      repeat (apply elem_of_cons in Hc as [->|Hc]; [vm_compute; reflexivity|]).
      by apply elem_of_nil in Hc.
    + rewrite applyCap_over in Hlen by (vm_compute; split; [discriminate|reflexivity]).
      apply (Hlen eq_refl eq_refl).
Defined.

(** C6 at two files that both exceed a budget of 100 characters. *)
Lemma batchFilesByChars_partition_witness :
  [Samples.apexFile] ∈ batchFilesByChars [Samples.apexFile; Samples.overlapFile] 100.
Proof.
  destruct (batchFilesByChars_partition [Samples.apexFile; Samples.overlapFile] 100)
    as (_ & _ & _ & H & _).
  apply H; [by left|vm_compute; reflexivity].
Defined.

(** C7 at an Apex class. *)
Lemma scopes_cover_witness : exists s, scopesOf Samples.apexFile = [s].
Proof.
  destruct (scopes_cover Samples.apexFile) as (_ & _ & H & _).
  apply H. vm_compute. reflexivity.
Defined.

(** C8 at an overview comment whose closing marker comes first. *)
Lemma payload_degrades_to_full_review_witness :
  commitsReviewedOf Samples.sampleRuntime Samples.misorderedBody = []
  /\ resolveScope Samples.sampleRuntime (fun _ _ => Throw "no comparison")
       (Some Samples.misorderedBody) "c2" Samples.twoCommits [Samples.apexFile]
     = Ok (mkScope [Samples.apexFile] Samples.twoCommits None false).
Proof.
  destruct (payload_degrades_to_full_review Samples.sampleRuntime
              (fun _ _ => Throw "no comparison") Samples.misorderedBody "c2"
              Samples.twoCommits [Samples.apexFile]) as (_ & H1 & H2).
  - left. split; vm_compute; reflexivity.
  - by split.
Defined.


(** C10 at the root comment of a thread. *)
Lemma buildComment_is_own_witness : isThreadRelevant Samples.newThread = true.
Proof.
  destruct (buildComment_is_own Samples.defaultConfig "Earlier remark.") as (_ & _ & H).
  apply (H Samples.newThread (Samples.rootComment "new.ts")); [by left|reflexivity].
Defined.

End Instances.

(** ** Further properties at concrete inputs *)

Section MoreInstances.

Import Diff Prompts Comments PullRequest.
Import Blocks Paging Hash Excerpt ConfigEnv Overview.

(** A comment with a code block of one line is left as it is. *)
Lemma truncateCodeBlocks_short_unchanged_witness :
  truncateCodeBlocks Examples.shortFenced 60 = Examples.shortFenced.
Proof.
  apply truncateCodeBlocks_short_unchanged.
  assert (E : codeBlocks Examples.shortFenced = [1]) by (vm_compute; reflexivity).
  rewrite E. repeat constructor. lia.
Defined.

(** A listing of 100 files costs two requests. *)
Lemma fetchAllPullRequestFiles_complete_witness :
  fetchAllPullRequestFiles (servePage Examples.hundredFiles) 2
  = Some (Examples.hundredFiles, 2).
Proof.
  apply (fetchAllPullRequestFiles_complete Examples.hundredFiles 2).
  vm_compute. lia.
Defined.

(** With a header, the content and the difference between no line and the
    line 0 leave the signature as it is. *)
Lemma upsert_signature_collision_witness :
  makeUpsertSignature "note" "a.ts" None "Title" "one"
  = makeUpsertSignature "note" "a.ts" (Some 0) "Title" "another".
Proof.
  apply upsert_signature_collision; try reflexivity.
  repeat split; reflexivity.
Defined.


(** The text 40 caps the inline comments at 80. *)
Lemma maxComments_read_in_base_20_witness :
  maxCommentsOf (Some "40") EmptyString = 80
  /\ maxCodeblockLinesOf (Some "40") EmptyString = 40.
Proof.
  destruct (maxComments_read_in_base_20 [4; 0] EmptyString) as (H1 & H2 & _).
  - done.
  - repeat constructor; lia.
  - simpl. lia.
  - vm_compute. reflexivity.
  - split; [exact H1|exact H2].
Defined.

(** The first review of two commits records the newer one first. *)
Lemma first_review_records_newest_first_witness :
  exists body,
    announce Examples.sampleRepo [] "base"
      [Examples.firstCommit; Examples.secondCommit] []
    = Ok (Some (mkAnnounced body ["c2"; "c1"] ["Fix the till"; "Add the shop"]
                  [Examples.secondCommit; Examples.firstCommit])).
Proof.
  destruct (first_review_records_newest_first Examples.sampleRepo [] "base"
              [Examples.firstCommit; Examples.secondCommit] []) as [H _].
  destruct H as (body & E & _); [done|done|].
  exists body. exact E.
Defined.

(** The payload of an overview that records the commit c1. *)
Lemma payload_round_trip_witness :
  extractPayloadJson (overviewWithPayload "Overview" ["c1"]) = Samples.storedPayload
  /\ commitsReviewedOf Samples.sampleRuntime (overviewWithPayload "Overview" ["c1"])
     = [JStr "c1"].
Proof.
  destruct (payload_round_trip Samples.sampleRuntime "Overview" ["c1"]) as (H1 & _ & H2).
  - reflexivity.
  - split; [exact H1|]. apply H2. reflexivity.
Defined.

(** After the first review of two commits, the next run takes the older
    one for the last commit reviewed, and compares it with the head. *)
Lemma rerun_compares_from_first_commit_witness :
  resolveScope Examples.rerunRuntime (fun _ _ => Ok None)
    (Some (overviewWithPayload "Overview" ["c2"; "c1"])) "c2"
    [Examples.firstCommit; Examples.secondCommit] []
  = Ok (mkScope [] [] (Some (JStr "c1")) true).
Proof.
  destruct (rerun_compares_from_first_commit Examples.sampleRepo Examples.rerunRuntime
              (fun _ _ => Ok None) "base" "Overview" "c2"
              Examples.firstCommit [Examples.secondCommit] [] Examples.firstAnnounced
              [Examples.firstCommit; Examples.secondCommit] []) as [_ H].
  - vm_compute. reflexivity.
  - reflexivity.
  - vm_compute. reflexivity.
  - exact H.
Defined.

End MoreInstances.
